(* Verification of the authentication subsystem of the memo application:
   ErrorHandlingService (classification, retry, timeout), AllowlistService
   (policy loading and membership), GoogleAuthService (credential handling,
   login, token refresh) and the useAuth state hook. *)

From stdpp Require Import base gmap strings list pretty.
From Stdlib Require Import NArith ZArith Lia Ascii String.
Import ListNotations.

(* ===================================================================== *)
(* JavaScript strings: sequences of UTF-16 code units                    *)
(* ===================================================================== *)

Definition jsstr := list N.

(* an ASCII literal as a JS string *)
Definition s2u (s : string) : jsstr :=
  map (fun a => N_of_ascii a) (list_ascii_of_string s).

(* the class \s of JavaScript regular expressions *)
Definition is_ws (c : N) : bool :=
  ((9 <=? c) && (c <=? 13))%N || (c =? 32)%N || (c =? 160)%N ||
  (c =? 5760)%N || ((8192 <=? c) && (c <=? 8202))%N || (c =? 8232)%N ||
  (c =? 8233)%N || (c =? 8239)%N || (c =? 8287)%N || (c =? 12288)%N ||
  (c =? 65279)%N.

Definition AT : N := 64.
Definition DOT : N := 46.

(* String.prototype.toLowerCase (ECMA-262, 22.1.3.28) reads the string as
   code points, maps them with the Unicode Default Case Conversion toLowercase
   (the full, language-independent mappings of UnicodeData.txt and
   SpecialCasing.txt, with the Final_Sigma condition) and writes the result
   back as UTF-16. The tables below are those of Unicode 14.0:
   [lower_table] lists every code point whose full lowercase mapping is not
   itself (U+03A3 maps to U+03C3 there; Final_Sigma is applied separately),
   [cased_ranges] and [case_ignorable_ranges] the derived properties Cased
   and Case_Ignorable of DerivedCoreProperties.txt. *)
Definition lower_table : list (N * list N) := [
  (0x41, [0x61]); (0x42, [0x62]); (0x43, [0x63]); (0x44, [0x64]); (0x45, [0x65]);
  (0x46, [0x66]); (0x47, [0x67]); (0x48, [0x68]); (0x49, [0x69]); (0x4a, [0x6a]);
  (0x4b, [0x6b]); (0x4c, [0x6c]); (0x4d, [0x6d]); (0x4e, [0x6e]); (0x4f, [0x6f]);
  (0x50, [0x70]); (0x51, [0x71]); (0x52, [0x72]); (0x53, [0x73]); (0x54, [0x74]);
  (0x55, [0x75]); (0x56, [0x76]); (0x57, [0x77]); (0x58, [0x78]); (0x59, [0x79]);
  (0x5a, [0x7a]); (0xc0, [0xe0]); (0xc1, [0xe1]); (0xc2, [0xe2]); (0xc3, [0xe3]);
  (0xc4, [0xe4]); (0xc5, [0xe5]); (0xc6, [0xe6]); (0xc7, [0xe7]); (0xc8, [0xe8]);
  (0xc9, [0xe9]); (0xca, [0xea]); (0xcb, [0xeb]); (0xcc, [0xec]); (0xcd, [0xed]);
  (0xce, [0xee]); (0xcf, [0xef]); (0xd0, [0xf0]); (0xd1, [0xf1]); (0xd2, [0xf2]);
  (0xd3, [0xf3]); (0xd4, [0xf4]); (0xd5, [0xf5]); (0xd6, [0xf6]); (0xd8, [0xf8]);
  (0xd9, [0xf9]); (0xda, [0xfa]); (0xdb, [0xfb]); (0xdc, [0xfc]); (0xdd, [0xfd]);
  (0xde, [0xfe]); (0x100, [0x101]); (0x102, [0x103]); (0x104, [0x105]); (0x106, [0x107]);
  (0x108, [0x109]); (0x10a, [0x10b]); (0x10c, [0x10d]); (0x10e, [0x10f]); (0x110, [0x111]);
  (0x112, [0x113]); (0x114, [0x115]); (0x116, [0x117]); (0x118, [0x119]); (0x11a, [0x11b]);
  (0x11c, [0x11d]); (0x11e, [0x11f]); (0x120, [0x121]); (0x122, [0x123]); (0x124, [0x125]);
  (0x126, [0x127]); (0x128, [0x129]); (0x12a, [0x12b]); (0x12c, [0x12d]); (0x12e, [0x12f]);
  (0x130, [0x69; 0x307]); (0x132, [0x133]); (0x134, [0x135]); (0x136, [0x137]); (0x139, [0x13a]);
  (0x13b, [0x13c]); (0x13d, [0x13e]); (0x13f, [0x140]); (0x141, [0x142]); (0x143, [0x144]);
  (0x145, [0x146]); (0x147, [0x148]); (0x14a, [0x14b]); (0x14c, [0x14d]); (0x14e, [0x14f]);
  (0x150, [0x151]); (0x152, [0x153]); (0x154, [0x155]); (0x156, [0x157]); (0x158, [0x159]);
  (0x15a, [0x15b]); (0x15c, [0x15d]); (0x15e, [0x15f]); (0x160, [0x161]); (0x162, [0x163]);
  (0x164, [0x165]); (0x166, [0x167]); (0x168, [0x169]); (0x16a, [0x16b]); (0x16c, [0x16d]);
  (0x16e, [0x16f]); (0x170, [0x171]); (0x172, [0x173]); (0x174, [0x175]); (0x176, [0x177]);
  (0x178, [0xff]); (0x179, [0x17a]); (0x17b, [0x17c]); (0x17d, [0x17e]); (0x181, [0x253]);
  (0x182, [0x183]); (0x184, [0x185]); (0x186, [0x254]); (0x187, [0x188]); (0x189, [0x256]);
  (0x18a, [0x257]); (0x18b, [0x18c]); (0x18e, [0x1dd]); (0x18f, [0x259]); (0x190, [0x25b]);
  (0x191, [0x192]); (0x193, [0x260]); (0x194, [0x263]); (0x196, [0x269]); (0x197, [0x268]);
  (0x198, [0x199]); (0x19c, [0x26f]); (0x19d, [0x272]); (0x19f, [0x275]); (0x1a0, [0x1a1]);
  (0x1a2, [0x1a3]); (0x1a4, [0x1a5]); (0x1a6, [0x280]); (0x1a7, [0x1a8]); (0x1a9, [0x283]);
  (0x1ac, [0x1ad]); (0x1ae, [0x288]); (0x1af, [0x1b0]); (0x1b1, [0x28a]); (0x1b2, [0x28b]);
  (0x1b3, [0x1b4]); (0x1b5, [0x1b6]); (0x1b7, [0x292]); (0x1b8, [0x1b9]); (0x1bc, [0x1bd]);
  (0x1c4, [0x1c6]); (0x1c5, [0x1c6]); (0x1c7, [0x1c9]); (0x1c8, [0x1c9]); (0x1ca, [0x1cc]);
  (0x1cb, [0x1cc]); (0x1cd, [0x1ce]); (0x1cf, [0x1d0]); (0x1d1, [0x1d2]); (0x1d3, [0x1d4]);
  (0x1d5, [0x1d6]); (0x1d7, [0x1d8]); (0x1d9, [0x1da]); (0x1db, [0x1dc]); (0x1de, [0x1df]);
  (0x1e0, [0x1e1]); (0x1e2, [0x1e3]); (0x1e4, [0x1e5]); (0x1e6, [0x1e7]); (0x1e8, [0x1e9]);
  (0x1ea, [0x1eb]); (0x1ec, [0x1ed]); (0x1ee, [0x1ef]); (0x1f1, [0x1f3]); (0x1f2, [0x1f3]);
  (0x1f4, [0x1f5]); (0x1f6, [0x195]); (0x1f7, [0x1bf]); (0x1f8, [0x1f9]); (0x1fa, [0x1fb]);
  (0x1fc, [0x1fd]); (0x1fe, [0x1ff]); (0x200, [0x201]); (0x202, [0x203]); (0x204, [0x205]);
  (0x206, [0x207]); (0x208, [0x209]); (0x20a, [0x20b]); (0x20c, [0x20d]); (0x20e, [0x20f]);
  (0x210, [0x211]); (0x212, [0x213]); (0x214, [0x215]); (0x216, [0x217]); (0x218, [0x219]);
  (0x21a, [0x21b]); (0x21c, [0x21d]); (0x21e, [0x21f]); (0x220, [0x19e]); (0x222, [0x223]);
  (0x224, [0x225]); (0x226, [0x227]); (0x228, [0x229]); (0x22a, [0x22b]); (0x22c, [0x22d]);
  (0x22e, [0x22f]); (0x230, [0x231]); (0x232, [0x233]); (0x23a, [0x2c65]); (0x23b, [0x23c]);
  (0x23d, [0x19a]); (0x23e, [0x2c66]); (0x241, [0x242]); (0x243, [0x180]); (0x244, [0x289]);
  (0x245, [0x28c]); (0x246, [0x247]); (0x248, [0x249]); (0x24a, [0x24b]); (0x24c, [0x24d]);
  (0x24e, [0x24f]); (0x370, [0x371]); (0x372, [0x373]); (0x376, [0x377]); (0x37f, [0x3f3]);
  (0x386, [0x3ac]); (0x388, [0x3ad]); (0x389, [0x3ae]); (0x38a, [0x3af]); (0x38c, [0x3cc]);
  (0x38e, [0x3cd]); (0x38f, [0x3ce]); (0x391, [0x3b1]); (0x392, [0x3b2]); (0x393, [0x3b3]);
  (0x394, [0x3b4]); (0x395, [0x3b5]); (0x396, [0x3b6]); (0x397, [0x3b7]); (0x398, [0x3b8]);
  (0x399, [0x3b9]); (0x39a, [0x3ba]); (0x39b, [0x3bb]); (0x39c, [0x3bc]); (0x39d, [0x3bd]);
  (0x39e, [0x3be]); (0x39f, [0x3bf]); (0x3a0, [0x3c0]); (0x3a1, [0x3c1]); (0x3a3, [0x3c3]);
  (0x3a4, [0x3c4]); (0x3a5, [0x3c5]); (0x3a6, [0x3c6]); (0x3a7, [0x3c7]); (0x3a8, [0x3c8]);
  (0x3a9, [0x3c9]); (0x3aa, [0x3ca]); (0x3ab, [0x3cb]); (0x3cf, [0x3d7]); (0x3d8, [0x3d9]);
  (0x3da, [0x3db]); (0x3dc, [0x3dd]); (0x3de, [0x3df]); (0x3e0, [0x3e1]); (0x3e2, [0x3e3]);
  (0x3e4, [0x3e5]); (0x3e6, [0x3e7]); (0x3e8, [0x3e9]); (0x3ea, [0x3eb]); (0x3ec, [0x3ed]);
  (0x3ee, [0x3ef]); (0x3f4, [0x3b8]); (0x3f7, [0x3f8]); (0x3f9, [0x3f2]); (0x3fa, [0x3fb]);
  (0x3fd, [0x37b]); (0x3fe, [0x37c]); (0x3ff, [0x37d]); (0x400, [0x450]); (0x401, [0x451]);
  (0x402, [0x452]); (0x403, [0x453]); (0x404, [0x454]); (0x405, [0x455]); (0x406, [0x456]);
  (0x407, [0x457]); (0x408, [0x458]); (0x409, [0x459]); (0x40a, [0x45a]); (0x40b, [0x45b]);
  (0x40c, [0x45c]); (0x40d, [0x45d]); (0x40e, [0x45e]); (0x40f, [0x45f]); (0x410, [0x430]);
  (0x411, [0x431]); (0x412, [0x432]); (0x413, [0x433]); (0x414, [0x434]); (0x415, [0x435]);
  (0x416, [0x436]); (0x417, [0x437]); (0x418, [0x438]); (0x419, [0x439]); (0x41a, [0x43a]);
  (0x41b, [0x43b]); (0x41c, [0x43c]); (0x41d, [0x43d]); (0x41e, [0x43e]); (0x41f, [0x43f]);
  (0x420, [0x440]); (0x421, [0x441]); (0x422, [0x442]); (0x423, [0x443]); (0x424, [0x444]);
  (0x425, [0x445]); (0x426, [0x446]); (0x427, [0x447]); (0x428, [0x448]); (0x429, [0x449]);
  (0x42a, [0x44a]); (0x42b, [0x44b]); (0x42c, [0x44c]); (0x42d, [0x44d]); (0x42e, [0x44e]);
  (0x42f, [0x44f]); (0x460, [0x461]); (0x462, [0x463]); (0x464, [0x465]); (0x466, [0x467]);
  (0x468, [0x469]); (0x46a, [0x46b]); (0x46c, [0x46d]); (0x46e, [0x46f]); (0x470, [0x471]);
  (0x472, [0x473]); (0x474, [0x475]); (0x476, [0x477]); (0x478, [0x479]); (0x47a, [0x47b]);
  (0x47c, [0x47d]); (0x47e, [0x47f]); (0x480, [0x481]); (0x48a, [0x48b]); (0x48c, [0x48d]);
  (0x48e, [0x48f]); (0x490, [0x491]); (0x492, [0x493]); (0x494, [0x495]); (0x496, [0x497]);
  (0x498, [0x499]); (0x49a, [0x49b]); (0x49c, [0x49d]); (0x49e, [0x49f]); (0x4a0, [0x4a1]);
  (0x4a2, [0x4a3]); (0x4a4, [0x4a5]); (0x4a6, [0x4a7]); (0x4a8, [0x4a9]); (0x4aa, [0x4ab]);
  (0x4ac, [0x4ad]); (0x4ae, [0x4af]); (0x4b0, [0x4b1]); (0x4b2, [0x4b3]); (0x4b4, [0x4b5]);
  (0x4b6, [0x4b7]); (0x4b8, [0x4b9]); (0x4ba, [0x4bb]); (0x4bc, [0x4bd]); (0x4be, [0x4bf]);
  (0x4c0, [0x4cf]); (0x4c1, [0x4c2]); (0x4c3, [0x4c4]); (0x4c5, [0x4c6]); (0x4c7, [0x4c8]);
  (0x4c9, [0x4ca]); (0x4cb, [0x4cc]); (0x4cd, [0x4ce]); (0x4d0, [0x4d1]); (0x4d2, [0x4d3]);
  (0x4d4, [0x4d5]); (0x4d6, [0x4d7]); (0x4d8, [0x4d9]); (0x4da, [0x4db]); (0x4dc, [0x4dd]);
  (0x4de, [0x4df]); (0x4e0, [0x4e1]); (0x4e2, [0x4e3]); (0x4e4, [0x4e5]); (0x4e6, [0x4e7]);
  (0x4e8, [0x4e9]); (0x4ea, [0x4eb]); (0x4ec, [0x4ed]); (0x4ee, [0x4ef]); (0x4f0, [0x4f1]);
  (0x4f2, [0x4f3]); (0x4f4, [0x4f5]); (0x4f6, [0x4f7]); (0x4f8, [0x4f9]); (0x4fa, [0x4fb]);
  (0x4fc, [0x4fd]); (0x4fe, [0x4ff]); (0x500, [0x501]); (0x502, [0x503]); (0x504, [0x505]);
  (0x506, [0x507]); (0x508, [0x509]); (0x50a, [0x50b]); (0x50c, [0x50d]); (0x50e, [0x50f]);
  (0x510, [0x511]); (0x512, [0x513]); (0x514, [0x515]); (0x516, [0x517]); (0x518, [0x519]);
  (0x51a, [0x51b]); (0x51c, [0x51d]); (0x51e, [0x51f]); (0x520, [0x521]); (0x522, [0x523]);
  (0x524, [0x525]); (0x526, [0x527]); (0x528, [0x529]); (0x52a, [0x52b]); (0x52c, [0x52d]);
  (0x52e, [0x52f]); (0x531, [0x561]); (0x532, [0x562]); (0x533, [0x563]); (0x534, [0x564]);
  (0x535, [0x565]); (0x536, [0x566]); (0x537, [0x567]); (0x538, [0x568]); (0x539, [0x569]);
  (0x53a, [0x56a]); (0x53b, [0x56b]); (0x53c, [0x56c]); (0x53d, [0x56d]); (0x53e, [0x56e]);
  (0x53f, [0x56f]); (0x540, [0x570]); (0x541, [0x571]); (0x542, [0x572]); (0x543, [0x573]);
  (0x544, [0x574]); (0x545, [0x575]); (0x546, [0x576]); (0x547, [0x577]); (0x548, [0x578]);
  (0x549, [0x579]); (0x54a, [0x57a]); (0x54b, [0x57b]); (0x54c, [0x57c]); (0x54d, [0x57d]);
  (0x54e, [0x57e]); (0x54f, [0x57f]); (0x550, [0x580]); (0x551, [0x581]); (0x552, [0x582]);
  (0x553, [0x583]); (0x554, [0x584]); (0x555, [0x585]); (0x556, [0x586]); (0x10a0, [0x2d00]);
  (0x10a1, [0x2d01]); (0x10a2, [0x2d02]); (0x10a3, [0x2d03]); (0x10a4, [0x2d04]); (0x10a5, [0x2d05]);
  (0x10a6, [0x2d06]); (0x10a7, [0x2d07]); (0x10a8, [0x2d08]); (0x10a9, [0x2d09]); (0x10aa, [0x2d0a]);
  (0x10ab, [0x2d0b]); (0x10ac, [0x2d0c]); (0x10ad, [0x2d0d]); (0x10ae, [0x2d0e]); (0x10af, [0x2d0f]);
  (0x10b0, [0x2d10]); (0x10b1, [0x2d11]); (0x10b2, [0x2d12]); (0x10b3, [0x2d13]); (0x10b4, [0x2d14]);
  (0x10b5, [0x2d15]); (0x10b6, [0x2d16]); (0x10b7, [0x2d17]); (0x10b8, [0x2d18]); (0x10b9, [0x2d19]);
  (0x10ba, [0x2d1a]); (0x10bb, [0x2d1b]); (0x10bc, [0x2d1c]); (0x10bd, [0x2d1d]); (0x10be, [0x2d1e]);
  (0x10bf, [0x2d1f]); (0x10c0, [0x2d20]); (0x10c1, [0x2d21]); (0x10c2, [0x2d22]); (0x10c3, [0x2d23]);
  (0x10c4, [0x2d24]); (0x10c5, [0x2d25]); (0x10c7, [0x2d27]); (0x10cd, [0x2d2d]); (0x13a0, [0xab70]);
  (0x13a1, [0xab71]); (0x13a2, [0xab72]); (0x13a3, [0xab73]); (0x13a4, [0xab74]); (0x13a5, [0xab75]);
  (0x13a6, [0xab76]); (0x13a7, [0xab77]); (0x13a8, [0xab78]); (0x13a9, [0xab79]); (0x13aa, [0xab7a]);
  (0x13ab, [0xab7b]); (0x13ac, [0xab7c]); (0x13ad, [0xab7d]); (0x13ae, [0xab7e]); (0x13af, [0xab7f]);
  (0x13b0, [0xab80]); (0x13b1, [0xab81]); (0x13b2, [0xab82]); (0x13b3, [0xab83]); (0x13b4, [0xab84]);
  (0x13b5, [0xab85]); (0x13b6, [0xab86]); (0x13b7, [0xab87]); (0x13b8, [0xab88]); (0x13b9, [0xab89]);
  (0x13ba, [0xab8a]); (0x13bb, [0xab8b]); (0x13bc, [0xab8c]); (0x13bd, [0xab8d]); (0x13be, [0xab8e]);
  (0x13bf, [0xab8f]); (0x13c0, [0xab90]); (0x13c1, [0xab91]); (0x13c2, [0xab92]); (0x13c3, [0xab93]);
  (0x13c4, [0xab94]); (0x13c5, [0xab95]); (0x13c6, [0xab96]); (0x13c7, [0xab97]); (0x13c8, [0xab98]);
  (0x13c9, [0xab99]); (0x13ca, [0xab9a]); (0x13cb, [0xab9b]); (0x13cc, [0xab9c]); (0x13cd, [0xab9d]);
  (0x13ce, [0xab9e]); (0x13cf, [0xab9f]); (0x13d0, [0xaba0]); (0x13d1, [0xaba1]); (0x13d2, [0xaba2]);
  (0x13d3, [0xaba3]); (0x13d4, [0xaba4]); (0x13d5, [0xaba5]); (0x13d6, [0xaba6]); (0x13d7, [0xaba7]);
  (0x13d8, [0xaba8]); (0x13d9, [0xaba9]); (0x13da, [0xabaa]); (0x13db, [0xabab]); (0x13dc, [0xabac]);
  (0x13dd, [0xabad]); (0x13de, [0xabae]); (0x13df, [0xabaf]); (0x13e0, [0xabb0]); (0x13e1, [0xabb1]);
  (0x13e2, [0xabb2]); (0x13e3, [0xabb3]); (0x13e4, [0xabb4]); (0x13e5, [0xabb5]); (0x13e6, [0xabb6]);
  (0x13e7, [0xabb7]); (0x13e8, [0xabb8]); (0x13e9, [0xabb9]); (0x13ea, [0xabba]); (0x13eb, [0xabbb]);
  (0x13ec, [0xabbc]); (0x13ed, [0xabbd]); (0x13ee, [0xabbe]); (0x13ef, [0xabbf]); (0x13f0, [0x13f8]);
  (0x13f1, [0x13f9]); (0x13f2, [0x13fa]); (0x13f3, [0x13fb]); (0x13f4, [0x13fc]); (0x13f5, [0x13fd]);
  (0x1c90, [0x10d0]); (0x1c91, [0x10d1]); (0x1c92, [0x10d2]); (0x1c93, [0x10d3]); (0x1c94, [0x10d4]);
  (0x1c95, [0x10d5]); (0x1c96, [0x10d6]); (0x1c97, [0x10d7]); (0x1c98, [0x10d8]); (0x1c99, [0x10d9]);
  (0x1c9a, [0x10da]); (0x1c9b, [0x10db]); (0x1c9c, [0x10dc]); (0x1c9d, [0x10dd]); (0x1c9e, [0x10de]);
  (0x1c9f, [0x10df]); (0x1ca0, [0x10e0]); (0x1ca1, [0x10e1]); (0x1ca2, [0x10e2]); (0x1ca3, [0x10e3]);
  (0x1ca4, [0x10e4]); (0x1ca5, [0x10e5]); (0x1ca6, [0x10e6]); (0x1ca7, [0x10e7]); (0x1ca8, [0x10e8]);
  (0x1ca9, [0x10e9]); (0x1caa, [0x10ea]); (0x1cab, [0x10eb]); (0x1cac, [0x10ec]); (0x1cad, [0x10ed]);
  (0x1cae, [0x10ee]); (0x1caf, [0x10ef]); (0x1cb0, [0x10f0]); (0x1cb1, [0x10f1]); (0x1cb2, [0x10f2]);
  (0x1cb3, [0x10f3]); (0x1cb4, [0x10f4]); (0x1cb5, [0x10f5]); (0x1cb6, [0x10f6]); (0x1cb7, [0x10f7]);
  (0x1cb8, [0x10f8]); (0x1cb9, [0x10f9]); (0x1cba, [0x10fa]); (0x1cbd, [0x10fd]); (0x1cbe, [0x10fe]);
  (0x1cbf, [0x10ff]); (0x1e00, [0x1e01]); (0x1e02, [0x1e03]); (0x1e04, [0x1e05]); (0x1e06, [0x1e07]);
  (0x1e08, [0x1e09]); (0x1e0a, [0x1e0b]); (0x1e0c, [0x1e0d]); (0x1e0e, [0x1e0f]); (0x1e10, [0x1e11]);
  (0x1e12, [0x1e13]); (0x1e14, [0x1e15]); (0x1e16, [0x1e17]); (0x1e18, [0x1e19]); (0x1e1a, [0x1e1b]);
  (0x1e1c, [0x1e1d]); (0x1e1e, [0x1e1f]); (0x1e20, [0x1e21]); (0x1e22, [0x1e23]); (0x1e24, [0x1e25]);
  (0x1e26, [0x1e27]); (0x1e28, [0x1e29]); (0x1e2a, [0x1e2b]); (0x1e2c, [0x1e2d]); (0x1e2e, [0x1e2f]);
  (0x1e30, [0x1e31]); (0x1e32, [0x1e33]); (0x1e34, [0x1e35]); (0x1e36, [0x1e37]); (0x1e38, [0x1e39]);
  (0x1e3a, [0x1e3b]); (0x1e3c, [0x1e3d]); (0x1e3e, [0x1e3f]); (0x1e40, [0x1e41]); (0x1e42, [0x1e43]);
  (0x1e44, [0x1e45]); (0x1e46, [0x1e47]); (0x1e48, [0x1e49]); (0x1e4a, [0x1e4b]); (0x1e4c, [0x1e4d]);
  (0x1e4e, [0x1e4f]); (0x1e50, [0x1e51]); (0x1e52, [0x1e53]); (0x1e54, [0x1e55]); (0x1e56, [0x1e57]);
  (0x1e58, [0x1e59]); (0x1e5a, [0x1e5b]); (0x1e5c, [0x1e5d]); (0x1e5e, [0x1e5f]); (0x1e60, [0x1e61]);
  (0x1e62, [0x1e63]); (0x1e64, [0x1e65]); (0x1e66, [0x1e67]); (0x1e68, [0x1e69]); (0x1e6a, [0x1e6b]);
  (0x1e6c, [0x1e6d]); (0x1e6e, [0x1e6f]); (0x1e70, [0x1e71]); (0x1e72, [0x1e73]); (0x1e74, [0x1e75]);
  (0x1e76, [0x1e77]); (0x1e78, [0x1e79]); (0x1e7a, [0x1e7b]); (0x1e7c, [0x1e7d]); (0x1e7e, [0x1e7f]);
  (0x1e80, [0x1e81]); (0x1e82, [0x1e83]); (0x1e84, [0x1e85]); (0x1e86, [0x1e87]); (0x1e88, [0x1e89]);
  (0x1e8a, [0x1e8b]); (0x1e8c, [0x1e8d]); (0x1e8e, [0x1e8f]); (0x1e90, [0x1e91]); (0x1e92, [0x1e93]);
  (0x1e94, [0x1e95]); (0x1e9e, [0xdf]); (0x1ea0, [0x1ea1]); (0x1ea2, [0x1ea3]); (0x1ea4, [0x1ea5]);
  (0x1ea6, [0x1ea7]); (0x1ea8, [0x1ea9]); (0x1eaa, [0x1eab]); (0x1eac, [0x1ead]); (0x1eae, [0x1eaf]);
  (0x1eb0, [0x1eb1]); (0x1eb2, [0x1eb3]); (0x1eb4, [0x1eb5]); (0x1eb6, [0x1eb7]); (0x1eb8, [0x1eb9]);
  (0x1eba, [0x1ebb]); (0x1ebc, [0x1ebd]); (0x1ebe, [0x1ebf]); (0x1ec0, [0x1ec1]); (0x1ec2, [0x1ec3]);
  (0x1ec4, [0x1ec5]); (0x1ec6, [0x1ec7]); (0x1ec8, [0x1ec9]); (0x1eca, [0x1ecb]); (0x1ecc, [0x1ecd]);
  (0x1ece, [0x1ecf]); (0x1ed0, [0x1ed1]); (0x1ed2, [0x1ed3]); (0x1ed4, [0x1ed5]); (0x1ed6, [0x1ed7]);
  (0x1ed8, [0x1ed9]); (0x1eda, [0x1edb]); (0x1edc, [0x1edd]); (0x1ede, [0x1edf]); (0x1ee0, [0x1ee1]);
  (0x1ee2, [0x1ee3]); (0x1ee4, [0x1ee5]); (0x1ee6, [0x1ee7]); (0x1ee8, [0x1ee9]); (0x1eea, [0x1eeb]);
  (0x1eec, [0x1eed]); (0x1eee, [0x1eef]); (0x1ef0, [0x1ef1]); (0x1ef2, [0x1ef3]); (0x1ef4, [0x1ef5]);
  (0x1ef6, [0x1ef7]); (0x1ef8, [0x1ef9]); (0x1efa, [0x1efb]); (0x1efc, [0x1efd]); (0x1efe, [0x1eff]);
  (0x1f08, [0x1f00]); (0x1f09, [0x1f01]); (0x1f0a, [0x1f02]); (0x1f0b, [0x1f03]); (0x1f0c, [0x1f04]);
  (0x1f0d, [0x1f05]); (0x1f0e, [0x1f06]); (0x1f0f, [0x1f07]); (0x1f18, [0x1f10]); (0x1f19, [0x1f11]);
  (0x1f1a, [0x1f12]); (0x1f1b, [0x1f13]); (0x1f1c, [0x1f14]); (0x1f1d, [0x1f15]); (0x1f28, [0x1f20]);
  (0x1f29, [0x1f21]); (0x1f2a, [0x1f22]); (0x1f2b, [0x1f23]); (0x1f2c, [0x1f24]); (0x1f2d, [0x1f25]);
  (0x1f2e, [0x1f26]); (0x1f2f, [0x1f27]); (0x1f38, [0x1f30]); (0x1f39, [0x1f31]); (0x1f3a, [0x1f32]);
  (0x1f3b, [0x1f33]); (0x1f3c, [0x1f34]); (0x1f3d, [0x1f35]); (0x1f3e, [0x1f36]); (0x1f3f, [0x1f37]);
  (0x1f48, [0x1f40]); (0x1f49, [0x1f41]); (0x1f4a, [0x1f42]); (0x1f4b, [0x1f43]); (0x1f4c, [0x1f44]);
  (0x1f4d, [0x1f45]); (0x1f59, [0x1f51]); (0x1f5b, [0x1f53]); (0x1f5d, [0x1f55]); (0x1f5f, [0x1f57]);
  (0x1f68, [0x1f60]); (0x1f69, [0x1f61]); (0x1f6a, [0x1f62]); (0x1f6b, [0x1f63]); (0x1f6c, [0x1f64]);
  (0x1f6d, [0x1f65]); (0x1f6e, [0x1f66]); (0x1f6f, [0x1f67]); (0x1f88, [0x1f80]); (0x1f89, [0x1f81]);
  (0x1f8a, [0x1f82]); (0x1f8b, [0x1f83]); (0x1f8c, [0x1f84]); (0x1f8d, [0x1f85]); (0x1f8e, [0x1f86]);
  (0x1f8f, [0x1f87]); (0x1f98, [0x1f90]); (0x1f99, [0x1f91]); (0x1f9a, [0x1f92]); (0x1f9b, [0x1f93]);
  (0x1f9c, [0x1f94]); (0x1f9d, [0x1f95]); (0x1f9e, [0x1f96]); (0x1f9f, [0x1f97]); (0x1fa8, [0x1fa0]);
  (0x1fa9, [0x1fa1]); (0x1faa, [0x1fa2]); (0x1fab, [0x1fa3]); (0x1fac, [0x1fa4]); (0x1fad, [0x1fa5]);
  (0x1fae, [0x1fa6]); (0x1faf, [0x1fa7]); (0x1fb8, [0x1fb0]); (0x1fb9, [0x1fb1]); (0x1fba, [0x1f70]);
  (0x1fbb, [0x1f71]); (0x1fbc, [0x1fb3]); (0x1fc8, [0x1f72]); (0x1fc9, [0x1f73]); (0x1fca, [0x1f74]);
  (0x1fcb, [0x1f75]); (0x1fcc, [0x1fc3]); (0x1fd8, [0x1fd0]); (0x1fd9, [0x1fd1]); (0x1fda, [0x1f76]);
  (0x1fdb, [0x1f77]); (0x1fe8, [0x1fe0]); (0x1fe9, [0x1fe1]); (0x1fea, [0x1f7a]); (0x1feb, [0x1f7b]);
  (0x1fec, [0x1fe5]); (0x1ff8, [0x1f78]); (0x1ff9, [0x1f79]); (0x1ffa, [0x1f7c]); (0x1ffb, [0x1f7d]);
  (0x1ffc, [0x1ff3]); (0x2126, [0x3c9]); (0x212a, [0x6b]); (0x212b, [0xe5]); (0x2132, [0x214e]);
  (0x2160, [0x2170]); (0x2161, [0x2171]); (0x2162, [0x2172]); (0x2163, [0x2173]); (0x2164, [0x2174]);
  (0x2165, [0x2175]); (0x2166, [0x2176]); (0x2167, [0x2177]); (0x2168, [0x2178]); (0x2169, [0x2179]);
  (0x216a, [0x217a]); (0x216b, [0x217b]); (0x216c, [0x217c]); (0x216d, [0x217d]); (0x216e, [0x217e]);
  (0x216f, [0x217f]); (0x2183, [0x2184]); (0x24b6, [0x24d0]); (0x24b7, [0x24d1]); (0x24b8, [0x24d2]);
  (0x24b9, [0x24d3]); (0x24ba, [0x24d4]); (0x24bb, [0x24d5]); (0x24bc, [0x24d6]); (0x24bd, [0x24d7]);
  (0x24be, [0x24d8]); (0x24bf, [0x24d9]); (0x24c0, [0x24da]); (0x24c1, [0x24db]); (0x24c2, [0x24dc]);
  (0x24c3, [0x24dd]); (0x24c4, [0x24de]); (0x24c5, [0x24df]); (0x24c6, [0x24e0]); (0x24c7, [0x24e1]);
  (0x24c8, [0x24e2]); (0x24c9, [0x24e3]); (0x24ca, [0x24e4]); (0x24cb, [0x24e5]); (0x24cc, [0x24e6]);
  (0x24cd, [0x24e7]); (0x24ce, [0x24e8]); (0x24cf, [0x24e9]); (0x2c00, [0x2c30]); (0x2c01, [0x2c31]);
  (0x2c02, [0x2c32]); (0x2c03, [0x2c33]); (0x2c04, [0x2c34]); (0x2c05, [0x2c35]); (0x2c06, [0x2c36]);
  (0x2c07, [0x2c37]); (0x2c08, [0x2c38]); (0x2c09, [0x2c39]); (0x2c0a, [0x2c3a]); (0x2c0b, [0x2c3b]);
  (0x2c0c, [0x2c3c]); (0x2c0d, [0x2c3d]); (0x2c0e, [0x2c3e]); (0x2c0f, [0x2c3f]); (0x2c10, [0x2c40]);
  (0x2c11, [0x2c41]); (0x2c12, [0x2c42]); (0x2c13, [0x2c43]); (0x2c14, [0x2c44]); (0x2c15, [0x2c45]);
  (0x2c16, [0x2c46]); (0x2c17, [0x2c47]); (0x2c18, [0x2c48]); (0x2c19, [0x2c49]); (0x2c1a, [0x2c4a]);
  (0x2c1b, [0x2c4b]); (0x2c1c, [0x2c4c]); (0x2c1d, [0x2c4d]); (0x2c1e, [0x2c4e]); (0x2c1f, [0x2c4f]);
  (0x2c20, [0x2c50]); (0x2c21, [0x2c51]); (0x2c22, [0x2c52]); (0x2c23, [0x2c53]); (0x2c24, [0x2c54]);
  (0x2c25, [0x2c55]); (0x2c26, [0x2c56]); (0x2c27, [0x2c57]); (0x2c28, [0x2c58]); (0x2c29, [0x2c59]);
  (0x2c2a, [0x2c5a]); (0x2c2b, [0x2c5b]); (0x2c2c, [0x2c5c]); (0x2c2d, [0x2c5d]); (0x2c2e, [0x2c5e]);
  (0x2c2f, [0x2c5f]); (0x2c60, [0x2c61]); (0x2c62, [0x26b]); (0x2c63, [0x1d7d]); (0x2c64, [0x27d]);
  (0x2c67, [0x2c68]); (0x2c69, [0x2c6a]); (0x2c6b, [0x2c6c]); (0x2c6d, [0x251]); (0x2c6e, [0x271]);
  (0x2c6f, [0x250]); (0x2c70, [0x252]); (0x2c72, [0x2c73]); (0x2c75, [0x2c76]); (0x2c7e, [0x23f]);
  (0x2c7f, [0x240]); (0x2c80, [0x2c81]); (0x2c82, [0x2c83]); (0x2c84, [0x2c85]); (0x2c86, [0x2c87]);
  (0x2c88, [0x2c89]); (0x2c8a, [0x2c8b]); (0x2c8c, [0x2c8d]); (0x2c8e, [0x2c8f]); (0x2c90, [0x2c91]);
  (0x2c92, [0x2c93]); (0x2c94, [0x2c95]); (0x2c96, [0x2c97]); (0x2c98, [0x2c99]); (0x2c9a, [0x2c9b]);
  (0x2c9c, [0x2c9d]); (0x2c9e, [0x2c9f]); (0x2ca0, [0x2ca1]); (0x2ca2, [0x2ca3]); (0x2ca4, [0x2ca5]);
  (0x2ca6, [0x2ca7]); (0x2ca8, [0x2ca9]); (0x2caa, [0x2cab]); (0x2cac, [0x2cad]); (0x2cae, [0x2caf]);
  (0x2cb0, [0x2cb1]); (0x2cb2, [0x2cb3]); (0x2cb4, [0x2cb5]); (0x2cb6, [0x2cb7]); (0x2cb8, [0x2cb9]);
  (0x2cba, [0x2cbb]); (0x2cbc, [0x2cbd]); (0x2cbe, [0x2cbf]); (0x2cc0, [0x2cc1]); (0x2cc2, [0x2cc3]);
  (0x2cc4, [0x2cc5]); (0x2cc6, [0x2cc7]); (0x2cc8, [0x2cc9]); (0x2cca, [0x2ccb]); (0x2ccc, [0x2ccd]);
  (0x2cce, [0x2ccf]); (0x2cd0, [0x2cd1]); (0x2cd2, [0x2cd3]); (0x2cd4, [0x2cd5]); (0x2cd6, [0x2cd7]);
  (0x2cd8, [0x2cd9]); (0x2cda, [0x2cdb]); (0x2cdc, [0x2cdd]); (0x2cde, [0x2cdf]); (0x2ce0, [0x2ce1]);
  (0x2ce2, [0x2ce3]); (0x2ceb, [0x2cec]); (0x2ced, [0x2cee]); (0x2cf2, [0x2cf3]); (0xa640, [0xa641]);
  (0xa642, [0xa643]); (0xa644, [0xa645]); (0xa646, [0xa647]); (0xa648, [0xa649]); (0xa64a, [0xa64b]);
  (0xa64c, [0xa64d]); (0xa64e, [0xa64f]); (0xa650, [0xa651]); (0xa652, [0xa653]); (0xa654, [0xa655]);
  (0xa656, [0xa657]); (0xa658, [0xa659]); (0xa65a, [0xa65b]); (0xa65c, [0xa65d]); (0xa65e, [0xa65f]);
  (0xa660, [0xa661]); (0xa662, [0xa663]); (0xa664, [0xa665]); (0xa666, [0xa667]); (0xa668, [0xa669]);
  (0xa66a, [0xa66b]); (0xa66c, [0xa66d]); (0xa680, [0xa681]); (0xa682, [0xa683]); (0xa684, [0xa685]);
  (0xa686, [0xa687]); (0xa688, [0xa689]); (0xa68a, [0xa68b]); (0xa68c, [0xa68d]); (0xa68e, [0xa68f]);
  (0xa690, [0xa691]); (0xa692, [0xa693]); (0xa694, [0xa695]); (0xa696, [0xa697]); (0xa698, [0xa699]);
  (0xa69a, [0xa69b]); (0xa722, [0xa723]); (0xa724, [0xa725]); (0xa726, [0xa727]); (0xa728, [0xa729]);
  (0xa72a, [0xa72b]); (0xa72c, [0xa72d]); (0xa72e, [0xa72f]); (0xa732, [0xa733]); (0xa734, [0xa735]);
  (0xa736, [0xa737]); (0xa738, [0xa739]); (0xa73a, [0xa73b]); (0xa73c, [0xa73d]); (0xa73e, [0xa73f]);
  (0xa740, [0xa741]); (0xa742, [0xa743]); (0xa744, [0xa745]); (0xa746, [0xa747]); (0xa748, [0xa749]);
  (0xa74a, [0xa74b]); (0xa74c, [0xa74d]); (0xa74e, [0xa74f]); (0xa750, [0xa751]); (0xa752, [0xa753]);
  (0xa754, [0xa755]); (0xa756, [0xa757]); (0xa758, [0xa759]); (0xa75a, [0xa75b]); (0xa75c, [0xa75d]);
  (0xa75e, [0xa75f]); (0xa760, [0xa761]); (0xa762, [0xa763]); (0xa764, [0xa765]); (0xa766, [0xa767]);
  (0xa768, [0xa769]); (0xa76a, [0xa76b]); (0xa76c, [0xa76d]); (0xa76e, [0xa76f]); (0xa779, [0xa77a]);
  (0xa77b, [0xa77c]); (0xa77d, [0x1d79]); (0xa77e, [0xa77f]); (0xa780, [0xa781]); (0xa782, [0xa783]);
  (0xa784, [0xa785]); (0xa786, [0xa787]); (0xa78b, [0xa78c]); (0xa78d, [0x265]); (0xa790, [0xa791]);
  (0xa792, [0xa793]); (0xa796, [0xa797]); (0xa798, [0xa799]); (0xa79a, [0xa79b]); (0xa79c, [0xa79d]);
  (0xa79e, [0xa79f]); (0xa7a0, [0xa7a1]); (0xa7a2, [0xa7a3]); (0xa7a4, [0xa7a5]); (0xa7a6, [0xa7a7]);
  (0xa7a8, [0xa7a9]); (0xa7aa, [0x266]); (0xa7ab, [0x25c]); (0xa7ac, [0x261]); (0xa7ad, [0x26c]);
  (0xa7ae, [0x26a]); (0xa7b0, [0x29e]); (0xa7b1, [0x287]); (0xa7b2, [0x29d]); (0xa7b3, [0xab53]);
  (0xa7b4, [0xa7b5]); (0xa7b6, [0xa7b7]); (0xa7b8, [0xa7b9]); (0xa7ba, [0xa7bb]); (0xa7bc, [0xa7bd]);
  (0xa7be, [0xa7bf]); (0xa7c0, [0xa7c1]); (0xa7c2, [0xa7c3]); (0xa7c4, [0xa794]); (0xa7c5, [0x282]);
  (0xa7c6, [0x1d8e]); (0xa7c7, [0xa7c8]); (0xa7c9, [0xa7ca]); (0xa7d0, [0xa7d1]); (0xa7d6, [0xa7d7]);
  (0xa7d8, [0xa7d9]); (0xa7f5, [0xa7f6]); (0xff21, [0xff41]); (0xff22, [0xff42]); (0xff23, [0xff43]);
  (0xff24, [0xff44]); (0xff25, [0xff45]); (0xff26, [0xff46]); (0xff27, [0xff47]); (0xff28, [0xff48]);
  (0xff29, [0xff49]); (0xff2a, [0xff4a]); (0xff2b, [0xff4b]); (0xff2c, [0xff4c]); (0xff2d, [0xff4d]);
  (0xff2e, [0xff4e]); (0xff2f, [0xff4f]); (0xff30, [0xff50]); (0xff31, [0xff51]); (0xff32, [0xff52]);
  (0xff33, [0xff53]); (0xff34, [0xff54]); (0xff35, [0xff55]); (0xff36, [0xff56]); (0xff37, [0xff57]);
  (0xff38, [0xff58]); (0xff39, [0xff59]); (0xff3a, [0xff5a]); (0x10400, [0x10428]); (0x10401, [0x10429]);
  (0x10402, [0x1042a]); (0x10403, [0x1042b]); (0x10404, [0x1042c]); (0x10405, [0x1042d]); (0x10406, [0x1042e]);
  (0x10407, [0x1042f]); (0x10408, [0x10430]); (0x10409, [0x10431]); (0x1040a, [0x10432]); (0x1040b, [0x10433]);
  (0x1040c, [0x10434]); (0x1040d, [0x10435]); (0x1040e, [0x10436]); (0x1040f, [0x10437]); (0x10410, [0x10438]);
  (0x10411, [0x10439]); (0x10412, [0x1043a]); (0x10413, [0x1043b]); (0x10414, [0x1043c]); (0x10415, [0x1043d]);
  (0x10416, [0x1043e]); (0x10417, [0x1043f]); (0x10418, [0x10440]); (0x10419, [0x10441]); (0x1041a, [0x10442]);
  (0x1041b, [0x10443]); (0x1041c, [0x10444]); (0x1041d, [0x10445]); (0x1041e, [0x10446]); (0x1041f, [0x10447]);
  (0x10420, [0x10448]); (0x10421, [0x10449]); (0x10422, [0x1044a]); (0x10423, [0x1044b]); (0x10424, [0x1044c]);
  (0x10425, [0x1044d]); (0x10426, [0x1044e]); (0x10427, [0x1044f]); (0x104b0, [0x104d8]); (0x104b1, [0x104d9]);
  (0x104b2, [0x104da]); (0x104b3, [0x104db]); (0x104b4, [0x104dc]); (0x104b5, [0x104dd]); (0x104b6, [0x104de]);
  (0x104b7, [0x104df]); (0x104b8, [0x104e0]); (0x104b9, [0x104e1]); (0x104ba, [0x104e2]); (0x104bb, [0x104e3]);
  (0x104bc, [0x104e4]); (0x104bd, [0x104e5]); (0x104be, [0x104e6]); (0x104bf, [0x104e7]); (0x104c0, [0x104e8]);
  (0x104c1, [0x104e9]); (0x104c2, [0x104ea]); (0x104c3, [0x104eb]); (0x104c4, [0x104ec]); (0x104c5, [0x104ed]);
  (0x104c6, [0x104ee]); (0x104c7, [0x104ef]); (0x104c8, [0x104f0]); (0x104c9, [0x104f1]); (0x104ca, [0x104f2]);
  (0x104cb, [0x104f3]); (0x104cc, [0x104f4]); (0x104cd, [0x104f5]); (0x104ce, [0x104f6]); (0x104cf, [0x104f7]);
  (0x104d0, [0x104f8]); (0x104d1, [0x104f9]); (0x104d2, [0x104fa]); (0x104d3, [0x104fb]); (0x10570, [0x10597]);
  (0x10571, [0x10598]); (0x10572, [0x10599]); (0x10573, [0x1059a]); (0x10574, [0x1059b]); (0x10575, [0x1059c]);
  (0x10576, [0x1059d]); (0x10577, [0x1059e]); (0x10578, [0x1059f]); (0x10579, [0x105a0]); (0x1057a, [0x105a1]);
  (0x1057c, [0x105a3]); (0x1057d, [0x105a4]); (0x1057e, [0x105a5]); (0x1057f, [0x105a6]); (0x10580, [0x105a7]);
  (0x10581, [0x105a8]); (0x10582, [0x105a9]); (0x10583, [0x105aa]); (0x10584, [0x105ab]); (0x10585, [0x105ac]);
  (0x10586, [0x105ad]); (0x10587, [0x105ae]); (0x10588, [0x105af]); (0x10589, [0x105b0]); (0x1058a, [0x105b1]);
  (0x1058c, [0x105b3]); (0x1058d, [0x105b4]); (0x1058e, [0x105b5]); (0x1058f, [0x105b6]); (0x10590, [0x105b7]);
  (0x10591, [0x105b8]); (0x10592, [0x105b9]); (0x10594, [0x105bb]); (0x10595, [0x105bc]); (0x10c80, [0x10cc0]);
  (0x10c81, [0x10cc1]); (0x10c82, [0x10cc2]); (0x10c83, [0x10cc3]); (0x10c84, [0x10cc4]); (0x10c85, [0x10cc5]);
  (0x10c86, [0x10cc6]); (0x10c87, [0x10cc7]); (0x10c88, [0x10cc8]); (0x10c89, [0x10cc9]); (0x10c8a, [0x10cca]);
  (0x10c8b, [0x10ccb]); (0x10c8c, [0x10ccc]); (0x10c8d, [0x10ccd]); (0x10c8e, [0x10cce]); (0x10c8f, [0x10ccf]);
  (0x10c90, [0x10cd0]); (0x10c91, [0x10cd1]); (0x10c92, [0x10cd2]); (0x10c93, [0x10cd3]); (0x10c94, [0x10cd4]);
  (0x10c95, [0x10cd5]); (0x10c96, [0x10cd6]); (0x10c97, [0x10cd7]); (0x10c98, [0x10cd8]); (0x10c99, [0x10cd9]);
  (0x10c9a, [0x10cda]); (0x10c9b, [0x10cdb]); (0x10c9c, [0x10cdc]); (0x10c9d, [0x10cdd]); (0x10c9e, [0x10cde]);
  (0x10c9f, [0x10cdf]); (0x10ca0, [0x10ce0]); (0x10ca1, [0x10ce1]); (0x10ca2, [0x10ce2]); (0x10ca3, [0x10ce3]);
  (0x10ca4, [0x10ce4]); (0x10ca5, [0x10ce5]); (0x10ca6, [0x10ce6]); (0x10ca7, [0x10ce7]); (0x10ca8, [0x10ce8]);
  (0x10ca9, [0x10ce9]); (0x10caa, [0x10cea]); (0x10cab, [0x10ceb]); (0x10cac, [0x10cec]); (0x10cad, [0x10ced]);
  (0x10cae, [0x10cee]); (0x10caf, [0x10cef]); (0x10cb0, [0x10cf0]); (0x10cb1, [0x10cf1]); (0x10cb2, [0x10cf2]);
  (0x118a0, [0x118c0]); (0x118a1, [0x118c1]); (0x118a2, [0x118c2]); (0x118a3, [0x118c3]); (0x118a4, [0x118c4]);
  (0x118a5, [0x118c5]); (0x118a6, [0x118c6]); (0x118a7, [0x118c7]); (0x118a8, [0x118c8]); (0x118a9, [0x118c9]);
  (0x118aa, [0x118ca]); (0x118ab, [0x118cb]); (0x118ac, [0x118cc]); (0x118ad, [0x118cd]); (0x118ae, [0x118ce]);
  (0x118af, [0x118cf]); (0x118b0, [0x118d0]); (0x118b1, [0x118d1]); (0x118b2, [0x118d2]); (0x118b3, [0x118d3]);
  (0x118b4, [0x118d4]); (0x118b5, [0x118d5]); (0x118b6, [0x118d6]); (0x118b7, [0x118d7]); (0x118b8, [0x118d8]);
  (0x118b9, [0x118d9]); (0x118ba, [0x118da]); (0x118bb, [0x118db]); (0x118bc, [0x118dc]); (0x118bd, [0x118dd]);
  (0x118be, [0x118de]); (0x118bf, [0x118df]); (0x16e40, [0x16e60]); (0x16e41, [0x16e61]); (0x16e42, [0x16e62]);
  (0x16e43, [0x16e63]); (0x16e44, [0x16e64]); (0x16e45, [0x16e65]); (0x16e46, [0x16e66]); (0x16e47, [0x16e67]);
  (0x16e48, [0x16e68]); (0x16e49, [0x16e69]); (0x16e4a, [0x16e6a]); (0x16e4b, [0x16e6b]); (0x16e4c, [0x16e6c]);
  (0x16e4d, [0x16e6d]); (0x16e4e, [0x16e6e]); (0x16e4f, [0x16e6f]); (0x16e50, [0x16e70]); (0x16e51, [0x16e71]);
  (0x16e52, [0x16e72]); (0x16e53, [0x16e73]); (0x16e54, [0x16e74]); (0x16e55, [0x16e75]); (0x16e56, [0x16e76]);
  (0x16e57, [0x16e77]); (0x16e58, [0x16e78]); (0x16e59, [0x16e79]); (0x16e5a, [0x16e7a]); (0x16e5b, [0x16e7b]);
  (0x16e5c, [0x16e7c]); (0x16e5d, [0x16e7d]); (0x16e5e, [0x16e7e]); (0x16e5f, [0x16e7f]); (0x1e900, [0x1e922]);
  (0x1e901, [0x1e923]); (0x1e902, [0x1e924]); (0x1e903, [0x1e925]); (0x1e904, [0x1e926]); (0x1e905, [0x1e927]);
  (0x1e906, [0x1e928]); (0x1e907, [0x1e929]); (0x1e908, [0x1e92a]); (0x1e909, [0x1e92b]); (0x1e90a, [0x1e92c]);
  (0x1e90b, [0x1e92d]); (0x1e90c, [0x1e92e]); (0x1e90d, [0x1e92f]); (0x1e90e, [0x1e930]); (0x1e90f, [0x1e931]);
  (0x1e910, [0x1e932]); (0x1e911, [0x1e933]); (0x1e912, [0x1e934]); (0x1e913, [0x1e935]); (0x1e914, [0x1e936]);
  (0x1e915, [0x1e937]); (0x1e916, [0x1e938]); (0x1e917, [0x1e939]); (0x1e918, [0x1e93a]); (0x1e919, [0x1e93b]);
  (0x1e91a, [0x1e93c]); (0x1e91b, [0x1e93d]); (0x1e91c, [0x1e93e]); (0x1e91d, [0x1e93f]); (0x1e91e, [0x1e940]);
  (0x1e91f, [0x1e941]); (0x1e920, [0x1e942]); (0x1e921, [0x1e943])
]%N.

(* Cased *)
Definition cased_ranges : list (N * N) := [
  (0x41, 0x5a); (0x61, 0x7a); (0xaa, 0xaa); (0xb5, 0xb5); (0xba, 0xba);
  (0xc0, 0xd6); (0xd8, 0xf6); (0xf8, 0x1ba); (0x1bc, 0x1bf); (0x1c4, 0x293);
  (0x295, 0x2b8); (0x2c0, 0x2c1); (0x2e0, 0x2e4); (0x345, 0x345); (0x370, 0x373);
  (0x376, 0x377); (0x37a, 0x37d); (0x37f, 0x37f); (0x386, 0x386); (0x388, 0x38a);
  (0x38c, 0x38c); (0x38e, 0x3a1); (0x3a3, 0x3f5); (0x3f7, 0x481); (0x48a, 0x52f);
  (0x531, 0x556); (0x560, 0x588); (0x10a0, 0x10c5); (0x10c7, 0x10c7); (0x10cd, 0x10cd);
  (0x10d0, 0x10fa); (0x10fd, 0x10ff); (0x13a0, 0x13f5); (0x13f8, 0x13fd); (0x1c80, 0x1c88);
  (0x1c90, 0x1cba); (0x1cbd, 0x1cbf); (0x1d00, 0x1dbf); (0x1e00, 0x1f15); (0x1f18, 0x1f1d);
  (0x1f20, 0x1f45); (0x1f48, 0x1f4d); (0x1f50, 0x1f57); (0x1f59, 0x1f59); (0x1f5b, 0x1f5b);
  (0x1f5d, 0x1f5d); (0x1f5f, 0x1f7d); (0x1f80, 0x1fb4); (0x1fb6, 0x1fbc); (0x1fbe, 0x1fbe);
  (0x1fc2, 0x1fc4); (0x1fc6, 0x1fcc); (0x1fd0, 0x1fd3); (0x1fd6, 0x1fdb); (0x1fe0, 0x1fec);
  (0x1ff2, 0x1ff4); (0x1ff6, 0x1ffc); (0x2071, 0x2071); (0x207f, 0x207f); (0x2090, 0x209c);
  (0x2102, 0x2102); (0x2107, 0x2107); (0x210a, 0x2113); (0x2115, 0x2115); (0x2119, 0x211d);
  (0x2124, 0x2124); (0x2126, 0x2126); (0x2128, 0x2128); (0x212a, 0x212d); (0x212f, 0x2134);
  (0x2139, 0x2139); (0x213c, 0x213f); (0x2145, 0x2149); (0x214e, 0x214e); (0x2160, 0x217f);
  (0x2183, 0x2184); (0x24b6, 0x24e9); (0x2c00, 0x2ce4); (0x2ceb, 0x2cee); (0x2cf2, 0x2cf3);
  (0x2d00, 0x2d25); (0x2d27, 0x2d27); (0x2d2d, 0x2d2d); (0xa640, 0xa66d); (0xa680, 0xa69d);
  (0xa722, 0xa787); (0xa78b, 0xa78e); (0xa790, 0xa7ca); (0xa7d0, 0xa7d1); (0xa7d3, 0xa7d3);
  (0xa7d5, 0xa7d9); (0xa7f5, 0xa7f6); (0xa7f8, 0xa7fa); (0xab30, 0xab5a); (0xab5c, 0xab68);
  (0xab70, 0xabbf); (0xfb00, 0xfb06); (0xfb13, 0xfb17); (0xff21, 0xff3a); (0xff41, 0xff5a);
  (0x10400, 0x1044f); (0x104b0, 0x104d3); (0x104d8, 0x104fb); (0x10570, 0x1057a); (0x1057c, 0x1058a);
  (0x1058c, 0x10592); (0x10594, 0x10595); (0x10597, 0x105a1); (0x105a3, 0x105b1); (0x105b3, 0x105b9);
  (0x105bb, 0x105bc); (0x10780, 0x10780); (0x10783, 0x10785); (0x10787, 0x107b0); (0x107b2, 0x107ba);
  (0x10c80, 0x10cb2); (0x10cc0, 0x10cf2); (0x118a0, 0x118df); (0x16e40, 0x16e7f); (0x1d400, 0x1d454);
  (0x1d456, 0x1d49c); (0x1d49e, 0x1d49f); (0x1d4a2, 0x1d4a2); (0x1d4a5, 0x1d4a6); (0x1d4a9, 0x1d4ac);
  (0x1d4ae, 0x1d4b9); (0x1d4bb, 0x1d4bb); (0x1d4bd, 0x1d4c3); (0x1d4c5, 0x1d505); (0x1d507, 0x1d50a);
  (0x1d50d, 0x1d514); (0x1d516, 0x1d51c); (0x1d51e, 0x1d539); (0x1d53b, 0x1d53e); (0x1d540, 0x1d544);
  (0x1d546, 0x1d546); (0x1d54a, 0x1d550); (0x1d552, 0x1d6a5); (0x1d6a8, 0x1d6c0); (0x1d6c2, 0x1d6da);
  (0x1d6dc, 0x1d6fa); (0x1d6fc, 0x1d714); (0x1d716, 0x1d734); (0x1d736, 0x1d74e); (0x1d750, 0x1d76e);
  (0x1d770, 0x1d788); (0x1d78a, 0x1d7a8); (0x1d7aa, 0x1d7c2); (0x1d7c4, 0x1d7cb); (0x1df00, 0x1df09);
  (0x1df0b, 0x1df1e); (0x1e900, 0x1e943); (0x1f130, 0x1f149); (0x1f150, 0x1f169); (0x1f170, 0x1f189)
]%N.

(* Case_Ignorable *)
Definition case_ignorable_ranges : list (N * N) := [
  (0x27, 0x27); (0x2e, 0x2e); (0x3a, 0x3a); (0x5e, 0x5e); (0x60, 0x60);
  (0xa8, 0xa8); (0xad, 0xad); (0xaf, 0xaf); (0xb4, 0xb4); (0xb7, 0xb8);
  (0x2b0, 0x36f); (0x374, 0x375); (0x37a, 0x37a); (0x384, 0x385); (0x387, 0x387);
  (0x483, 0x489); (0x559, 0x559); (0x55f, 0x55f); (0x591, 0x5bd); (0x5bf, 0x5bf);
  (0x5c1, 0x5c2); (0x5c4, 0x5c5); (0x5c7, 0x5c7); (0x5f4, 0x5f4); (0x600, 0x605);
  (0x610, 0x61a); (0x61c, 0x61c); (0x640, 0x640); (0x64b, 0x65f); (0x670, 0x670);
  (0x6d6, 0x6dd); (0x6df, 0x6e8); (0x6ea, 0x6ed); (0x70f, 0x70f); (0x711, 0x711);
  (0x730, 0x74a); (0x7a6, 0x7b0); (0x7eb, 0x7f5); (0x7fa, 0x7fa); (0x7fd, 0x7fd);
  (0x816, 0x82d); (0x859, 0x85b); (0x888, 0x888); (0x890, 0x891); (0x898, 0x89f);
  (0x8c9, 0x902); (0x93a, 0x93a); (0x93c, 0x93c); (0x941, 0x948); (0x94d, 0x94d);
  (0x951, 0x957); (0x962, 0x963); (0x971, 0x971); (0x981, 0x981); (0x9bc, 0x9bc);
  (0x9c1, 0x9c4); (0x9cd, 0x9cd); (0x9e2, 0x9e3); (0x9fe, 0x9fe); (0xa01, 0xa02);
  (0xa3c, 0xa3c); (0xa41, 0xa42); (0xa47, 0xa48); (0xa4b, 0xa4d); (0xa51, 0xa51);
  (0xa70, 0xa71); (0xa75, 0xa75); (0xa81, 0xa82); (0xabc, 0xabc); (0xac1, 0xac5);
  (0xac7, 0xac8); (0xacd, 0xacd); (0xae2, 0xae3); (0xafa, 0xaff); (0xb01, 0xb01);
  (0xb3c, 0xb3c); (0xb3f, 0xb3f); (0xb41, 0xb44); (0xb4d, 0xb4d); (0xb55, 0xb56);
  (0xb62, 0xb63); (0xb82, 0xb82); (0xbc0, 0xbc0); (0xbcd, 0xbcd); (0xc00, 0xc00);
  (0xc04, 0xc04); (0xc3c, 0xc3c); (0xc3e, 0xc40); (0xc46, 0xc48); (0xc4a, 0xc4d);
  (0xc55, 0xc56); (0xc62, 0xc63); (0xc81, 0xc81); (0xcbc, 0xcbc); (0xcbf, 0xcbf);
  (0xcc6, 0xcc6); (0xccc, 0xccd); (0xce2, 0xce3); (0xd00, 0xd01); (0xd3b, 0xd3c);
  (0xd41, 0xd44); (0xd4d, 0xd4d); (0xd62, 0xd63); (0xd81, 0xd81); (0xdca, 0xdca);
  (0xdd2, 0xdd4); (0xdd6, 0xdd6); (0xe31, 0xe31); (0xe34, 0xe3a); (0xe46, 0xe4e);
  (0xeb1, 0xeb1); (0xeb4, 0xebc); (0xec6, 0xec6); (0xec8, 0xecd); (0xf18, 0xf19);
  (0xf35, 0xf35); (0xf37, 0xf37); (0xf39, 0xf39); (0xf71, 0xf7e); (0xf80, 0xf84);
  (0xf86, 0xf87); (0xf8d, 0xf97); (0xf99, 0xfbc); (0xfc6, 0xfc6); (0x102d, 0x1030);
  (0x1032, 0x1037); (0x1039, 0x103a); (0x103d, 0x103e); (0x1058, 0x1059); (0x105e, 0x1060);
  (0x1071, 0x1074); (0x1082, 0x1082); (0x1085, 0x1086); (0x108d, 0x108d); (0x109d, 0x109d);
  (0x10fc, 0x10fc); (0x135d, 0x135f); (0x1712, 0x1714); (0x1732, 0x1733); (0x1752, 0x1753);
  (0x1772, 0x1773); (0x17b4, 0x17b5); (0x17b7, 0x17bd); (0x17c6, 0x17c6); (0x17c9, 0x17d3);
  (0x17d7, 0x17d7); (0x17dd, 0x17dd); (0x180b, 0x180f); (0x1843, 0x1843); (0x1885, 0x1886);
  (0x18a9, 0x18a9); (0x1920, 0x1922); (0x1927, 0x1928); (0x1932, 0x1932); (0x1939, 0x193b);
  (0x1a17, 0x1a18); (0x1a1b, 0x1a1b); (0x1a56, 0x1a56); (0x1a58, 0x1a5e); (0x1a60, 0x1a60);
  (0x1a62, 0x1a62); (0x1a65, 0x1a6c); (0x1a73, 0x1a7c); (0x1a7f, 0x1a7f); (0x1aa7, 0x1aa7);
  (0x1ab0, 0x1ace); (0x1b00, 0x1b03); (0x1b34, 0x1b34); (0x1b36, 0x1b3a); (0x1b3c, 0x1b3c);
  (0x1b42, 0x1b42); (0x1b6b, 0x1b73); (0x1b80, 0x1b81); (0x1ba2, 0x1ba5); (0x1ba8, 0x1ba9);
  (0x1bab, 0x1bad); (0x1be6, 0x1be6); (0x1be8, 0x1be9); (0x1bed, 0x1bed); (0x1bef, 0x1bf1);
  (0x1c2c, 0x1c33); (0x1c36, 0x1c37); (0x1c78, 0x1c7d); (0x1cd0, 0x1cd2); (0x1cd4, 0x1ce0);
  (0x1ce2, 0x1ce8); (0x1ced, 0x1ced); (0x1cf4, 0x1cf4); (0x1cf8, 0x1cf9); (0x1d2c, 0x1d6a);
  (0x1d78, 0x1d78); (0x1d9b, 0x1dff); (0x1fbd, 0x1fbd); (0x1fbf, 0x1fc1); (0x1fcd, 0x1fcf);
  (0x1fdd, 0x1fdf); (0x1fed, 0x1fef); (0x1ffd, 0x1ffe); (0x200b, 0x200f); (0x2018, 0x2019);
  (0x2024, 0x2024); (0x2027, 0x2027); (0x202a, 0x202e); (0x2060, 0x2064); (0x2066, 0x206f);
  (0x2071, 0x2071); (0x207f, 0x207f); (0x2090, 0x209c); (0x20d0, 0x20f0); (0x2c7c, 0x2c7d);
  (0x2cef, 0x2cf1); (0x2d6f, 0x2d6f); (0x2d7f, 0x2d7f); (0x2de0, 0x2dff); (0x2e2f, 0x2e2f);
  (0x3005, 0x3005); (0x302a, 0x302d); (0x3031, 0x3035); (0x303b, 0x303b); (0x3099, 0x309e);
  (0x30fc, 0x30fe); (0xa015, 0xa015); (0xa4f8, 0xa4fd); (0xa60c, 0xa60c); (0xa66f, 0xa672);
  (0xa674, 0xa67d); (0xa67f, 0xa67f); (0xa69c, 0xa69f); (0xa6f0, 0xa6f1); (0xa700, 0xa721);
  (0xa770, 0xa770); (0xa788, 0xa78a); (0xa7f2, 0xa7f4); (0xa7f8, 0xa7f9); (0xa802, 0xa802);
  (0xa806, 0xa806); (0xa80b, 0xa80b); (0xa825, 0xa826); (0xa82c, 0xa82c); (0xa8c4, 0xa8c5);
  (0xa8e0, 0xa8f1); (0xa8ff, 0xa8ff); (0xa926, 0xa92d); (0xa947, 0xa951); (0xa980, 0xa982);
  (0xa9b3, 0xa9b3); (0xa9b6, 0xa9b9); (0xa9bc, 0xa9bd); (0xa9cf, 0xa9cf); (0xa9e5, 0xa9e6);
  (0xaa29, 0xaa2e); (0xaa31, 0xaa32); (0xaa35, 0xaa36); (0xaa43, 0xaa43); (0xaa4c, 0xaa4c);
  (0xaa70, 0xaa70); (0xaa7c, 0xaa7c); (0xaab0, 0xaab0); (0xaab2, 0xaab4); (0xaab7, 0xaab8);
  (0xaabe, 0xaabf); (0xaac1, 0xaac1); (0xaadd, 0xaadd); (0xaaec, 0xaaed); (0xaaf3, 0xaaf4);
  (0xaaf6, 0xaaf6); (0xab5b, 0xab5f); (0xab69, 0xab6b); (0xabe5, 0xabe5); (0xabe8, 0xabe8);
  (0xabed, 0xabed); (0xfb1e, 0xfb1e); (0xfbb2, 0xfbc2); (0xfe00, 0xfe0f); (0xfe13, 0xfe13);
  (0xfe20, 0xfe2f); (0xfe52, 0xfe52); (0xfe55, 0xfe55); (0xfeff, 0xfeff); (0xff07, 0xff07);
  (0xff0e, 0xff0e); (0xff1a, 0xff1a); (0xff3e, 0xff3e); (0xff40, 0xff40); (0xff70, 0xff70);
  (0xff9e, 0xff9f); (0xffe3, 0xffe3); (0xfff9, 0xfffb); (0x101fd, 0x101fd); (0x102e0, 0x102e0);
  (0x10376, 0x1037a); (0x10780, 0x10785); (0x10787, 0x107b0); (0x107b2, 0x107ba); (0x10a01, 0x10a03);
  (0x10a05, 0x10a06); (0x10a0c, 0x10a0f); (0x10a38, 0x10a3a); (0x10a3f, 0x10a3f); (0x10ae5, 0x10ae6);
  (0x10d24, 0x10d27); (0x10eab, 0x10eac); (0x10f46, 0x10f50); (0x10f82, 0x10f85); (0x11001, 0x11001);
  (0x11038, 0x11046); (0x11070, 0x11070); (0x11073, 0x11074); (0x1107f, 0x11081); (0x110b3, 0x110b6);
  (0x110b9, 0x110ba); (0x110bd, 0x110bd); (0x110c2, 0x110c2); (0x110cd, 0x110cd); (0x11100, 0x11102);
  (0x11127, 0x1112b); (0x1112d, 0x11134); (0x11173, 0x11173); (0x11180, 0x11181); (0x111b6, 0x111be);
  (0x111c9, 0x111cc); (0x111cf, 0x111cf); (0x1122f, 0x11231); (0x11234, 0x11234); (0x11236, 0x11237);
  (0x1123e, 0x1123e); (0x112df, 0x112df); (0x112e3, 0x112ea); (0x11300, 0x11301); (0x1133b, 0x1133c);
  (0x11340, 0x11340); (0x11366, 0x1136c); (0x11370, 0x11374); (0x11438, 0x1143f); (0x11442, 0x11444);
  (0x11446, 0x11446); (0x1145e, 0x1145e); (0x114b3, 0x114b8); (0x114ba, 0x114ba); (0x114bf, 0x114c0);
  (0x114c2, 0x114c3); (0x115b2, 0x115b5); (0x115bc, 0x115bd); (0x115bf, 0x115c0); (0x115dc, 0x115dd);
  (0x11633, 0x1163a); (0x1163d, 0x1163d); (0x1163f, 0x11640); (0x116ab, 0x116ab); (0x116ad, 0x116ad);
  (0x116b0, 0x116b5); (0x116b7, 0x116b7); (0x1171d, 0x1171f); (0x11722, 0x11725); (0x11727, 0x1172b);
  (0x1182f, 0x11837); (0x11839, 0x1183a); (0x1193b, 0x1193c); (0x1193e, 0x1193e); (0x11943, 0x11943);
  (0x119d4, 0x119d7); (0x119da, 0x119db); (0x119e0, 0x119e0); (0x11a01, 0x11a0a); (0x11a33, 0x11a38);
  (0x11a3b, 0x11a3e); (0x11a47, 0x11a47); (0x11a51, 0x11a56); (0x11a59, 0x11a5b); (0x11a8a, 0x11a96);
  (0x11a98, 0x11a99); (0x11c30, 0x11c36); (0x11c38, 0x11c3d); (0x11c3f, 0x11c3f); (0x11c92, 0x11ca7);
  (0x11caa, 0x11cb0); (0x11cb2, 0x11cb3); (0x11cb5, 0x11cb6); (0x11d31, 0x11d36); (0x11d3a, 0x11d3a);
  (0x11d3c, 0x11d3d); (0x11d3f, 0x11d45); (0x11d47, 0x11d47); (0x11d90, 0x11d91); (0x11d95, 0x11d95);
  (0x11d97, 0x11d97); (0x11ef3, 0x11ef4); (0x13430, 0x13438); (0x16af0, 0x16af4); (0x16b30, 0x16b36);
  (0x16b40, 0x16b43); (0x16f4f, 0x16f4f); (0x16f8f, 0x16f9f); (0x16fe0, 0x16fe1); (0x16fe3, 0x16fe4);
  (0x1aff0, 0x1aff3); (0x1aff5, 0x1affb); (0x1affd, 0x1affe); (0x1bc9d, 0x1bc9e); (0x1bca0, 0x1bca3);
  (0x1cf00, 0x1cf2d); (0x1cf30, 0x1cf46); (0x1d167, 0x1d169); (0x1d173, 0x1d182); (0x1d185, 0x1d18b);
  (0x1d1aa, 0x1d1ad); (0x1d242, 0x1d244); (0x1da00, 0x1da36); (0x1da3b, 0x1da6c); (0x1da75, 0x1da75);
  (0x1da84, 0x1da84); (0x1da9b, 0x1da9f); (0x1daa1, 0x1daaf); (0x1e000, 0x1e006); (0x1e008, 0x1e018);
  (0x1e01b, 0x1e021); (0x1e023, 0x1e024); (0x1e026, 0x1e02a); (0x1e130, 0x1e13d); (0x1e2ae, 0x1e2ae);
  (0x1e2ec, 0x1e2ef); (0x1e8d0, 0x1e8d6); (0x1e944, 0x1e94b); (0x1f3fb, 0x1f3ff); (0xe0001, 0xe0001);
  (0xe0020, 0xe007f); (0xe0100, 0xe01ef)
]%N.

Fixpoint lower_lookup (c : N) (t : list (N * list N)) : option (list N) :=
  match t with
  | [] => None
  | (k, o) :: t' => if (k =? c)%N then Some o else lower_lookup c t'
  end.

Definition lower_cp (c : N) : list N :=
  match lower_lookup c lower_table with Some o => o | None => [c] end.

Definition in_ranges (c : N) (r : list (N * N)) : bool :=
  existsb (fun '(lo, hi) => (lo <=? c) && (c <=? hi))%N r.

Definition cased (c : N) : bool := in_ranges c cased_ranges.
Definition case_ignorable (c : N) : bool := in_ranges c case_ignorable_ranges.

Definition is_high (u : N) : bool := (0xD800 <=? u)%N && (u <=? 0xDBFF)%N.
Definition is_low (u : N) : bool := (0xDC00 <=? u)%N && (u <=? 0xDFFF)%N.

(* StringToCodePoints: a high surrogate followed by a low surrogate is one
   code point, any other unit (a lone surrogate included) is its own *)
Fixpoint code_points (s : jsstr) : list N :=
  match s with
  | [] => []
  | h :: s' =>
      if is_high h then
        match s' with
        | l :: s'' =>
            if is_low l then (0x10000 + (h - 0xD800) * 0x400 + (l - 0xDC00))%N :: code_points s''
            else h :: code_points s'
        | [] => [h]
        end
      else h :: code_points s'
  end.

(* UTF16EncodeCodePoint; a value above U+10FFFF is no code point and is
   kept as it is *)
Definition utf16_of_cp (c : N) : jsstr :=
  if (c <? 0x10000)%N then [c]
  else if (c <=? 0x10FFFF)%N then
    [(0xD800 + (c - 0x10000) / 0x400)%N; (0xDC00 + (c - 0x10000) mod 0x400)%N]
  else [c].

(* Final_Sigma (Unicode 3.13, Table 3-17): U+03A3 becomes U+03C2 when the
   nearest code point before it that is not Case_Ignorable is Cased, and the
   nearest one after it that is not Case_Ignorable is not Cased (or there
   is none); otherwise it becomes U+03C3 *)
Fixpoint followed_by_cased (l : list N) : bool :=
  match l with
  | [] => false
  | c :: l' => if case_ignorable c then followed_by_cased l' else cased c
  end.

(* the lowercase mapping of a code point list; [prev] says whether the
   nearest preceding code point that is not Case_Ignorable is Cased *)
Fixpoint lower_cps (prev : bool) (l : list N) : list N :=
  match l with
  | [] => []
  | c :: l' =>
      (if (c =? 0x3A3)%N then
         (if prev && negb (followed_by_cased l') then [0x3C2%N] else [0x3C3%N])
       else lower_cp c)
      ++ lower_cps (if case_ignorable c then prev else cased c) l'
  end.

(* String.prototype.toLowerCase *)
Definition toLowerCase (s : jsstr) : jsstr :=
  flat_map utf16_of_cp (lower_cps false (code_points s)).
Arguments toLowerCase : simpl never.


(* units that toLowerCase never creates or removes: '@', '.' and white space *)
Definition special (c : N) : bool := (c =? AT)%N || (c =? DOT)%N || is_ws c.

(* a lowercase ASCII letter *)
Definition ascii_lower (c : N) : bool := (97 <=? c)%N && (c <=? 122)%N.

(* what the proofs use of one entry of [lower_table]: the source is not
   special, the UTF-16 output is non-empty and has no special unit, and an
   output with a lowercase ASCII letter comes from A-Z, U+0130 or U+212A *)
Definition lower_entry_ok (e : N * list N) : bool :=
  let '(c, o) := e in
  let u := flat_map utf16_of_cp o in
  negb (special c) && negb (bool_decide (u = [])) && forallb (fun x => negb (special x)) u &&
  (negb (existsb ascii_lower u) ||
   ((65 <=? c) && (c <=? 90))%N || (c =? 0x130)%N || (c =? 0x212A)%N).

(* [case_rel s t]: t is s with every special unit kept in place and every
   run of other units replaced by a non-empty run of other units *)
Inductive case_rel : jsstr -> jsstr -> Prop :=
  | case_rel_nil : case_rel [] []
  | case_rel_special c s t : special c = true -> case_rel s t -> case_rel (c :: s) (c :: t)
  | case_rel_other ch o s t : ch <> [] -> Forall (fun c => special c = false) ch ->
      o <> [] -> Forall (fun c => special c = false) o -> case_rel s t ->
      case_rel (ch ++ s) (o ++ t).

(* a unit that is no ASCII letter and none of U+0130, U+212A *)
Definition no_letter_src (c : N) : Prop :=
  ~ (65 <= c <= 90)%N /\ ~ (97 <= c <= 122)%N /\ c <> 0x130%N /\ c <> 0x212A%N.

Fixpoint startsWith (s p : jsstr) : bool :=
  match p, s with
  | [], _ => true
  | c :: p', d :: s' => (c =? d)%N && startsWith s' p'
  | _ :: _, [] => false
  end.

(* String.prototype.includes *)
Fixpoint includes (s p : jsstr) : bool :=
  startsWith s p ||
  match s with
  | [] => false
  | _ :: s' => includes s' p
  end.

Definition endsWith (s p : jsstr) : bool := startsWith (rev s) (rev p).

(* String.prototype.split with a one-unit separator *)
Fixpoint split_unit (sep : N) (s : jsstr) : list jsstr :=
  match s with
  | [] => [[]]
  | c :: s' =>
      if (c =? sep)%N then [] :: split_unit sep s'
      else match split_unit sep s' with
           | [] => [[c]]
           | w :: ws => (c :: w) :: ws
           end
  end.

(* decimal rendering of a non-negative number, as `${n}` does *)
Definition digits_of (n : N) : jsstr :=
  map (fun a => N_of_ascii a) (list_ascii_of_string (pretty n)).

(* ===================================================================== *)
(* types/auth.ts                                                          *)
(* ===================================================================== *)

Inductive AuthErrorType :=
  | OAUTH_FAILED | ACCESS_DENIED | NETWORK_ERROR | TOKEN_EXPIRED | CONFIG_ERROR.

Record AuthError := mkAuthError {
  type : AuthErrorType;
  message : jsstr;
  retryable : bool
}.

Record User := mkUser {
  id : jsstr;
  email : jsstr;
  name : jsstr;
  picture : option jsstr
}.

Record AuthState := mkAuthState {
  isAuthenticated : bool;
  user : option User;
  isLoading : bool;
  error : option AuthError     (* None: null or undefined *)
}.

Record GoogleOAuthConfig := mkConfig {
  googleClientId : jsstr;
  allowedEmails : list jsstr;
  version : jsstr
}.

Record AllowlistCheckResult := mkCheck {
  isAllowed : bool;
  checked_email : jsstr;
  reason : option jsstr
}.

(* A value raised by `throw` or a rejected promise. *)
Inductive Thrown :=
  | TAuthError (e : AuthError)          (* an object with type, message, retryable *)
  | TError (ename emsg : jsstr)         (* an Error instance: name, message *)
  | TString (s : jsstr)                 (* a raw string *)
  | TOtherObject.                       (* any other object, e.g. {success, error} *)

(* ===================================================================== *)
(* services/errorHandlingService.ts                                       *)
(* ===================================================================== *)

Definition isAuthError (t : Thrown) : bool :=
  match t with TAuthError _ => true | _ => false end.

Definition isNetworkError (t : Thrown) : bool :=
  match t with
  | TError n m =>
      let msg := toLowerCase m in
      includes msg (s2u "network") || includes msg (s2u "fetch") ||
      includes msg (s2u "timeout") || includes msg (s2u "connection") ||
      bool_decide (n = s2u "NetworkError") ||
      bool_decide (n = s2u "TimeoutError")
  | _ => false
  end.

(* 'ネットワークエラーが発生しました' *)
Definition msg_network_default : jsstr :=
  [0x30cd; 0x30c3; 0x30c8; 0x30ef; 0x30fc; 0x30af; 0x30a8; 0x30e9; 0x30fc;
   0x304c; 0x767a; 0x751f; 0x3057; 0x307e; 0x3057; 0x305f]%N.

(* '予期しないエラーが発生しました' *)
Definition msg_unexpected : jsstr :=
  [0x4e88; 0x671f; 0x3057; 0x306a; 0x3044; 0x30a8; 0x30e9; 0x30fc; 0x304c;
   0x767a; 0x751f; 0x3057; 0x307e; 0x3057; 0x305f]%N.

Definition createNetworkError (t : Thrown) : AuthError :=
  mkAuthError NETWORK_ERROR
    (match t with TError _ m => m | _ => msg_network_default end) true.

Definition createGenericError (m : jsstr) : AuthError :=
  let msg := toLowerCase m in
  if includes msg (s2u "token") && includes msg (s2u "expired") then
    mkAuthError TOKEN_EXPIRED m true
  else if includes msg (s2u "access") && includes msg (s2u "denied") then
    mkAuthError ACCESS_DENIED m false
  else if includes msg (s2u "config") || includes msg (s2u "client_id") then
    mkAuthError CONFIG_ERROR m false
  else mkAuthError OAUTH_FAILED m true.

Definition createUnknownError (t : Thrown) : AuthError :=
  mkAuthError OAUTH_FAILED
    (match t with TString s => s | _ => msg_unexpected end) true.

(* handleError; the logging side effect is left out *)
Definition handleError (t : Thrown) : AuthError :=
  match t with
  | TAuthError e => e
  | _ =>
      if isNetworkError t then createNetworkError t
      else match t with
           | TError _ m => createGenericError m
           | _ => createUnknownError t
           end
  end.

Inductive Severity := low | medium | high | critical.

Definition getErrorSeverity (e : AuthError) : Severity :=
  match type e with
  | CONFIG_ERROR => critical
  | ACCESS_DENIED => high
  | TOKEN_EXPIRED => medium
  | NETWORK_ERROR => medium
  | OAUTH_FAILED => low
  end.

Definition isRetryable (e : AuthError) : bool := retryable e.

(* '操作が失敗しました' *)
Definition msg_op_failed : jsstr :=
  [0x64cd; 0x4f5c; 0x304c; 0x5931; 0x6557; 0x3057; 0x307e; 0x3057; 0x305f]%N.

(* '操作がタイムアウトしました (' *)
Definition msg_timeout_prefix : jsstr :=
  [0x64cd; 0x4f5c; 0x304c; 0x30bf; 0x30a4; 0x30e0; 0x30a2; 0x30a6; 0x30c8;
   0x3057; 0x307e; 0x3057; 0x305f; 0x20; 0x28]%N.

(* createTimeoutPromise: the Error it rejects with *)
Definition timeoutError (timeoutMs : N) : Thrown :=
  TError (s2u "Error") (msg_timeout_prefix ++ digits_of timeoutMs ++ s2u "ms)").

(* How the promise returned by one call of `operation` settles relative to
   the timer of createTimeoutPromise. *)
Inductive Settle (A : Type) :=
  | Resolves (a : A)          (* fulfilled before the timer fires *)
  | Rejects (t : Thrown)      (* rejected before the timer fires *)
  | Outlasts.                 (* still pending when the timer fires *)
Arguments Resolves {A} a.
Arguments Rejects {A} t.
Arguments Outlasts {A}.

(* executeWithTimeout: Promise.race([operation(), createTimeoutPromise(ms)]) *)
Definition executeWithTimeout {A} (s : Settle A) (timeoutMs : N) : A + Thrown :=
  match s with
  | Resolves a => inl a
  | Rejects t => inr t
  | Outlasts => inr (timeoutError timeoutMs)
  end.

Record RetryConfig := mkRetryConfig {
  maxRetries : nat;
  delay : N;
  backoffMultiplier : N;
  maxDelay : N
}.

(* Partial<RetryConfig> *)
Record PartialRetryConfig := mkPartialRetryConfig {
  p_maxRetries : option nat;
  p_delay : option N;
  p_backoffMultiplier : option N;
  p_maxDelay : option N
}.

Record ErrorHandlingConfig := mkEHConfig {
  cfg_maxRetries : nat;
  retryDelay : N;
  networkTimeoutMs : N;
  enableLogging : bool
}.

(* constructor defaults: maxRetries 3, retryDelay 1000, networkTimeoutMs
   10000, logging on; the default retry config adds multiplier 2 and
   maxDelay 10000 *)
Definition defaultRetryConfig (c : ErrorHandlingConfig) : RetryConfig :=
  mkRetryConfig (cfg_maxRetries c) (retryDelay c) 2 10000.

(* { ...this.defaultRetryConfig, ...retryConfig } *)
Definition mergeRetryConfig (d : RetryConfig) (p : PartialRetryConfig) : RetryConfig :=
  mkRetryConfig
    (default (maxRetries d) (p_maxRetries p))
    (default (delay d) (p_delay p))
    (default (backoffMultiplier d) (p_backoffMultiplier p))
    (default (maxDelay d) (p_maxDelay p)).

Definition retries (n : nat) (d : N) : PartialRetryConfig :=
  mkPartialRetryConfig (Some n) (Some d) None None.

Record ErrorHandlingResult (A : Type) := mkEHResult {
  success : bool;
  data : option A;
  failure_error : option AuthError;
  retryCount : nat
}.
Arguments mkEHResult {A}.
Arguments success {A}.
Arguments data {A}.
Arguments failure_error {A}.
Arguments retryCount {A}.

(* Math.min(config.delay * Math.pow(config.backoffMultiplier, attempt), config.maxDelay) *)
Definition backoff_delay (c : RetryConfig) (attempt : nat) : N :=
  N.min (delay c * backoffMultiplier c ^ N.of_nat attempt) (maxDelay c).

(* A run of executeWithRetry: the result, how many times `operation` was
   called, and the sleeps taken between attempts. *)
Record RetryRun (A : Type) := mkRetryRun {
  run_result : ErrorHandlingResult A;
  calls : nat;
  sleeps : list N
}.
Arguments mkRetryRun {A}.
Arguments run_result {A}.
Arguments calls {A}.
Arguments sleeps {A}.

Section Retry.
Context {A : Type}.
(* op k: how the k-th call of `operation` settles *)
Variable op : nat -> Settle A.
Variable c : RetryConfig.
Variable timeoutMs : N.

(* the `for (let attempt = 0; attempt <= config.maxRetries; attempt++)`
   loop; `fuel` counts the iterations the loop bound still allows *)
Fixpoint retry_loop (fuel attempt : nat) (lastError : option AuthError)
    (rc : nat) (ncalls : nat) (sl : list N) : RetryRun A :=
  match fuel with
  | O =>
      mkRetryRun
        (mkEHResult false None
           (Some (default (createUnknownError (TString msg_op_failed)) lastError)) rc)
        ncalls sl
  | S fuel' =>
      match executeWithTimeout (op attempt) timeoutMs with
      | inl d => mkRetryRun (mkEHResult true (Some d) None attempt) (S ncalls) sl
      | inr t =>
          let e := handleError t in
          if negb (retryable e) || (attempt =? maxRetries c)%nat then
            mkRetryRun (mkEHResult false None (Some e) attempt) (S ncalls) sl
          else
            retry_loop fuel' (S attempt) (Some e) (S attempt) (S ncalls)
              (sl ++ [backoff_delay c attempt])
      end
  end.

Definition executeWithRetry_run : RetryRun A :=
  retry_loop (S (maxRetries c)) 0 None 0 0 [].
End Retry.

(* ErrorHandlingService.executeWithRetry(operation, retryConfig, context) *)
Definition executeWithRetry {A} (svc : ErrorHandlingConfig) (op : nat -> Settle A)
    (p : PartialRetryConfig) : RetryRun A :=
  executeWithRetry_run op (mergeRetryConfig (defaultRetryConfig svc) p)
    (networkTimeoutMs svc).

(* the module-level instance: `new ErrorHandlingService()` *)
Definition defaultService : ErrorHandlingConfig := mkEHConfig 3 1000 10000 true.

(* ===================================================================== *)
(* services/allowlistService.ts                                           *)
(* ===================================================================== *)

(* the value produced by response.json() *)
Set Warnings "-register-all".
Inductive Json :=
  | JNull
  | JBool (b : bool)
  | JNum (z : Z)
  | JStr (s : jsstr)
  | JArr (l : list Json)
  | JObj (fields : list (jsstr * Json)).

(* property read `o.k`; JSON.parse keeps the last of duplicate keys *)
Definition get_field (o : Json) (k : jsstr) : option Json :=
  match o with
  | JObj fs =>
      match List.find (fun kv => bool_decide (kv.1 = k)) (rev fs) with
      | Some kv => Some kv.2
      | None => None
      end
  | _ => None
  end.

(* JavaScript truthiness of a property value (None: undefined) *)
Definition truthy (v : option Json) : bool :=
  match v with
  | None | Some JNull => false
  | Some (JBool b) => b
  | Some (JNum z) => negb (z =? 0)%Z
  | Some (JStr s) => negb (bool_decide (s = []))
  | Some (JArr _) | Some (JObj _) => true
  end.

Definition Z_digits (z : Z) : jsstr :=
  if (z <? 0)%Z then s2u "-" ++ digits_of (Z.to_N (- z)) else digits_of (Z.to_N z).

(* String(v), as a template literal renders it *)
Fixpoint js_String (v : Json) : jsstr :=
  match v with
  | JNull => s2u "null"
  | JBool true => s2u "true"
  | JBool false => s2u "false"
  | JNum z => Z_digits z
  | JStr s => s
  | JArr l =>
      (fix join (l : list Json) : jsstr :=
         match l with
         | [] => []
         | [x] => match x with JNull => [] | _ => js_String x end
         | x :: l' => (match x with JNull => [] | _ => js_String x end)
                        ++ s2u "," ++ join l'
         end) l
  | JObj _ => s2u "[object Object]"
  end.

(* /^[^\s@]+@[^\s@]+\.[^\s@]+$/.test(email): the input splits at '@' into
   exactly two pieces (neither piece can then hold an '@'), the first one
   non-empty, no white space on either side, and a '.' in the second
   piece with at least one unit before and after it. *)
Definition not_ws (c : N) : bool := negb (is_ws c).

Definition inner_dot (d : jsstr) : bool :=
  match d with
  | [] => false
  | _ :: r => existsb (N.eqb DOT) (removelast r)
  end.

Definition emailRegex_test (e : jsstr) : bool :=
  match split_unit AT e with
  | [l; d] => negb (bool_decide (l = [])) && forallb not_ws l &&
              forallb not_ws d && inner_dot d
  | _ => false
  end.

Definition isValidEmail (e : jsstr) : bool :=
  if negb (emailRegex_test e) then false
  else if includes e (s2u "..") then false
  else
    let domain := nth 1 (split_unit AT e) [] in
    if startsWith domain (s2u ".") || endsWith domain (s2u ".") then false
    else true.

(* messages of the Errors raised by validateConfig *)
Definition msg_bad_format : jsstr :=
  [0x8a2d; 0x5b9a; 0x30d5; 0x30a1; 0x30a4; 0x30eb; 0x306e; 0x5f62; 0x5f0f;
   0x304c; 0x7121; 0x52b9; 0x3067; 0x3059]%N.
Definition msg_bad_field_suffix : jsstr :=   (* ' が設定されていないか、無効な形式です' *)
  [0x20; 0x304c; 0x8a2d; 0x5b9a; 0x3055; 0x308c; 0x3066; 0x3044; 0x306a;
   0x3044; 0x304b; 0x3001; 0x7121; 0x52b9; 0x306a; 0x5f62; 0x5f0f; 0x3067;
   0x3059]%N.
Definition msg_bad_client_id : jsstr := s2u "googleClientId" ++ msg_bad_field_suffix.
Definition msg_not_array : jsstr :=
  s2u "allowedEmails" ++
  [0x20; 0x304c; 0x914d; 0x5217; 0x3067; 0x306f; 0x3042; 0x308a; 0x307e;
   0x305b; 0x3093]%N.
Definition msg_bad_version : jsstr := s2u "version" ++ msg_bad_field_suffix.
Definition msg_bad_email_prefix : jsstr :=   (* '無効なメールアドレスが含まれています: ' *)
  [0x7121; 0x52b9; 0x306a; 0x30e1; 0x30fc; 0x30eb; 0x30a2; 0x30c9; 0x30ec;
   0x30b9; 0x304c; 0x542b; 0x307e; 0x308c; 0x3066; 0x3044; 0x307e; 0x3059;
   0x3a; 0x20]%N.
Definition msg_load_failed_prefix : jsstr := (* '設定ファイルの読み込みに失敗しました: ' *)
  [0x8a2d; 0x5b9a; 0x30d5; 0x30a1; 0x30a4; 0x30eb; 0x306e; 0x8aad; 0x307f;
   0x8fbc; 0x307f; 0x306b; 0x5931; 0x6557; 0x3057; 0x307e; 0x3057; 0x305f;
   0x3a; 0x20]%N.

Definition is_object (v : Json) : bool :=
  match v with JObj _ | JArr _ => true | _ => false end.

Fixpoint check_emails (l : list Json) : option jsstr :=
  match l with
  | [] => None
  | JStr s :: l' => if isValidEmail s then check_emails l' else Some (msg_bad_email_prefix ++ s)
  | v :: _ => Some (msg_bad_email_prefix ++ js_String v)
  end.

Fixpoint json_strings (l : list Json) : list jsstr :=
  match l with
  | [] => []
  | JStr s :: l' => s :: json_strings l'
  | _ :: l' => json_strings l'
  end.

(* validateConfig: Error(message) on the first failed check; on success the
   fields the service reads from the stored config *)
Definition validateConfig (config : Json) : jsstr + GoogleOAuthConfig :=
  if negb (truthy (Some config)) || negb (is_object config) then inl msg_bad_format
  else match get_field config (s2u "googleClientId") with
  | Some (JStr cid) as v =>
      if negb (truthy v) then inl msg_bad_client_id else
      match get_field config (s2u "allowedEmails") with
      | Some (JArr l) =>
          match get_field config (s2u "version") with
          | Some (JStr ver) as w =>
              if negb (truthy w) then inl msg_bad_version else
              match check_emails l with
              | Some m => inl m
              | None => inr (mkConfig cid (json_strings l) ver)
              end
          | _ => inl msg_bad_version
          end
      | _ => inl msg_not_array
      end
  | _ => inl msg_bad_client_id
  end.

(* what `fetch(this.configUrl)` produces *)
Inductive FetchOutcome :=
  | FetchRejected (msg : jsstr)                      (* TypeError from fetch *)
  | FetchResponse (ok : bool) (status : N) (statusText : jsstr)
                  (body : jsstr + Json).             (* inl: JSON parse error message *)

Definition configError (m : jsstr) : AuthError := mkAuthError CONFIG_ERROR m true.

(* loadConfig; every failure is caught and rethrown as a ConfigError *)
Definition loadConfig (f : FetchOutcome) : AuthError + GoogleOAuthConfig :=
  match f with
  | FetchRejected m => inl (configError m)
  | FetchResponse false status statusText _ =>
      inl (configError (msg_load_failed_prefix ++ digits_of status ++ s2u " " ++ statusText))
  | FetchResponse true _ _ (inl parseMsg) => inl (configError parseMsg)
  | FetchResponse true _ _ (inr doc) =>
      match validateConfig doc with
      | inl m => inl (configError m)
      | inr c => inr c
      end
  end.

Definition msg_not_loaded : jsstr :=
  [0x8a2d; 0x5b9a; 0x30d5; 0x30a1; 0x30a4; 0x30eb; 0x304c; 0x8aad; 0x307f;
   0x8fbc; 0x307e; 0x308c; 0x3066; 0x3044; 0x307e; 0x305b; 0x3093]%N.
Definition msg_invalid_email : jsstr :=
  [0x30e1; 0x30fc; 0x30eb; 0x30a2; 0x30c9; 0x30ec; 0x30b9; 0x306e; 0x5f62;
   0x5f0f; 0x304c; 0x7121; 0x52b9; 0x3067; 0x3059]%N.
Definition msg_not_listed : jsstr :=
  [0x3053; 0x306e; 0x30e1; 0x30fc; 0x30eb; 0x30a2; 0x30c9; 0x30ec; 0x30b9;
   0x306f; 0x8a31; 0x53ef; 0x30ea; 0x30b9; 0x30c8; 0x306b; 0x542b; 0x307e;
   0x308c; 0x3066; 0x3044; 0x307e; 0x305b; 0x3093]%N.

(* the membership decision on a loaded config *)
Definition check_loaded (c : GoogleOAuthConfig) (e : jsstr) : AllowlistCheckResult :=
  if negb (isValidEmail e) then mkCheck false e (Some msg_invalid_email)
  else
    let normalizedEmail := toLowerCase e in
    let allowed := existsb (fun a => bool_decide (toLowerCase a = normalizedEmail))
                     (allowedEmails c) in
    mkCheck allowed e (if allowed then None else Some msg_not_listed).

(* checkEmailAllowed: the service's cached config is threaded through; the
   fetch outcome is used when the config still has to be loaded *)
Definition checkEmailAllowed (f : FetchOutcome) (st : option GoogleOAuthConfig)
    (e : jsstr) : (AuthError + AllowlistCheckResult) * option GoogleOAuthConfig :=
  match st with
  | Some c => (inr (check_loaded c e), Some c)
  | None =>
      match loadConfig f with
      | inl err => (inl err, None)
      | inr c => (inr (check_loaded c e), Some c)
      end
  end.

(* AllowlistService.getAllowedEmails: `config?.allowedEmails || []`, after
   loading the config when none is cached; a failed load rejects *)
Definition getAllowedEmails (f : FetchOutcome) (st : option GoogleOAuthConfig)
    : (AuthError + list jsstr) * option GoogleOAuthConfig :=
  match st with
  | Some c => (inr (allowedEmails c), Some c)
  | None =>
      match loadConfig f with
      | inl err => (inl err, None)
      | inr c => (inr (allowedEmails c), Some c)
      end
  end.

(* AllowlistService.reloadConfig: the cache is set to null, then loadConfig
   runs; it only stores the config it validated *)
Definition reloadConfig (f : FetchOutcome) (st : option GoogleOAuthConfig)
    : (AuthError + GoogleOAuthConfig) * option GoogleOAuthConfig :=
  match loadConfig f with
  | inl err => (inl err, None)
  | inr c => (inr c, Some c)
  end.

(* ===================================================================== *)
(* services/googleAuthService.ts                                          *)
(* ===================================================================== *)

Record GoogleJWTPayload := mkPayload {
  iss : jsstr; sub : jsstr; aud : jsstr; exp : Z; iat : Z;
  p_email : jsstr; email_verified : bool; p_name : jsstr; p_picture : option jsstr
}.

Inductive LoginResult :=
  | LoginOk (u : User)            (* { success: true, user } *)
  | LoginFailed (e : AuthError).  (* { success: false, error } *)

(* localStorage *)
Abbreviation Storage := (gmap string jsstr).

Definition ACCESS_TOKEN : string := "google_access_token".
Definition ID_TOKEN : string := "google_id_token".
Definition REFRESH_TOKEN : string := "google_refresh_token".
Definition EXPIRY_TIME : string := "google_token_expiry".
Definition USER_INFO : string := "google_user_info".

Record GoogleTokenInfo := mkTokens {
  access_token : jsstr;
  id_token : jsstr;
  expires_in : N;
  refresh_token : option jsstr;
  scope : jsstr;
  token_type : jsstr
}.

Definition js_truthy_str (o : option jsstr) : bool :=
  match o with Some (_ :: _) => true | _ => false end.

(* saveTokens at time `now` (Date.now()) *)
Definition saveTokens (now : N) (t : GoogleTokenInfo) (st : Storage) : Storage :=
  let st1 := <[ACCESS_TOKEN := access_token t]> st in
  let st2 := <[ID_TOKEN := id_token t]> st1 in
  let st3 := <[EXPIRY_TIME := digits_of (now + expires_in t * 1000)]> st2 in
  match refresh_token t with
  | Some r => if js_truthy_str (Some r) then <[REFRESH_TOKEN := r]> st3 else st3
  | None => st3
  end.

(* getTokens: null unless an id token is stored *)
Definition getTokens (st : Storage) : option GoogleTokenInfo :=
  match st !! ID_TOKEN with
  | Some idt =>
      if js_truthy_str (Some idt) then
        Some (mkTokens (default [] (st !! ACCESS_TOKEN)) idt 3600
                (if js_truthy_str (st !! REFRESH_TOKEN) then st !! REFRESH_TOKEN else None)
                (s2u "openid email profile") (s2u "Bearer"))
      else None
  | None => None
  end.

Definition user_of_payload (p : GoogleJWTPayload) : User :=
  mkUser (sub p) (p_email p) (p_name p) (p_picture p).

Definition msg_no_credential : jsstr :=
  [0x8a8d; 0x8a3c; 0x60c5; 0x5831; 0x304c; 0x53d6; 0x5f97; 0x3067; 0x304d;
   0x307e; 0x305b; 0x3093; 0x3067; 0x3057; 0x305f]%N.
Definition msg_jwt_decode : jsstr :=
  s2u "JWT " ++
  [0x30c8; 0x30fc; 0x30af; 0x30f3; 0x306e; 0x30c7; 0x30b3; 0x30fc; 0x30c9;
   0x306b; 0x5931; 0x6557; 0x3057; 0x307e; 0x3057; 0x305f]%N.
Definition msg_access_denied : jsstr :=
  [0x30a2; 0x30af; 0x30bb; 0x30b9; 0x304c; 0x62d2; 0x5426; 0x3055; 0x308c;
   0x307e; 0x3057; 0x305f]%N.
Definition msg_no_refresh : jsstr :=
  [0x30ea; 0x30d5; 0x30ec; 0x30c3; 0x30b7; 0x30e5; 0x30c8; 0x30fc; 0x30af;
   0x30f3; 0x304c; 0x898b; 0x3064; 0x304b; 0x308a; 0x307e; 0x305b; 0x3093]%N.
Definition msg_refresh_failed_prefix : jsstr :=
  [0x30c8; 0x30fc; 0x30af; 0x30f3; 0x306e; 0x30ea; 0x30d5; 0x30ec; 0x30c3;
   0x30b7; 0x30e5; 0x306b; 0x5931; 0x6557; 0x3057; 0x307e; 0x3057; 0x305f;
   0x3a; 0x20]%N.

Section Broker.
(* atob(segment with - and _ mapped) followed by JSON.parse; None when
   either of them throws *)
Variable decodePayload : jsstr -> option GoogleJWTPayload.
(* JSON.stringify of the stored User object *)
Variable stringifyUser : User -> jsstr.

(* decodeJWT: three dot-separated parts, the middle one decoded *)
Definition decodeJWT (token : jsstr) : option GoogleJWTPayload :=
  match split_unit DOT token with
  | [_; payload; _] => decodePayload payload
  | _ => None
  end.

Definition saveUserInfo (p : GoogleJWTPayload) (st : Storage) : Storage :=
  <[USER_INFO := stringifyUser (user_of_payload p)]> st.

(* handleCredentialResponse(response): the result, the storage and the
   allowlist service's cached config afterwards *)
Definition handleCredentialResponse (f : FetchOutcome) (now : N)
    (credential : option jsstr) (st : Storage) (al : option GoogleOAuthConfig)
    : LoginResult * Storage * option GoogleOAuthConfig :=
  let fail t al' := (LoginFailed (handleError t), st, al') in
  match credential with
  | Some cred =>
      if negb (js_truthy_str (Some cred)) then fail (TError (s2u "Error") msg_no_credential) al
      else match decodeJWT cred with
      | None => fail (TError (s2u "Error") msg_jwt_decode) al
      | Some userInfo =>
          match checkEmailAllowed f al (p_email userInfo) with
          | (inl err, al') => fail (TAuthError err) al'
          | (inr r, al') =>
              if negb (isAllowed r) then
                (LoginFailed (mkAuthError ACCESS_DENIED
                                (default msg_access_denied (reason r)) false), st, al')
              else
                let tokenInfo := mkTokens [] cred 3600 None
                                   (s2u "openid email profile") (s2u "Bearer") in
                let st1 := saveTokens now tokenInfo st in
                let st2 := saveUserInfo userInfo st1 in
                (LoginOk (user_of_payload userInfo), st2, al')
          end
      end
  | None => fail (TError (s2u "Error") msg_no_credential) al
  end.
End Broker.

(* the token endpoint's answer to one refresh request: fetch rejects
   (TE_Rejected) or does not answer before the timeout (TE_Slow); a response
   (TE_Response), whose body, when ok, is JSON other than null with the
   fields access_token, id_token and expires_in (None when absent); an ok
   response whose body response.json() rejects with a SyntaxError
   (TE_OkNotJson); an ok response whose body is null, so that reading
   newTokens.access_token throws a TypeError (TE_OkNull). The messages are
   the engine's. *)
Inductive TokenEndpoint :=
  | TE_Rejected (msg : jsstr)
  | TE_Slow
  | TE_Response (ok : bool) (status : N)
      (new_access : option jsstr) (new_id : option jsstr) (new_expires : option N)
  | TE_OkNotJson (msg : jsstr)
  | TE_OkNull (msg : jsstr).

(* one run of the operation passed to executeWithRetry by refreshToken *)
Definition refresh_attempt (clientId : option jsstr) (now : N) (st : Storage)
    (resp : TokenEndpoint) : Settle (bool * Storage) :=
  match getTokens st with
  | None => Rejects (TError (s2u "Error") msg_no_refresh)
  | Some tokens =>
      match refresh_token tokens with
      | None => Rejects (TError (s2u "Error") msg_no_refresh)
      | Some _ =>
          match resp with
          | TE_Rejected m => Rejects (TError (s2u "TypeError") m)
          | TE_Slow => Outlasts
          | TE_Response false status _ _ _ =>
              Rejects (TError (s2u "Error") (msg_refresh_failed_prefix ++ digits_of status))
          | TE_OkNotJson m => Rejects (TError (s2u "SyntaxError") m)
          | TE_OkNull m => Rejects (TError (s2u "TypeError") m)
          | TE_Response true _ acc idt exps =>
              let updated :=
                mkTokens (default (s2u "undefined") acc)
                  (if js_truthy_str idt then default [] idt else id_token tokens)
                  (match exps with Some (Npos p) => Npos p | _ => 3600 end)
                  (refresh_token tokens) (scope tokens) (token_type tokens) in
              Resolves (true, saveTokens now updated st)
          end
      end
  end.

(* does one run of the operation reach the fetch call *)
Definition refresh_reaches_fetch (st : Storage) : bool :=
  match getTokens st with
  | Some tokens => if refresh_token tokens then true else false
  | None => false
  end.

(* refreshToken(): the returned boolean, the storage afterwards, the number
   of requests sent to the token endpoint and the retry run itself *)
Definition refreshToken (svc : ErrorHandlingConfig) (clientId : option jsstr)
    (now : N) (st : Storage) (endpoint : nat -> TokenEndpoint)
    : bool * Storage * nat * RetryRun (bool * Storage) :=
  let run := executeWithRetry svc
               (fun k => refresh_attempt clientId now st (endpoint k)) (retries 2 1000) in
  let st' := match data (run_result run) with Some (_, s) => s | None => st end in
  (success (run_result run), st',
   if refresh_reaches_fetch st then calls run else 0, run).

(* parseInt(s, 10): leading white space skipped, an optional sign, then the
   longest run of decimal digits; None is NaN. Numbers are exact here, as
   JavaScript's are below 2^53. *)
Fixpoint trim_start (s : jsstr) : jsstr :=
  match s with
  | c :: s' => if is_ws c then trim_start s' else s
  | [] => []
  end.

Definition is_digit (c : N) : bool := (48 <=? c)%N && (c <=? 57)%N.

Fixpoint digit_prefix (acc : Z) (l : jsstr) (seen : bool) : option Z :=
  match l with
  | c :: l' =>
      if is_digit c then digit_prefix (acc * 10 + Z.of_N (c - 48))%Z l' true
      else if seen then Some acc else None
  | [] => if seen then Some acc else None
  end.

Definition parseInt10 (s : jsstr) : option Z :=
  match trim_start s with
  | c :: r =>
      if (c =? 45)%N then option_map Z.opp (digit_prefix 0 r false)
      else if (c =? 43)%N then digit_prefix 0 r false
      else digit_prefix 0 (c :: r) false
  | [] => None
  end.

(* getTokenExpiryTime: None is null, Some None is NaN *)
Definition getTokenExpiryTime (st : Storage) : option (option Z) :=
  match st !! EXPIRY_TIME with
  | Some s => if js_truthy_str (Some s) then Some (parseInt10 s) else None
  | None => None
  end.

Definition clearTokens (st : Storage) : Storage :=
  delete EXPIRY_TIME (delete REFRESH_TOKEN (delete ID_TOKEN (delete ACCESS_TOKEN st))).

Definition clearUserInfo (st : Storage) : Storage := delete USER_INFO st.

(* GoogleAuthService.logout: the storage it leaves; both the normal path and
   the catch path clear the tokens and then the user info *)
Definition logout (st : Storage) : Storage := clearUserInfo (clearTokens st).

Section Session.
Variable decodePayload : jsstr -> option GoogleJWTPayload.
(* JSON.parse of the stored user info; None when it throws or gives a
   falsy value *)
Variable parseUser : jsstr -> option User.

(* isTokenValid() at time `now`; decoded payloads carry a numeric exp *)
Definition isTokenValid (now : N) (st : Storage) : bool :=
  match getTokens st with
  | None => false
  | Some tokens =>
      if negb (js_truthy_str (Some (id_token tokens))) then false else
      let expiryTime := getTokenExpiryTime st in
      if match expiryTime with
         | Some (Some z) => negb (z =? 0)%Z && (z <=? Z.of_N now)%Z
         | _ => false
         end then false
      else match decodeJWT decodePayload (id_token tokens) with
           | None => false
           | Some payload => if (exp payload * 1000 <=? Z.of_N now)%Z then false else true
           end
  end.

Definition getUserInfo (st : Storage) : option User :=
  match st !! USER_INFO with
  | Some s => if js_truthy_str (Some s) then parseUser s else None
  | None => None
  end.

(* getCurrentUser(): the user, the storage and the allowlist service's
   cached config afterwards; a failed policy load is caught (null) *)
Definition getCurrentUser (f : FetchOutcome) (now : N) (st : Storage)
    (al : option GoogleOAuthConfig) : option User * Storage * option GoogleOAuthConfig :=
  if negb (isTokenValid now st) then (None, st, al) else
  match getUserInfo st with
  | None => (None, st, al)
  | Some u =>
      match checkEmailAllowed f al (email u) with
      | (inl _, al') => (None, st, al')
      | (inr r, al') => if isAllowed r then (Some u, st, al') else (None, logout st, al')
      end
  end.
End Session.

Definition digits_value (acc : Z) (ds : jsstr) : Z :=
  fold_left (fun a c => a * 10 + Z.of_N (c - 48))%Z ds acc.

(* login() on an initialized service, as a step relation over the service
   fields it touches. A caller is named by a number; `loginResolve` holds
   the resolver of the caller whose promise the callbacks settle. *)
Record LoginState := mkLoginState {
  loginResolve : option nat;
  prompts : nat;                       (* calls of google.accounts.id.prompt *)
  settled : list (nat * LoginResult)   (* promises resolved, in order *)
}.

Definition msg_login_timeout : jsstr :=   (* 'ログインがタイムアウトしました' *)
  [0x30ed; 0x30b0; 0x30a4; 0x30f3; 0x304c; 0x30bf; 0x30a4; 0x30e0; 0x30a2;
   0x30a6; 0x30c8; 0x3057; 0x307e; 0x3057; 0x305f]%N.

Inductive LoginEvent :=
  | LoginCall (k : nat)              (* login() entered by caller k *)
  | CredentialCallback (r : LoginResult)
                                     (* the initialize() callback: handleCredentialResponse gave r *)
  | PopupSettled (r : LoginResult)   (* the showLoginPopup fallback settled with r *)
  | LoginTimer.                      (* one of the 30 s timers of login() fires *)

(* `if (this.loginResolve) { this.loginResolve(r); this.loginResolve = null; }` *)
Definition resolve_pending (s : LoginState) (r : LoginResult) : LoginState :=
  match loginResolve s with
  | Some k => mkLoginState None (prompts s) (settled s ++ [(k, r)])
  | None => s
  end.

Definition login_step (s : LoginState) (ev : LoginEvent) : LoginState :=
  match ev with
  | LoginCall k => mkLoginState (Some k) (S (prompts s)) (settled s)
  | CredentialCallback r => resolve_pending s r
  | PopupSettled r => resolve_pending s r
  | LoginTimer =>
      resolve_pending s (LoginFailed (mkAuthError OAUTH_FAILED msg_login_timeout true))
  end.

Definition login_run (s : LoginState) (evs : list LoginEvent) : LoginState :=
  fold_left login_step evs s.

Definition login_init : LoginState := mkLoginState None 0 [].

Definition msg_no_client_id : jsstr :=   (* 'Google Client ID が設定されていません' *)
  s2u "Google Client ID " ++
  [0x304c; 0x8a2d; 0x5b9a; 0x3055; 0x308c; 0x3066; 0x3044; 0x307e; 0x305b; 0x3093]%N.
Definition msg_popup_blocked : jsstr :=   (* 'ポップアップがブロックされました' *)
  [0x30dd; 0x30c3; 0x30d7; 0x30a2; 0x30c3; 0x30d7; 0x304c; 0x30d6; 0x30ed;
   0x30c3; 0x30af; 0x3055; 0x308c; 0x307e; 0x3057; 0x305f]%N.
Definition msg_login_cancelled : jsstr :=   (* 'ログインがキャンセルされました' *)
  [0x30ed; 0x30b0; 0x30a4; 0x30f3; 0x304c; 0x30ad; 0x30e3; 0x30f3; 0x30bb;
   0x30eb; 0x3055; 0x308c; 0x307e; 0x3057; 0x305f]%N.

(* what window.open gives and what the 1 s interval later observes *)
Inductive PopupWindow :=
  | PopupBlocked        (* window.open returns null *)
  | PopupClosed         (* popup.closed becomes true at some tick *)
  | PopupStaysOpen.     (* popup.closed never becomes true *)

(* showLoginPopup: Some e when the promise rejects with
   { success: false, error: e }; None when it stays pending. It never
   resolves. *)
Definition showLoginPopup (clientId : option jsstr) (w : PopupWindow) : option AuthError :=
  if negb (js_truthy_str clientId) then
    Some (mkAuthError CONFIG_ERROR msg_no_client_id false)
  else match w with
  | PopupBlocked => Some (mkAuthError OAUTH_FAILED msg_popup_blocked true)
  | PopupClosed => Some (mkAuthError OAUTH_FAILED msg_login_cancelled true)
  | PopupStaysOpen => None
  end.

(* the rejected value { success: false, error } seen by handleError: an
   object without a `type` property of its own, and not an Error *)
Definition popup_rejection (e : AuthError) : Thrown := TOtherObject.

(* the `.catch` of the One Tap fallback in login(): the result it hands to
   the pending resolver *)
Definition popup_fallback (clientId : option jsstr) (w : PopupWindow) : option LoginResult :=
  match showLoginPopup clientId w with
  | Some e => Some (LoginFailed (handleError (popup_rejection e)))
  | None => None
  end.

(* ===================================================================== *)
(* hooks/useAuth.ts                                                       *)
(* ===================================================================== *)

(* Partial<AuthState>; for `error` the inner option is null/undefined *)
Record AuthUpdate := mkAuthUpdate {
  u_isAuthenticated : option bool;
  u_user : option (option User);
  u_isLoading : option bool;
  u_error : option (option AuthError)
}.

(* updateAuthState: { ...prevState, ...updates } *)
Definition updateAuthState (s : AuthState) (u : AuthUpdate) : AuthState :=
  mkAuthState
    (default (isAuthenticated s) (u_isAuthenticated u))
    (default (user s) (u_user u))
    (default (isLoading s) (u_isLoading u))
    (default (error s) (u_error u)).

Definition initialAuthState : AuthState := mkAuthState false None true None.

(* the update made when checkAuthStatus, login or logout starts *)
Definition start_update : AuthUpdate := mkAuthUpdate None None (Some true) (Some None).

Definition checkAuthStatus_done (r : ErrorHandlingResult (option User)) : AuthUpdate :=
  if success r then
    match data r with
    | Some (Some u) => mkAuthUpdate (Some true) (Some (Some u)) (Some false) (Some None)
    | _ => mkAuthUpdate (Some false) (Some None) (Some false) (Some None)
    end
  else mkAuthUpdate (Some false) (Some None) (Some false) (Some (failure_error r)).

Definition login_done (r : ErrorHandlingResult (option User)) : AuthUpdate :=
  match success r, data r with
  | true, Some (Some u) => mkAuthUpdate (Some true) (Some (Some u)) (Some false) (Some None)
  | _, _ => mkAuthUpdate (Some false) (Some None) (Some false) (Some (failure_error r))
  end.

Definition msg_logout_error : jsstr :=
  (* 'ログアウト処理でエラーが発生しましたが、ローカル認証状態はクリアされました' *)
  [0x30ed; 0x30b0; 0x30a2; 0x30a6; 0x30c8; 0x51e6; 0x7406; 0x3067; 0x30a8;
   0x30e9; 0x30fc; 0x304c; 0x767a; 0x751f; 0x3057; 0x307e; 0x3057; 0x305f;
   0x304c; 0x3001; 0x30ed; 0x30fc; 0x30ab; 0x30eb; 0x8a8d; 0x8a3c; 0x72b6;
   0x614b; 0x306f; 0x30af; 0x30ea; 0x30a2; 0x3055; 0x308c; 0x307e; 0x3057;
   0x305f]%N.

Definition logout_done (ok : bool) : AuthUpdate :=
  mkAuthUpdate (Some false) (Some None) (Some false)
    (Some (if ok then None else Some (mkAuthError NETWORK_ERROR msg_logout_error false))).

(* the updates the three operations perform; their completions may
   interleave in any order *)
Inductive AuthStep : AuthUpdate -> Prop :=
  | step_start : AuthStep start_update
  | step_check_done r : AuthStep (checkAuthStatus_done r)
  | step_login_done r : AuthStep (login_done r)
  | step_logout_done ok : AuthStep (logout_done ok).

Inductive reachable : AuthState -> Prop :=
  | reach_init : reachable initialAuthState
  | reach_step s u : reachable s -> AuthStep u -> reachable (updateAuthState s u).

(* useAuth.logout: the loading update, then executeWithRetry
   { maxRetries: 1, delay: 500 } over the service logout, which catches
   everything it could throw and resolves with the storage cleared; then
   the final update. The state, the storage and the retry run. *)
Definition hook_logout (svc : ErrorHandlingConfig) (s : AuthState) (st : Storage)
    : AuthState * Storage * RetryRun Storage :=
  let s1 := updateAuthState s start_update in
  let run := executeWithRetry svc (fun _ => Resolves (logout st)) (retries 1 500) in
  let st' := default st (data (run_result run)) in
  (updateAuthState s1 (logout_done (success (run_result run))), st', run).

(* useAuth.refreshToken: the service refreshToken (which never rejects:
   executeWithRetry catches every failure), then checkAuthStatus on
   success and logout otherwise. checkAuthStatus is taken as a parameter
   here: its effect on state and storage. *)
Section HookRefresh.
Variable checkAuthStatus_run : AuthState -> Storage -> AuthState * Storage.

Definition hook_refreshToken (svc : ErrorHandlingConfig) (clientId : option jsstr)
    (now : N) (s : AuthState) (st : Storage) (endpoint : nat -> TokenEndpoint)
    : bool * AuthState * Storage :=
  let '(ok, st1, _, _) := refreshToken svc clientId now st endpoint in
  if ok then let '(s', st') := checkAuthStatus_run s st1 in (true, s', st')
  else let '(s', st', _) := hook_logout svc s st1 in (false, s', st').
End HookRefresh.

(* ===================================================================== *)
(* The spec's wording of a claim, where it is compared with the code      *)
(* ===================================================================== *)

(* the kinds the spec's table marks retryable *)
Definition retryable_kind (k : AuthErrorType) : bool :=
  match k with
  | OAUTH_FAILED | NETWORK_ERROR | TOKEN_EXPIRED => true
  | ACCESS_DENIED | CONFIG_ERROR => false
  end.

(* the verdict of a checkEmailAllowed call (false when it throws) *)
Definition allowed_of (res : (AuthError + AllowlistCheckResult) * option GoogleOAuthConfig) : bool :=
  match res.1 with inr r => isAllowed r | inl _ => false end.

(* the spec's conservative email-syntax check: one '@', non-empty local
   and domain parts, no leading, trailing or doubled '.' in the domain *)
Definition conservative_email_check (e : jsstr) : Prop :=
  exists l d, e = l ++ AT :: d /\ ~ In AT l /\ ~ In AT d /\ l <> [] /\ d <> [] /\
    ~ (exists z, d = DOT :: z) /\ ~ (exists z, d = z ++ [DOT]) /\
    ~ (exists a b, d = a ++ DOT :: DOT :: b).

(* what isValidEmail accepts, read off its three checks *)
Definition code_email_shape (e : jsstr) : Prop :=
  exists l d, e = l ++ AT :: d /\ l <> [] /\
    Forall (fun c => c <> AT /\ is_ws c = false) (l ++ d) /\
    (exists x y, d = x ++ DOT :: y /\ x <> [] /\ y <> []) /\
    ~ (exists z, d = DOT :: z) /\ ~ (exists z, d = z ++ [DOT]) /\
    ~ (exists a b, e = a ++ DOT :: DOT :: b).

(* a policy document with the given allowedEmails array *)
Definition policy_doc (emails : list Json) : Json :=
  JObj [(s2u "googleClientId", JStr (s2u "cid"));
        (s2u "allowedEmails", JArr emails);
        (s2u "version", JStr (s2u "1.0"))].

(* invariant of the useAuth state *)
Definition auth_inv (s : AuthState) : Prop :=
  isAuthenticated s = true -> user s <> None /\ error s = None.

(* a policy with an empty allowlist *)
Definition empty_policy : GoogleOAuthConfig := mkConfig (s2u "client-id") [] (s2u "1.0").

(* login calls and settled callers of a login event trace *)
Definition is_login_call (ev : LoginEvent) : bool :=
  match ev with LoginCall _ => true | _ => false end.

Definition settled_for (k : nat) (s : LoginState) : Prop :=
  exists r, In (k, r) (settled s).

(* a user for concrete runs *)
Definition sample_user : User :=
  mkUser (s2u "1") (s2u "a@x.com") (s2u "A") None.

(* ===================================================================== *)
(* Concrete inputs for the examples                                       *)
(* ===================================================================== *)

Definition sample_payload : GoogleJWTPayload :=
  mkPayload (s2u "accounts.google.com") (s2u "1") (s2u "cid") 5000 1000
    (s2u "a@x.com") true (s2u "A") None.

Definition sample_policy : GoogleOAuthConfig :=
  mkConfig (s2u "cid") [s2u "A@x.com"] (s2u "1.0").

(* a stored session with an id token and a refresh token *)
Definition sample_session : Storage :=
  <[ID_TOKEN := s2u "h.p.s"]> (<[REFRESH_TOKEN := s2u "rt"]> ∅).

Definition sample_session_tokens : GoogleTokenInfo :=
  mkTokens [] (s2u "h.p.s") 3600 (Some (s2u "rt")) (s2u "openid email profile") (s2u "Bearer").

(* a fetched policy document listing a@x.com *)
Definition sample_fetch : FetchOutcome :=
  FetchResponse true 200 (s2u "OK") (inr (policy_doc [JStr (s2u "a@x.com")])).

(* ===================================================================== *)
(* Proofs: ErrorHandlingService                                           *)
(* ===================================================================== *)

Lemma retry_loop_calls_bound {A} (op : nat -> Settle A) c tms fuel :
  forall attempt le rc n sl,
    calls (retry_loop op c tms fuel attempt le rc n sl) <= n + fuel.
Proof.
  induction fuel as [|fuel IH]; intros attempt le rc n sl; simpl.
  - lia.
  - destruct (executeWithTimeout (op attempt) tms) as [d|t]; simpl; [lia|].
    destruct (negb (retryable (handleError t)) || (attempt =? maxRetries c)%nat);
      simpl; [lia|].
    specialize (IH (S attempt) (Some (handleError t)) (S attempt) (S n)
                  (sl ++ [backoff_delay c attempt])). lia.
Qed.

(** C6 (amended): getErrorSeverity maps CONFIG_ERROR to critical,
    ACCESS_DENIED to high, TOKEN_EXPIRED and NETWORK_ERROR to medium and
    OAUTH_FAILED to low; handleError passes an AuthError-shaped input
    through unchanged, and every error it builds itself from another
    input is retryable exactly when its kind is OAUTH_FAILED,
    NETWORK_ERROR or TOKEN_EXPIRED. *)
Theorem severity_and_classified_retryability :
  (forall e, getErrorSeverity e =
     match type e with
     | CONFIG_ERROR => critical | ACCESS_DENIED => high
     | TOKEN_EXPIRED | NETWORK_ERROR => medium | OAUTH_FAILED => low
     end) /\
  (forall e, handleError (TAuthError e) = e) /\
  (forall t, isAuthError t = false ->
     retryable (handleError t) = retryable_kind (type (handleError t))).
Proof.
  split; [intros [k m r]; destruct k; reflexivity|].
  split; [reflexivity|].
  intros t Ht. destruct t as [e|n m|s|]; [discriminate| | |];
    unfold handleError; cbn [isAuthError] in *.
  - destruct (isNetworkError (TError n m)); [reflexivity|].
    unfold createGenericError.
    repeat match goal with |- context [if ?b then _ else _] => destruct b end;
      reflexivity.
  - reflexivity.
  - reflexivity.
Qed.

(** C6 (counterexample): loadConfig throws a CONFIG_ERROR marked
    retryable, and handleError passes it through unchanged, so a
    classified error of kind CONFIG_ERROR with retryable = true is
    observable (for instance in GoogleAuthService.initialize). *)
Lemma config_error_passes_through_retryable :
  exists e, loadConfig (FetchRejected (s2u "Failed to fetch")) = inl e /\
            type (handleError (TAuthError e)) = CONFIG_ERROR /\
            retryable (handleError (TAuthError e)) = true.
Proof. eexists. split; [reflexivity|]. split; reflexivity. Qed.

(** C4: executeWithRetry calls the operation at most maxRetries + 1
    times; with maxRetries = 2 and an operation whose every attempt fails
    with a retryable-classified error it calls it exactly 3 times and
    reports retryCount = 2; when the first attempt fails with a
    non-retryable error it stops after 1 call with retryCount = 0. *)
Theorem executeWithRetry_attempts {A} (svc : ErrorHandlingConfig)
    (op : nat -> Settle A) (p : PartialRetryConfig) :
  let c := mergeRetryConfig (defaultRetryConfig svc) p in
  let tms := networkTimeoutMs svc in
  calls (executeWithRetry svc op p) <= maxRetries c + 1 /\
  (maxRetries c = 2 ->
   (forall k, exists t, executeWithTimeout (op k) tms = inr t /\
                        retryable (handleError t) = true) ->
   calls (executeWithRetry svc op p) = 3 /\
   success (run_result (executeWithRetry svc op p)) = false /\
   retryCount (run_result (executeWithRetry svc op p)) = 2) /\
  ((exists t, executeWithTimeout (op 0) tms = inr t /\
              retryable (handleError t) = false) ->
   calls (executeWithRetry svc op p) = 1 /\
   success (run_result (executeWithRetry svc op p)) = false /\
   retryCount (run_result (executeWithRetry svc op p)) = 0).
Proof.
  intros c tms. unfold executeWithRetry, executeWithRetry_run. fold c tms.
  split; [|split].
  - pose proof (retry_loop_calls_bound op c tms (S (maxRetries c)) 0 None 0 0 []).
    lia.
  - intros Hmax Hfail. rewrite Hmax.
    destruct (Hfail 0) as [t0 [E0 R0]].
    destruct (Hfail 1) as [t1 [E1 R1]].
    destruct (Hfail 2) as [t2 [E2 R2]].
    cbn [retry_loop]. rewrite Hmax.
    rewrite E0. cbv zeta. rewrite R0. cbn [negb orb Nat.eqb].
    rewrite E1. cbv zeta. rewrite R1. cbn [negb orb Nat.eqb].
    rewrite E2. cbv zeta. rewrite R2. cbn [negb orb Nat.eqb].
    cbn. auto.
  - intros [t [E R]]. cbn [retry_loop]. rewrite E. cbv zeta. rewrite R.
    cbn. auto.
Qed.

(** C5 (code bug, at the failing input): with the default service
    (networkTimeoutMs = 10000) and an operation that never settles in
    time, each of the 3 attempts rejects with the timeout Error, whose
    message '操作がタイムアウトしました (10000ms)' has none of the network
    keywords and whose name is plain 'Error'; the final classified error is
    OAUTH_FAILED, whereas an Error named 'TimeoutError' would have been
    classified NETWORK_ERROR. *)
Theorem timeout_attempts_classified_oauth_failed :
  let run := executeWithRetry defaultService (fun _ => @Outlasts unit) (retries 2 1000) in
  calls run = 3 /\
  failure_error (run_result run) =
    Some (mkAuthError OAUTH_FAILED (msg_timeout_prefix ++ s2u "10000ms)") true) /\
  type (handleError (TError (s2u "TimeoutError") (msg_timeout_prefix ++ s2u "10000ms)")))
    = NETWORK_ERROR.
Proof. vm_compute. split; [reflexivity|]. split; reflexivity. Qed.

(* ===================================================================== *)
(* Proofs: useAuth                                                        *)
(* ===================================================================== *)

Lemma auth_inv_step s u : auth_inv s -> AuthStep u -> auth_inv (updateAuthState s u).
Proof.
  unfold auth_inv. intros Hs Hu. destruct Hu as [|r|r|ok]; cbn.
  - intros Ha. destruct (Hs Ha) as [Hu _]. split; [exact Hu|reflexivity].
  - unfold checkAuthStatus_done.
    destruct (success r); [destruct (data r) as [[u|]|]|]; cbn;
      first [discriminate | intros _; split; [discriminate|reflexivity]].
  - unfold login_done.
    destruct (success r), (data r) as [[u|]|]; cbn;
      first [discriminate | intros _; split; [discriminate|reflexivity]].
  - discriminate.
Qed.

(** C10: in every AuthState reachable from the initial state through the
    updates of checkAuthStatus, login and logout, in any interleaving,
    isAuthenticated = true implies a non-null user and a null error; and
    every one of these updates that records a non-null error also sets
    isAuthenticated = false and user = null. *)
Theorem useAuth_authenticated_consistent :
  (forall s, reachable s -> isAuthenticated s = true -> user s <> None /\ error s = None) /\
  (forall u e, AuthStep u -> u_error u = Some (Some e) ->
     u_isAuthenticated u = Some false /\ u_user u = Some None).
Proof.
  split.
  - intros s Hr. induction Hr as [|s u Hr IH Hu].
    + discriminate.
    + exact (auth_inv_step s u IH Hu).
  - intros u e Hu He. destruct Hu as [|r|r|ok]; cbn in *.
    + discriminate.
    + unfold checkAuthStatus_done in *.
      destruct (success r); [destruct (data r) as [[u|]|]|]; cbn in *;
        first [discriminate | split; reflexivity].
    + unfold login_done in *.
      destruct (success r), (data r) as [[u|]|]; cbn in *;
        first [discriminate | split; reflexivity].
    + split; reflexivity.
Qed.

(* ===================================================================== *)
(* Proofs: AllowlistService                                               *)
(* ===================================================================== *)

(** C2: whenever checkEmailAllowed answers with a loaded policy whose
    allowedEmails list is empty, the answer is isAllowed = false, for every
    input email, syntactically valid or not. *)
Theorem empty_allowlist_denies (f : FetchOutcome) (st : option GoogleOAuthConfig)
    (e : jsstr) (r : AllowlistCheckResult) (c : GoogleOAuthConfig) :
  checkEmailAllowed f st e = (inr r, Some c) -> allowedEmails c = [] ->
  isAllowed r = false.
Proof.
  intros H Hc.
  assert (Hr : r = check_loaded c e).
  { destruct st as [c0|]; cbn in H.
    - inversion H; subst; reflexivity.
    - destruct (loadConfig f) as [err|c0]; inversion H; subst; reflexivity. }
  subst r. unfold check_loaded. rewrite Hc.
  destruct (isValidEmail e); reflexivity.
Qed.

Lemma empty_allowlist_denies_witness :
  checkEmailAllowed (FetchRejected []) (Some empty_policy) (s2u "a@x.com")
    = (inr (check_loaded empty_policy (s2u "a@x.com")), Some empty_policy) /\
  allowedEmails empty_policy = [] /\
  isAllowed (check_loaded empty_policy (s2u "a@x.com")) = false.
Proof.
  split; [reflexivity|]. split; [reflexivity|].
  apply (empty_allowlist_denies (FetchRejected []) (Some empty_policy) (s2u "a@x.com")
           _ empty_policy); reflexivity.
Defined.

Lemma startsWith_spec s p : startsWith s p = true <-> exists r, s = p ++ r.
Proof.
  revert s. induction p as [|c p IH]; intros s.
  - split; [intros _; exists s; reflexivity | intros _; destruct s; reflexivity].
  - destruct s as [|d s]; cbn [startsWith].
    + split; [discriminate | intros [r Hr]; discriminate].
    + rewrite andb_true_iff, N.eqb_eq, IH. split.
      * intros [-> [r ->]]. exists r. reflexivity.
      * intros [r Hr]. injection Hr as -> ->. split; [reflexivity | exists r; reflexivity].
Qed.

Lemma includes_spec s p : includes s p = true <-> exists a b, s = a ++ p ++ b.
Proof.
  induction s as [|c s IH]; cbn [includes]; rewrite orb_true_iff, startsWith_spec.
  - split.
    + intros [[r Hr] | H]; [exists [], r; exact Hr | discriminate].
    + intros [a [b Hab]]. left. destruct a; [exists b; exact Hab | discriminate].
  - rewrite IH. split.
    + intros [[r Hr] | [a [b Hab]]].
      * exists [], r. exact Hr.
      * exists (c :: a), b. rewrite Hab. reflexivity.
    + intros [a [b Hab]]. destruct a as [|c' a].
      * left. exists b. exact Hab.
      * right. injection Hab as _ Hab. exists a, b. exact Hab.
Qed.

Lemma endsWith_spec s p : endsWith s p = true <-> exists r, s = r ++ p.
Proof.
  unfold endsWith. rewrite startsWith_spec. split.
  - intros [r Hr]. exists (rev r).
    rewrite <- (rev_involutive s), Hr, rev_app_distr, rev_involutive. reflexivity.
  - intros [r ->]. exists (rev r). rewrite rev_app_distr. reflexivity.
Qed.

Lemma split_unit_nonempty sep s : split_unit sep s <> [].
Proof.
  destruct s as [|c s]; cbn [split_unit]; [discriminate|].
  destruct (c =? sep)%N; [discriminate|]. destruct (split_unit sep s); discriminate.
Qed.

Lemma split_unit_noin sep s : ~ In sep s -> split_unit sep s = [s].
Proof.
  induction s as [|c s IH]; intros Hn; [reflexivity|]. cbn [split_unit].
  destruct (N.eqb_spec c sep) as [->|_]; [exfalso; apply Hn; left; reflexivity|].
  rewrite IH; [reflexivity | intros H; apply Hn; right; exact H].
Qed.

Lemma split_unit_app sep l r :
  ~ In sep l -> split_unit sep (l ++ sep :: r) = l :: split_unit sep r.
Proof.
  induction l as [|c l IH]; intros Hn; cbn [app split_unit].
  - rewrite N.eqb_refl. reflexivity.
  - destruct (N.eqb_spec c sep) as [->|_]; [exfalso; apply Hn; left; reflexivity|].
    rewrite IH; [reflexivity | intros H; apply Hn; right; exact H].
Qed.

Lemma split_unit_single sep s d : split_unit sep s = [d] -> s = d /\ ~ In sep s.
Proof.
  revert d. induction s as [|c s IH]; intros d H; cbn [split_unit] in H.
  - injection H as <-. split; [reflexivity | intros []].
  - destruct (N.eqb_spec c sep) as [->|Hc].
    + injection H as _ H. exfalso. exact (split_unit_nonempty sep s H).
    + destruct (split_unit sep s) as [|w ws] eqn:E; [exfalso; exact (split_unit_nonempty sep s E)|].
      injection H as <- ->. destruct (IH w eq_refl) as [-> Hn]. split; [reflexivity|].
      intros [H|H]; [exact (Hc H) | exact (Hn H)].
Qed.

Lemma split_unit_two sep s l d :
  split_unit sep s = [l; d] <-> s = l ++ sep :: d /\ ~ In sep l /\ ~ In sep d.
Proof.
  split.
  - revert l. induction s as [|c s IH]; intros l H; cbn [split_unit] in H; [discriminate|].
    destruct (N.eqb_spec c sep) as [->|Hc].
    + injection H as <- H. destruct (split_unit_single sep s d H) as [-> Hn].
      split; [reflexivity | split; [intros [] | exact Hn]].
    + destruct (split_unit sep s) as [|w ws] eqn:E; [discriminate|].
      injection H as <- ->. destruct (IH w eq_refl) as [-> [Hw Hd]].
      split; [reflexivity | split; [|exact Hd]].
      intros [H|H]; [exact (Hc H) | exact (Hw H)].
  - intros [-> [Hl Hd]]. rewrite split_unit_app by exact Hl.
    rewrite split_unit_noin by exact Hd. reflexivity.
Qed.

Lemma in_removelast (a : N) r :
  In a (removelast r) <-> exists u v, r = u ++ a :: v /\ v <> [].
Proof.
  split.
  - intros H. destruct r as [|z r']; [destruct H|].
    assert (Hr : z :: r' <> []) by discriminate.
    pose proof (app_removelast_last 0%N Hr) as E.
    apply in_split in H as [u [w Hw]].
    exists u, (w ++ [List.last (z :: r') 0%N]). split.
    + rewrite E at 1. rewrite Hw, <- app_assoc. reflexivity.
    + destruct w; discriminate.
  - intros [u [v [-> Hv]]]. rewrite removelast_app by discriminate.
    apply in_or_app. right. destruct v as [|b v]; [contradiction|]. left. reflexivity.
Qed.

Lemma inner_dot_spec d :
  inner_dot d = true <-> exists x y, d = x ++ DOT :: y /\ x <> [] /\ y <> [].
Proof.
  unfold inner_dot. destruct d as [|c r].
  - split; [discriminate|]. intros [x [y [H [Hx _]]]]. destruct x; [contradiction | discriminate].
  - rewrite existsb_exists. split.
    + intros [a [Ha Hq]]. apply N.eqb_eq in Hq. subst a.
      apply in_removelast in Ha as [u [v [-> Hv]]].
      exists (c :: u), v. split; [reflexivity | split; [discriminate | exact Hv]].
    + intros [x [y [H [Hx Hy]]]]. destruct x as [|c' u]; [contradiction|].
      injection H as <- ->. exists DOT. split; [|apply N.eqb_refl].
      apply in_removelast. exists u, y. split; [reflexivity | exact Hy].
Qed.

Lemma forallb_not_ws_spec l : forallb not_ws l = true <-> Forall (fun c => is_ws c = false) l.
Proof.
  rewrite forallb_forall, List.Forall_forall. unfold not_ws.
  split; intros H c Hc; specialize (H c Hc).
  - apply negb_true_iff. exact H.
  - apply negb_true_iff. exact H.
Qed.

Lemma isValidEmail_two e l d : split_unit AT e = [l; d] ->
  isValidEmail e =
    negb (bool_decide (l = [])) && forallb not_ws l && forallb not_ws d && inner_dot d &&
    negb (includes e (s2u "..")) && negb (startsWith d (s2u ".")) &&
    negb (endsWith d (s2u ".")).
Proof.
  intros E. unfold isValidEmail, emailRegex_test. rewrite E. cbn zeta.
  change (nth 1 [l; d] []) with d.
  destruct (bool_decide (l = [])), (forallb not_ws l), (forallb not_ws d), (inner_dot d),
    (includes e (s2u "..")), (startsWith d (s2u ".")), (endsWith d (s2u ".")); reflexivity.
Qed.

Lemma isValidEmail_split e : isValidEmail e = true -> exists l d, split_unit AT e = [l; d].
Proof.
  unfold isValidEmail, emailRegex_test. intros H.
  destruct (split_unit AT e) as [|l [|d [|x r]]]; [discriminate H | discriminate H | | discriminate H].
  exists l, d. reflexivity.
Qed.

Lemma Forall_at_ws (l : jsstr) :
  Forall (fun c => c <> AT /\ is_ws c = false) l <->
  ~ In AT l /\ Forall (fun c => is_ws c = false) l.
Proof.
  rewrite !List.Forall_forall. split.
  - intros H. split.
    + intros Hin. exact (proj1 (H AT Hin) eq_refl).
    + intros c Hc. exact (proj2 (H c Hc)).
  - intros [Hn H] c Hc. split; [intros ->; exact (Hn Hc) | exact (H c Hc)].
Qed.

Lemma isValidEmail_spec e : isValidEmail e = true <-> code_email_shape e.
Proof.
  split.
  - intros H. destruct (isValidEmail_split e H) as [l [d E]].
    rewrite (isValidEmail_two e l d E) in H.
    apply split_unit_two in E as [He [Hl Hd]].
    rewrite !andb_true_iff, !negb_true_iff in H.
    destruct H as [[[[[[Hne Fl] Fd] Hi] Hdd] Hs] Hend].
    exists l, d. split; [exact He|]. split.
    { intros ->. rewrite bool_decide_eq_true_2 in Hne by reflexivity. discriminate. }
    split.
    { apply Forall_app. split; apply Forall_at_ws; split; try assumption;
        apply forallb_not_ws_spec; assumption. }
    split; [apply inner_dot_spec; exact Hi|]. split; [|split].
    + intros [z Hz]. rewrite (proj2 (startsWith_spec d (s2u "."))) in Hs; [discriminate|].
      exists z. exact Hz.
    + intros [z Hz]. rewrite (proj2 (endsWith_spec d (s2u "."))) in Hend; [discriminate|].
      exists z. exact Hz.
    + intros [a [b Hab]]. rewrite (proj2 (includes_spec e (s2u ".."))) in Hdd; [discriminate|].
      exists a, b. exact Hab.
  - intros [l [d [He [Hl [HF [Hin [Hs [Hend Hdd]]]]]]]].
    apply Forall_app in HF as [Fl Fd].
    apply Forall_at_ws in Fl as [Nl Wl]. apply Forall_at_ws in Fd as [Nd Wd].
    assert (E : split_unit AT e = [l; d]) by (apply split_unit_two; auto).
    rewrite (isValidEmail_two e l d E).
    rewrite !andb_true_iff, !negb_true_iff.
    repeat split.
    + apply bool_decide_eq_false_2. exact Hl.
    + apply forallb_not_ws_spec. exact Wl.
    + apply forallb_not_ws_spec. exact Wd.
    + apply inner_dot_spec. exact Hin.
    + apply not_true_is_false. intros H. apply includes_spec in H. exact (Hdd H).
    + apply not_true_is_false. intros H. apply startsWith_spec in H. exact (Hs H).
    + apply not_true_is_false. intros H. apply endsWith_spec in H. exact (Hend H).
Qed.

(* --- toLowerCase keeps '@', '.' and white space where they are --- *)

Lemma lower_table_ok : forallb lower_entry_ok lower_table = true.
Proof. vm_compute. reflexivity. Qed.

Lemma lower_lookup_in c o t : lower_lookup c t = Some o -> In (c, o) t.
Proof.
  induction t as [|[k o'] t IH]; cbn; [discriminate|].
  destruct (N.eqb_spec k c) as [->|_]; [intros [= ->]; left; reflexivity|].
  intros H. right. exact (IH H).
Qed.

Lemma lower_lookup_ok c o : lower_lookup c lower_table = Some o -> lower_entry_ok (c, o) = true.
Proof.
  intros H. apply lower_lookup_in in H.
  pose proof lower_table_ok as T. rewrite forallb_forall in T. exact (T _ H).
Qed.

Lemma special_bound c : special c = true -> (c <= 65279 /\ ~ (0xD800 <= c <= 0xDFFF))%N.
Proof.
  unfold special, is_ws, AT, DOT. intros E.
  repeat (rewrite orb_true_iff in E || rewrite andb_true_iff in E).
  rewrite ?N.eqb_eq, ?N.leb_le in E. lia.
Qed.

Lemma special_lookup c : special c = true -> lower_lookup c lower_table = None.
Proof.
  intros S. destruct (lower_lookup c lower_table) as [o|] eqn:E; [|reflexivity].
  apply lower_lookup_ok in E. cbn in E. rewrite S in E. discriminate.
Qed.

Lemma utf16_small c : (c < 0x10000)%N -> utf16_of_cp c = [c].
Proof. intros H. unfold utf16_of_cp. apply N.ltb_lt in H. rewrite H. reflexivity. Qed.

Lemma surrogate_not_special u : (0xD800 <= u <= 0xDFFF)%N -> special u = false.
Proof.
  intros H. destruct (special u) eqn:E; [|reflexivity].
  apply special_bound in E. lia.
Qed.

Lemma utf16_not_special c : special c = false ->
  utf16_of_cp c <> [] /\ Forall (fun x => special x = false) (utf16_of_cp c).
Proof.
  intros S. unfold utf16_of_cp.
  destruct (N.ltb_spec c 0x10000); [split; [discriminate | constructor; [exact S | constructor]]|].
  destruct (N.leb_spec c 0x10FFFF); [|split; [discriminate | constructor; [exact S | constructor]]].
  split; [discriminate|].
  assert (D : ((c - 0x10000) / 0x400 < 0x400)%N)
    by (apply N.Div0.div_lt_upper_bound; lia).
  assert (M : ((c - 0x10000) mod 0x400 < 0x400)%N) by (apply N.mod_lt; lia).
  generalize dependent ((c - 0x10000) mod 0x400)%N.
  generalize dependent ((c - 0x10000) / 0x400)%N. intros q D r M.
  constructor; [apply surrogate_not_special; lia|].
  constructor; [apply surrogate_not_special; lia | constructor].
Qed.

Lemma utf16_pair h l : is_high h = true -> is_low l = true ->
  utf16_of_cp (0x10000 + (h - 0xD800) * 0x400 + (l - 0xDC00))%N = [h; l].
Proof.
  unfold is_high, is_low, utf16_of_cp. rewrite !andb_true_iff, !N.leb_le.
  intros [H1 H2] [L1 L2].
  destruct (N.ltb_spec (0x10000 + (h - 0xD800) * 0x400 + (l - 0xDC00)) 0x10000); [lia|].
  destruct (N.leb_spec (0x10000 + (h - 0xD800) * 0x400 + (l - 0xDC00)) 0x10FFFF); [|lia].
  replace (0x10000 + (h - 0xD800) * 0x400 + (l - 0xDC00) - 0x10000)%N
    with ((l - 0xDC00) + (h - 0xD800) * 0x400)%N by lia.
  rewrite N.div_add by lia. rewrite N.Div0.mod_add.
  rewrite N.div_small, N.mod_small by lia. f_equal; [lia | f_equal; lia].
Qed.

Lemma lower_cp_special c : special c = true -> lower_cp c = [c].
Proof. intros S. unfold lower_cp. rewrite special_lookup by exact S. reflexivity. Qed.

Lemma lower_cp_not_special c : special c = false ->
  flat_map utf16_of_cp (lower_cp c) <> [] /\
  Forall (fun x => special x = false) (flat_map utf16_of_cp (lower_cp c)).
Proof.
  intros S. unfold lower_cp. destruct (lower_lookup c lower_table) as [o|] eqn:E.
  - apply lower_lookup_ok in E. cbn in E.
    rewrite !andb_true_iff in E. destruct E as [[[_ E1] E2] _].
    split.
    + intros H. rewrite H in E1. discriminate.
    + apply List.Forall_forall. rewrite forallb_forall in E2. intros x Hx.
      apply negb_true_iff. exact (E2 x Hx).
  - cbn. rewrite app_nil_r. exact (utf16_not_special c S).
Qed.

Lemma sigma_out prev l :
  let o := flat_map utf16_of_cp
             (if prev && negb (followed_by_cased l) then [0x3C2%N] else [0x3C3%N]) in
  o <> [] /\ Forall (fun x => special x = false) o.
Proof.
  cbn zeta. destruct (prev && negb (followed_by_cased l));
    vm_compute; (split; [discriminate | repeat constructor]).
Qed.

Lemma lower_cps_cons_special prev c l : special c = true ->
  flat_map utf16_of_cp (lower_cps prev (c :: l)) =
  c :: flat_map utf16_of_cp (lower_cps (if case_ignorable c then prev else cased c) l).
Proof.
  intros S. cbn [lower_cps]. rewrite flat_map_app.
  destruct (N.eqb_spec c 0x3A3) as [->|_]; [discriminate S|].
  rewrite lower_cp_special by exact S. cbn [flat_map].
  pose proof (special_bound c S) as B. rewrite utf16_small by lia. reflexivity.
Qed.

Lemma lower_cps_cons_other prev c l : special c = false ->
  exists o, flat_map utf16_of_cp (lower_cps prev (c :: l)) =
    o ++ flat_map utf16_of_cp (lower_cps (if case_ignorable c then prev else cased c) l) /\
    o <> [] /\ Forall (fun x => special x = false) o.
Proof.
  intros S. cbn [lower_cps]. rewrite flat_map_app. eexists. split; [reflexivity|].
  destruct (c =? 0x3A3)%N; [apply sigma_out | apply lower_cp_not_special; exact S].
Qed.

Lemma high_not_special h : is_high h = true -> special h = false.
Proof.
  unfold is_high. rewrite andb_true_iff, !N.leb_le. intros H.
  apply surrogate_not_special. lia.
Qed.

Lemma low_not_special l : is_low l = true -> special l = false.
Proof.
  unfold is_low. rewrite andb_true_iff, !N.leb_le. intros H.
  apply surrogate_not_special. lia.
Qed.

Lemma pair_not_special h l : is_high h = true -> is_low l = true ->
  special (0x10000 + (h - 0xD800) * 0x400 + (l - 0xDC00))%N = false.
Proof.
  intros _ _. destruct (special _) eqn:E; [|reflexivity].
  apply special_bound in E. lia.
Qed.

Lemma case_rel_lower_gen (n : nat) : forall (s : jsstr) (prev : bool), List.length s <= n ->
  case_rel s (flat_map utf16_of_cp (lower_cps prev (code_points s))).
Proof.
  induction n as [|n IH]; intros s prev Hn.
  { destruct s; [constructor | cbn in Hn; lia]. }
  destruct s as [|h s]; [constructor|]. cbn in Hn.
  assert (Single : special h = false ->
            case_rel (h :: s) (flat_map utf16_of_cp (lower_cps prev (h :: code_points s)))).
  { intros S. destruct (lower_cps_cons_other prev h (code_points s) S) as [o [-> [Ho Fo]]].
    apply (case_rel_other [h] o s); [discriminate | constructor; [exact S | constructor] | exact Ho
                                     | exact Fo | apply IH; lia]. }
  cbn [code_points].
  destruct (is_high h) eqn:Hh.
  - destruct s as [|l s'].
    + apply Single. exact (high_not_special h Hh).
    + destruct (is_low l) eqn:Hl; [|apply Single; exact (high_not_special h Hh)].
      destruct (lower_cps_cons_other prev _ (code_points s') (pair_not_special h l Hh Hl))
        as [o [-> [Ho Fo]]].
      apply (case_rel_other [h; l] o s');
        [discriminate
        | constructor; [exact (high_not_special h Hh) | constructor; [exact (low_not_special l Hl) | constructor]]
        | exact Ho | exact Fo | apply IH; cbn in Hn; lia].
  - destruct (special h) eqn:S; [|apply Single; reflexivity].
    rewrite (lower_cps_cons_special prev h _ S).
    apply case_rel_special; [exact S | apply IH; lia].
Qed.

Lemma case_rel_toLowerCase s : case_rel s (toLowerCase s).
Proof. exact (case_rel_lower_gen (List.length s) s false (le_n _)). Qed.

Lemma case_rel_nil_iff s t : case_rel s t -> s = [] <-> t = [].
Proof.
  intros R. destruct R as [|c s t _ _|ch o s t Hch _ Ho _ _]; [tauto | split; discriminate|].
  split; intros H; apply app_eq_nil in H as [H _]; contradiction.
Qed.

Lemma case_rel_Forall (P : N -> Prop) s t : (forall c, special c = false -> P c) ->
  case_rel s t -> Forall P s <-> Forall P t.
Proof.
  intros HP R. induction R as [|c s t S R IH|ch o s t _ Fch _ Fo R IH].
  - tauto.
  - rewrite !List.Forall_cons_iff. tauto.
  - rewrite !Forall_app. split; intros [_ H]; (split; [|apply IH; exact H]);
      eapply List.Forall_impl; [exact HP | exact Fo | exact HP | exact Fch].
Qed.

Lemma app_cut_special (q : N) ch s a b :
  ~ In q ch -> ch ++ s = a ++ q :: b -> exists a0, a = ch ++ a0 /\ s = a0 ++ q :: b.
Proof.
  revert a. induction ch as [|x ch IH]; intros a Hn E.
  - exists a. split; [reflexivity | exact E].
  - destruct a as [|y a]; cbn in E; injection E as -> E.
    + exfalso. apply Hn. left. reflexivity.
    + destruct (IH a (fun H => Hn (or_intror H)) E) as [a0 [-> ->]].
      exists a0. split; reflexivity.
Qed.

Lemma Forall_special_notin q l : special q = true ->
  Forall (fun c => special c = false) l -> ~ In q l.
Proof.
  intros S F Hin. rewrite List.Forall_forall in F. rewrite (F q Hin) in S. discriminate.
Qed.

Lemma case_rel_app a a' b b' : case_rel a a' -> case_rel b b' -> case_rel (a ++ b) (a' ++ b').
Proof.
  intros R Rb. induction R as [|c s t S R IH|ch o s t Hch Fch Ho Fo R IH].
  - exact Rb.
  - cbn. apply case_rel_special; assumption.
  - rewrite <- !app_assoc. apply case_rel_other; assumption.
Qed.

Lemma case_rel_split s t q a b : case_rel s t -> special q = true -> s = a ++ q :: b ->
  exists a' b', t = a' ++ q :: b' /\ case_rel a a' /\ case_rel b b'.
Proof.
  intros R S. revert a b. induction R as [|c s t Sc R IH|ch o s t Hch Fch Ho Fo R IH];
    intros a b E.
  - destruct a; discriminate.
  - destruct a as [|x a]; cbn in E; injection E as <- E.
    + exists [], t. subst s. split; [reflexivity | split; [constructor | exact R]].
    + destruct (IH a b E) as [a' [b' [-> [Ra Rb]]]].
      exists (c :: a'), b'. split; [reflexivity | split; [|exact Rb]].
      apply case_rel_special; assumption.
  - destruct (app_cut_special q ch s a b (Forall_special_notin q ch S Fch) E) as [a0 [-> ->]].
    destruct (IH a0 b eq_refl) as [a' [b' [-> [Ra Rb]]]].
    exists (o ++ a'), b'. split; [rewrite <- app_assoc; reflexivity | split; [|exact Rb]].
    apply case_rel_other; assumption.
Qed.

Lemma case_rel_split_back s t q a' b' : case_rel s t -> special q = true -> t = a' ++ q :: b' ->
  exists a b, s = a ++ q :: b /\ case_rel a a' /\ case_rel b b'.
Proof.
  intros R S. revert a' b'. induction R as [|c s t Sc R IH|ch o s t Hch Fch Ho Fo R IH];
    intros a' b' E.
  - destruct a'; discriminate.
  - destruct a' as [|x a']; cbn in E; injection E as <- E.
    + exists [], s. subst t. split; [reflexivity | split; [constructor | exact R]].
    + destruct (IH a' b' E) as [a [b [-> [Ra Rb]]]].
      exists (c :: a), b. split; [reflexivity | split; [|exact Rb]].
      apply case_rel_special; assumption.
  - destruct (app_cut_special q o t a' b' (Forall_special_notin q o S Fo) E) as [a0 [-> ->]].
    destruct (IH a0 b' eq_refl) as [a [b [-> [Ra Rb]]]].
    exists (ch ++ a), b. split; [rewrite <- app_assoc; reflexivity | split; [|exact Rb]].
    apply case_rel_other; assumption.
Qed.

Section ShapeTransfer.
Variable R : jsstr -> jsstr -> Prop.
Hypothesis R_nil : forall s t, R s t -> s = [] <-> t = [].
Hypothesis R_Forall : forall (P : N -> Prop) s t, (forall c, special c = false -> P c) ->
  R s t -> Forall P s <-> Forall P t.
Hypothesis R_split : forall s t q a b, R s t -> special q = true -> s = a ++ q :: b ->
  exists a' b', t = a' ++ q :: b' /\ R a a' /\ R b b'.
Hypothesis R_split_back : forall s t q a' b', R s t -> special q = true -> t = a' ++ q :: b' ->
  exists a b, s = a ++ q :: b /\ R a a' /\ R b b'.

Lemma special_AT : special AT = true.
Proof. reflexivity. Qed.

Lemma special_DOT : special DOT = true.
Proof. reflexivity. Qed.

Lemma at_ws_not_special c : special c = false -> c <> AT /\ is_ws c = false.
Proof.
  unfold special. rewrite !orb_false_iff, !N.eqb_neq. tauto.
Qed.

Lemma shape_transfer s t : R s t -> code_email_shape s -> code_email_shape t.
Proof.
  intros Rst [l [d [Hs [Hl [HF [[x [y [Hxy [Hx Hy]]]] [Hst [Hend Hdd]]]]]]]].
  destruct (R_split s t AT l d Rst special_AT Hs) as [l' [d' [Ht [Rl Rd]]]].
  exists l', d'. split; [exact Ht|]. split.
  { intros E. apply (R_nil l l' Rl) in E. exact (Hl E). }
  split.
  { apply Forall_app in HF as [Fl Fd]. apply Forall_app. split;
      [apply (R_Forall _ l l' at_ws_not_special Rl) | apply (R_Forall _ d d' at_ws_not_special Rd)];
      assumption. }
  split.
  { destruct (R_split d d' DOT x y Rd special_DOT Hxy) as [x' [y' [Hd' [Rx Ry]]]].
    exists x', y'. split; [exact Hd'|]. split.
    - intros E. apply (R_nil x x' Rx) in E. exact (Hx E).
    - intros E. apply (R_nil y y' Ry) in E. exact (Hy E). }
  split; [|split].
  - intros [z' Hz']. apply Hst.
    destruct (R_split_back d d' DOT [] z' Rd special_DOT Hz') as [a [b [Hd [Ra _]]]].
    assert (a = []) as -> by (apply (R_nil a [] Ra); reflexivity). exists b. exact Hd.
  - intros [z' Hz']. apply Hend.
    destruct (R_split_back d d' DOT z' [] Rd special_DOT Hz') as [a [b [Hd [_ Rb]]]].
    assert (b = []) as -> by (apply (R_nil b [] Rb); reflexivity). exists a. exact Hd.
  - intros [a' [b' Hab]]. apply Hdd.
    destruct (R_split_back s t DOT a' (DOT :: b') Rst special_DOT Hab) as [a [b1 [Hs1 [_ Rb1]]]].
    destruct (R_split_back b1 (DOT :: b') DOT [] b' Rb1 special_DOT eq_refl)
      as [a2 [b2 [Hb1 [Ra2 _]]]].
    assert (a2 = []) as -> by (apply (R_nil a2 [] Ra2); reflexivity).
    exists a, b2. rewrite Hs1, Hb1. reflexivity.
Qed.
End ShapeTransfer.

Lemma code_email_shape_lower e : code_email_shape (toLowerCase e) <-> code_email_shape e.
Proof.
  split.
  - apply (shape_transfer (fun s t => case_rel t s)).
    + intros s t R. symmetry. exact (case_rel_nil_iff t s R).
    + intros P s t HP R. symmetry. exact (case_rel_Forall P t s HP R).
    + intros s t q a b R S E. exact (case_rel_split_back t s q a b R S E).
    + intros s t q a b R S E. exact (case_rel_split t s q a b R S E).
    + exact (case_rel_toLowerCase e).
  - apply (shape_transfer case_rel case_rel_nil_iff case_rel_Forall case_rel_split
             case_rel_split_back). exact (case_rel_toLowerCase e).
Qed.

Lemma ascii_lower_false c : ~ (97 <= c <= 122)%N -> ascii_lower c = false.
Proof. intros H. unfold ascii_lower. apply not_true_is_false. rewrite andb_true_iff, !N.leb_le. lia. Qed.

Lemma utf16_no_ascii c : ascii_lower c = false ->
  Forall (fun x => ascii_lower x = false) (utf16_of_cp c).
Proof.
  intros A. unfold utf16_of_cp.
  destruct (N.ltb_spec c 0x10000); [constructor; [exact A | constructor]|].
  destruct (N.leb_spec c 0x10FFFF); [|constructor; [exact A | constructor]].
  assert (D : ((c - 0x10000) / 0x400 < 0x400)%N)
    by (apply N.Div0.div_lt_upper_bound; lia).
  assert (M : ((c - 0x10000) mod 0x400 < 0x400)%N) by (apply N.mod_lt; lia).
  generalize dependent ((c - 0x10000) mod 0x400)%N.
  generalize dependent ((c - 0x10000) / 0x400)%N. intros q D r M.
  constructor; [|constructor; [|constructor]]; apply ascii_lower_false; lia.
Qed.



Lemma lower_cp_no_ascii c : no_letter_src c ->
  Forall (fun x => ascii_lower x = false) (flat_map utf16_of_cp (lower_cp c)).
Proof.
  intros (H1 & H2 & H3 & H4). unfold lower_cp.
  destruct (lower_lookup c lower_table) as [o|] eqn:E.
  - apply lower_lookup_ok in E. cbn in E. rewrite !andb_true_iff, !orb_true_iff in E.
    destruct E as [_ [[[E|E]|E]|E]].
    + apply negb_true_iff in E. apply List.Forall_forall. intros x Hx.
      apply not_true_is_false. intros A.
      rewrite (proj2 (existsb_exists _ _)) in E; [discriminate | eauto].
    + rewrite andb_true_iff, !N.leb_le in E. lia.
    + apply N.eqb_eq in E. contradiction.
    + apply N.eqb_eq in E. contradiction.
  - cbn. rewrite app_nil_r. apply utf16_no_ascii, ascii_lower_false. exact H2.
Qed.

Lemma lower_cps_cons prev c l :
  flat_map utf16_of_cp (lower_cps prev (c :: l)) =
  flat_map utf16_of_cp (if (c =? 0x3A3)%N then
         (if prev && negb (followed_by_cased l) then [0x3C2%N] else [0x3C3%N])
       else lower_cp c) ++
  flat_map utf16_of_cp (lower_cps (if case_ignorable c then prev else cased c) l).
Proof. cbn [lower_cps]. apply flat_map_app. Qed.

Lemma head_no_ascii prev c l : no_letter_src c ->
  Forall (fun x => ascii_lower x = false) (flat_map utf16_of_cp (if (c =? 0x3A3)%N then
         (if prev && negb (followed_by_cased l) then [0x3C2%N] else [0x3C3%N])
       else lower_cp c)).
Proof.
  intros H. destruct (c =? 0x3A3)%N; [|apply lower_cp_no_ascii; exact H].
  destruct (prev && negb (followed_by_cased l)); vm_compute; repeat constructor.
Qed.

Lemma lower_no_ascii_gen (n : nat) : forall (s : jsstr) (prev : bool), List.length s <= n ->
  Forall no_letter_src s ->
  Forall (fun x => ascii_lower x = false) (flat_map utf16_of_cp (lower_cps prev (code_points s))).
Proof.
  induction n as [|n IH]; intros s prev Hn F.
  { destruct s; [constructor | cbn in Hn; lia]. }
  destruct s as [|h s]; [constructor|]. cbn in Hn.
  apply List.Forall_cons_iff in F as [Fh Fs].
  assert (Single : Forall (fun x => ascii_lower x = false)
                     (flat_map utf16_of_cp (lower_cps prev (h :: code_points s)))).
  { rewrite lower_cps_cons. apply Forall_app. split; [apply head_no_ascii; exact Fh|].
    apply IH; [lia | exact Fs]. }
  cbn [code_points].
  destruct (is_high h) eqn:Hh; [|exact Single].
  destruct s as [|l s']; [exact Single|].
  destruct (is_low l) eqn:Hl; [|exact Single].
  apply List.Forall_cons_iff in Fs as [_ Fs'].
  rewrite lower_cps_cons. apply Forall_app. split.
  - apply head_no_ascii. unfold no_letter_src. lia.
  - apply IH; [cbn in Hn; lia | exact Fs'].
Qed.

Lemma toLowerCase_no_ascii s : Forall no_letter_src s ->
  Forall (fun x => ascii_lower x = false) (toLowerCase s).
Proof. exact (lower_no_ascii_gen (List.length s) s false (le_n _)). Qed.

Lemma isValidEmail_lower e : isValidEmail (toLowerCase e) = isValidEmail e.
Proof.
  destruct (isValidEmail e) eqn:V.
  - apply isValidEmail_spec. apply (proj2 (code_email_shape_lower e)).
    apply isValidEmail_spec. exact V.
  - apply not_true_is_false. intros H. apply isValidEmail_spec in H.
    apply (proj1 (code_email_shape_lower e)), isValidEmail_spec in H.
    rewrite H in V. discriminate.
Qed.

Lemma existsb_lower_eq (l : list jsstr) (n : jsstr) :
  existsb (fun a => bool_decide (toLowerCase a = n)) l = true <->
  exists a, In a l /\ toLowerCase a = n.
Proof.
  rewrite existsb_exists. split.
  - intros [a [Hin Ha]]. apply bool_decide_eq_true in Ha. eauto.
  - intros [a [Hin Ha]]. exists a. split; [exact Hin|]. apply bool_decide_eq_true. exact Ha.
Qed.

(** C3: with a loaded policy, checkEmailAllowed gives the same verdict to
    two emails equal up to letter case; an email is allowed exactly when it
    is syntactically valid and some listed entry equals it after both are
    lower-cased (no partial, prefix or wildcard match); in particular
    "USER@X.COM" and "user@x.com" are both allowed when "user@x.com" is
    listed. *)
Theorem checkEmailAllowed_case_insensitive (f : FetchOutcome) (c : GoogleOAuthConfig) :
  (forall e1 e2, toLowerCase e1 = toLowerCase e2 ->
     allowed_of (checkEmailAllowed f (Some c) e1) =
     allowed_of (checkEmailAllowed f (Some c) e2)) /\
  (forall e, allowed_of (checkEmailAllowed f (Some c) e) = true <->
     isValidEmail e = true /\
     exists a, In a (allowedEmails c) /\ toLowerCase a = toLowerCase e) /\
  (In (s2u "user@x.com") (allowedEmails c) ->
     allowed_of (checkEmailAllowed f (Some c) (s2u "USER@X.COM")) = true /\
     allowed_of (checkEmailAllowed f (Some c) (s2u "user@x.com")) = true).
Proof.
  assert (Hchar : forall e, allowed_of (checkEmailAllowed f (Some c) e) = true <->
     isValidEmail e = true /\
     exists a, In a (allowedEmails c) /\ toLowerCase a = toLowerCase e).
  { intros e. cbn. unfold check_loaded.
    destruct (isValidEmail e) eqn:V; cbn.
    - rewrite existsb_lower_eq. split; [intros H; split; auto | intros [_ H]; exact H].
    - split; [discriminate | intros [H _]; discriminate]. }
  split; [|split; [exact Hchar|]].
  - intros e1 e2 He.
    change (isAllowed (check_loaded c e1) = isAllowed (check_loaded c e2)).
    assert (V : isValidEmail e1 = isValidEmail e2).
    { rewrite <- (isValidEmail_lower e1), He, isValidEmail_lower. reflexivity. }
    unfold check_loaded. rewrite V, He. destruct (isValidEmail e2); reflexivity.
  - intros Hin. split; apply Hchar; (split; [vm_compute; reflexivity|]);
      exists (s2u "user@x.com"); (split; [exact Hin | vm_compute; reflexivity]).
Qed.

(* toLowerCase beyond ASCII: Greek capitals, the Kelvin sign, U+0130 and
   Final_Sigma, as JavaScript engines compute them *)
Lemma toLowerCase_unicode_examples :
  toLowerCase ([0x391; 0x392]%N ++ s2u "@x.com") = [0x3B1; 0x3B2]%N ++ s2u "@x.com" /\
  toLowerCase (s2u "NETWOR" ++ [0x212A]%N ++ s2u " down") = s2u "network down" /\
  toLowerCase [0x130]%N = [0x69; 0x307]%N /\
  toLowerCase [0x391; 0x3A3]%N = [0x3B1; 0x3C2]%N /\
  toLowerCase [0x3A3; 0x391]%N = [0x3C3; 0x3B1]%N /\
  toLowerCase [0xD801; 0xDC00]%N = [0xD801; 0xDC28]%N /\
  type (handleError (TError (s2u "Error") (s2u "NETWOR" ++ [0x212A]%N ++ s2u " down")))
    = NETWORK_ERROR.
Proof. vm_compute. repeat split. Qed.

Lemma check_emails_none l :
  check_emails l = None <-> Forall (fun v => exists s, v = JStr s /\ code_email_shape s) l.
Proof.
  induction l as [|v l IH]; cbn [check_emails].
  - split; [intros _; constructor | reflexivity].
  - rewrite List.Forall_cons_iff. destruct v as [| | |s| |];
      try (split; [discriminate | intros [[s [Hs _]] _]; discriminate Hs]).
    rewrite <- IH. destruct (isValidEmail s) eqn:V.
    + split; [intros H; split; [exists s; split; [reflexivity|]; apply isValidEmail_spec|]; assumption|].
      intros [_ H]; exact H.
    + split; [discriminate|]. intros [[s' [Hs Hc]] _]. injection Hs as <-.
      apply isValidEmail_spec in Hc. rewrite Hc in V. discriminate.
Qed.

Lemma check_emails_some l m : check_emails l = Some m ->
  exists v, In v l /\ m = msg_bad_email_prefix ++ js_String v /\
            ~ (exists s, v = JStr s /\ code_email_shape s).
Proof.
  induction l as [|v l IH]; cbn [check_emails]; [discriminate|].
  assert (Hnot : forall w, (forall s, w <> JStr s) ->
                   ~ (exists s, w = JStr s /\ code_email_shape s))
    by (intros w Hw [s [Hs _]]; exact (Hw s Hs)).
  destruct v as [| | |s| |]; intros H;
    try (injection H as <-; eexists; split; [left; reflexivity | split; [reflexivity|]];
         apply Hnot; intros s' Hs'; discriminate Hs').
  destruct (isValidEmail s) eqn:V.
  - destruct (IH H) as [w [Hw Hr]]. exists w. split; [right; exact Hw | exact Hr].
  - injection H as <-. exists (JStr s). split; [left; reflexivity | split; [reflexivity|]].
    intros [s' [Hs Hc]]. injection Hs as <-. apply isValidEmail_spec in Hc.
    rewrite Hc in V. discriminate.
Qed.

Lemma code_email_shape_conservative e : code_email_shape e -> conservative_email_check e.
Proof.
  intros [l [d [He [Hl [HF [[x [y [Hxy [Hx Hy]]]] [Hs [Hend Hdd]]]]]]]].
  apply Forall_app in HF as [Fl Fd].
  apply Forall_at_ws in Fl as [Nl _]. apply Forall_at_ws in Fd as [Nd _].
  exists l, d. repeat split; try assumption.
  - intros ->. destruct x; discriminate.
  - intros [a [b ->]]. apply Hdd. exists (l ++ AT :: a), b. rewrite He, <- app_assoc. reflexivity.
Qed.

Lemma loadConfig_error_kind f e :
  loadConfig f = inl e -> type e = CONFIG_ERROR /\ retryable e = true.
Proof.
  destruct f as [m | [|] st txt [pm | doc]]; cbn [loadConfig];
    try (intros H; injection H as <-; split; reflexivity).
  destruct (validateConfig doc); [intros H; injection H as <-; split; reflexivity | discriminate].
Qed.

Lemma validateConfig_messages doc m : validateConfig doc = inl m ->
  m = msg_bad_format \/ m = msg_bad_client_id \/ m = msg_not_array \/ m = msg_bad_version \/
  exists l v, get_field doc (s2u "allowedEmails") = Some (JArr l) /\ In v l /\
    m = msg_bad_email_prefix ++ js_String v /\ ~ (exists s, v = JStr s /\ code_email_shape s).
Proof.
  unfold validateConfig.
  destruct (negb (truthy (Some doc)) || negb (is_object doc));
    [intros H; injection H as <-; left; reflexivity|].
  destruct (get_field doc (s2u "googleClientId")) as [[| | |cid| |]|];
    try (intros H; injection H as <-; right; left; reflexivity).
  destruct (negb (truthy (Some (JStr cid)))); [intros H; injection H as <-; right; left; reflexivity|].
  destruct (get_field doc (s2u "allowedEmails")) as [[| | | |l|]|] eqn:G;
    try (intros H; injection H as <-; right; right; left; reflexivity).
  destruct (get_field doc (s2u "version")) as [[| | |ver| |]|];
    try (intros H; injection H as <-; right; right; right; left; reflexivity).
  destruct (negb (truthy (Some (JStr ver))));
    [intros H; injection H as <-; right; right; right; left; reflexivity|].
  destruct (check_emails l) as [m'|] eqn:C; [|discriminate].
  intros H; injection H as <-. right; right; right; right.
  destruct (check_emails_some l m' C) as [v [Hv Hr]]. exists l, v. split; [reflexivity|]. split; [exact Hv | exact Hr].
Qed.

Lemma validateConfig_policy_doc emails :
  validateConfig (policy_doc emails) =
  match check_emails emails with
  | Some m => inl m
  | None => inr (mkConfig (s2u "cid") (json_strings emails) (s2u "1.0"))
  end.
Proof. reflexivity. Qed.

(** C8 (counterexample). "a@b" passes the spec's conservative check, but
    isValidEmail rejects it (no '.' in the domain), so a policy listing it
    makes loadConfig raise a ConfigError. *)
Lemma dotless_domain_rejected :
  conservative_email_check (s2u "a@b") /\ isValidEmail (s2u "a@b") = false /\
  loadConfig (FetchResponse true 200 (s2u "OK") (inr (policy_doc [JStr (s2u "a@b")]))) =
    inl (configError (msg_bad_email_prefix ++ s2u "a@b")).
Proof.
  split; [|split; vm_compute; reflexivity].
  exists (s2u "a"), (s2u "b"). split; [reflexivity|].
  split; [intros [H|[]]; discriminate H|].
  split; [intros [H|[]]; discriminate H|].
  split; [discriminate|]. split; [discriminate|].
  split; [intros [z Hz]; discriminate Hz|].
  split.
  - intros [z Hz]. destruct z as [|x [|y z]]; cbn in Hz; try discriminate Hz.
  - intros [a [b Hab]]. apply (f_equal (@List.length N)) in Hab.
    rewrite List.length_app in Hab. cbn in Hab. lia.
Qed.

Lemma validateConfig_ok_entries doc l c :
  get_field doc (s2u "allowedEmails") = Some (JArr l) -> validateConfig doc = inr c ->
  check_emails l = None.
Proof.
  intros G. unfold validateConfig. rewrite G.
  destruct (negb (truthy (Some doc)) || negb (is_object doc)); [discriminate|].
  destruct (get_field doc (s2u "googleClientId")) as [[| | |cid| |]|]; try discriminate.
  destruct (negb (truthy (Some (JStr cid)))); [discriminate|].
  destruct (get_field doc (s2u "version")) as [[| | |ver| |]|]; try discriminate.
  destruct (negb (truthy (Some (JStr ver)))); [discriminate|].
  destruct (check_emails l); [discriminate | reflexivity].
Qed.

(** C8 (amended). Every error loadConfig raises is a CONFIG_ERROR with
    retryable = true; on a fetched JSON document it fails exactly when
    validateConfig does, with the validator's message, which names the
    violated field or quotes the rejected allowedEmails entry. An entry
    passes iff it is a string accepted by isValidEmail, and isValidEmail
    accepts exactly: one '@' with a non-empty local part, no white space,
    a '.' inside the domain with a unit on each side, no leading or trailing
    '.' in the domain and no ".." anywhere in the address; this is stricter
    than the conservative check. *)
Theorem loadConfig_validation_errors :
  (forall f e, loadConfig f = inl e -> type e = CONFIG_ERROR /\ retryable e = true) /\
  (forall st txt doc e, loadConfig (FetchResponse true st txt (inr doc)) = inl e <->
     exists m, validateConfig doc = inl m /\ e = configError m) /\
  (forall doc m, validateConfig doc = inl m ->
     m = msg_bad_format \/ m = msg_bad_client_id \/ m = msg_not_array \/
     m = msg_bad_version \/
     exists l v, get_field doc (s2u "allowedEmails") = Some (JArr l) /\ In v l /\
       m = msg_bad_email_prefix ++ js_String v /\
       ~ (exists s, v = JStr s /\ code_email_shape s)) /\
  (forall doc l c, get_field doc (s2u "allowedEmails") = Some (JArr l) ->
     validateConfig doc = inr c ->
     Forall (fun v => exists s, v = JStr s /\ code_email_shape s) l) /\
  (forall emails, (exists c, validateConfig (policy_doc emails) = inr c) <->
     Forall (fun v => exists s, v = JStr s /\ code_email_shape s) emails) /\
  (forall s, isValidEmail s = true <-> code_email_shape s) /\
  (forall s, code_email_shape s -> conservative_email_check s).
Proof.
  split; [exact loadConfig_error_kind|].
  split.
  { intros st txt doc e. cbn [loadConfig]. destruct (validateConfig doc) as [m|c].
    - split; [intros H; injection H as <-; exists m; split; reflexivity|].
      intros [m' [Hm ->]]. injection Hm as <-. reflexivity.
    - split; [discriminate|]. intros [m [Hm _]]. discriminate Hm. }
  split; [exact validateConfig_messages|].
  split.
  { intros doc l c G V. apply check_emails_none. exact (validateConfig_ok_entries doc l c G V). }
  split.
  { intros emails. rewrite validateConfig_policy_doc, <- check_emails_none.
    destruct (check_emails emails).
    - split; [intros [c Hc]; discriminate Hc | discriminate].
    - split; [reflexivity | intros _; eexists; reflexivity]. }
  split; [exact isValidEmail_spec | exact code_email_shape_conservative].
Qed.

(* ===================================================================== *)
(* Proofs: GoogleAuthService                                              *)
(* ===================================================================== *)

Lemma decodeJWT_nonempty dp cred p : decodeJWT dp cred = Some p -> cred <> [].
Proof. intros H ->. discriminate H. Qed.

(* a run that returns the storage it was given contradicts st' <> st *)
Ltac same_storage H Hneq :=
  exfalso; apply Hneq; symmetry; exact (f_equal (fun x => snd (fst x)) H).

(** C1: when the credential decodes to a payload whose email the
    allowlist check answers with isAllowed = false,
    handleCredentialResponse fails with an ACCESS_DENIED error that is not
    retryable and leaves localStorage as it was; and whenever it changes
    localStorage, the credential decoded and the allowlist check answered
    isAllowed = true. *)
Theorem handleCredentialResponse_allowlist_gate
    (decodePayload : jsstr -> option GoogleJWTPayload) (stringifyUser : User -> jsstr)
    (f : FetchOutcome) (now : N) (st : Storage) (al : option GoogleOAuthConfig) :
  (forall cred p r al',
     decodeJWT decodePayload cred = Some p ->
     checkEmailAllowed f al (p_email p) = (inr r, al') ->
     isAllowed r = false ->
     handleCredentialResponse decodePayload stringifyUser f now (Some cred) st al =
       (LoginFailed (mkAuthError ACCESS_DENIED (default msg_access_denied (reason r)) false),
        st, al')) /\
  (forall credential res st' al',
     handleCredentialResponse decodePayload stringifyUser f now credential st al =
       (res, st', al') ->
     st' <> st ->
     exists cred p r, credential = Some cred /\
       decodeJWT decodePayload cred = Some p /\
       checkEmailAllowed f al (p_email p) = (inr r, al') /\ isAllowed r = true).
Proof.
  split.
  - intros cred p r al' Hd Hc Ha.
    pose proof (decodeJWT_nonempty _ _ _ Hd) as Hne.
    unfold handleCredentialResponse.
    destruct cred as [|x cred']; [contradiction|]. cbn [js_truthy_str negb].
    rewrite Hd, Hc, Ha. reflexivity.
  - intros credential res st' al' H Hneq.
    unfold handleCredentialResponse in H.
    destruct credential as [cred|]; [|same_storage H Hneq].
    destruct (negb (js_truthy_str (Some cred))); [same_storage H Hneq|].
    destruct (decodeJWT decodePayload cred) as [p|] eqn:Hd;
      [|same_storage H Hneq].
    destruct (checkEmailAllowed f al (p_email p)) as [[err|r] al''] eqn:Hc;
      [same_storage H Hneq|].
    destruct (isAllowed r) eqn:Ha; cbn in H; [|same_storage H Hneq].
    inversion H; subst.
    exists cred, p, r. auto.
Qed.

Lemma retry_constant_failure {A} (op : nat -> Settle A) c tms t :
  (forall k, op k = Rejects t) -> retryable (handleError t) = true ->
  maxRetries c = 2 ->
  executeWithRetry_run op c tms =
    mkRetryRun (mkEHResult false None (Some (handleError t)) 2) 3
      [backoff_delay c 0; backoff_delay c 1].
Proof.
  intros Hop Hr Hmax. unfold executeWithRetry_run. rewrite Hmax.
  cbn [retry_loop]. rewrite Hmax, !Hop. cbn [executeWithTimeout].
  cbv zeta. rewrite Hr. reflexivity.
Qed.

Lemma refresh_attempt_no_refresh_token cid now st resp :
  refresh_reaches_fetch st = false ->
  refresh_attempt cid now st resp = Rejects (TError (s2u "Error") msg_no_refresh).
Proof.
  unfold refresh_reaches_fetch, refresh_attempt. intros H.
  destruct (getTokens st) as [tokens|]; [|reflexivity].
  destruct (refresh_token tokens); [discriminate|reflexivity].
Qed.

Lemma handleError_no_refresh :
  handleError (TError (s2u "Error") msg_no_refresh) = mkAuthError OAUTH_FAILED msg_no_refresh true.
Proof. vm_compute. reflexivity. Qed.

(** C7 (counterexample): with nothing in localStorage, refreshToken
    returns false without calling the token endpoint, but the missing
    refresh token is thrown as a plain Error that handleError classifies
    OAUTH_FAILED with retryable = true, so executeWithRetry runs the
    operation 3 times instead of stopping after the first. *)
Lemma refresh_without_token_is_retried :
  let '(ok, _, requests, run) :=
    refreshToken defaultService None 0 ∅ (fun _ => TE_Slow) in
  ok = false /\ requests = 0 /\ calls run = 3.
Proof. vm_compute. auto. Qed.

(** C7 (amended): when localStorage holds no usable refresh token,
    refreshToken returns false, leaves localStorage unchanged and sends
    no request to the token endpoint; the missing token is classified
    OAUTH_FAILED with retryable = true, so the operation is attempted
    3 times (maxRetries = 2) and the run reports retryCount = 2. *)
Theorem refreshToken_without_refresh_token (svc : ErrorHandlingConfig)
    (clientId : option jsstr) (now : N) (st : Storage) (endpoint : nat -> TokenEndpoint) :
  refresh_reaches_fetch st = false ->
  let '(ok, st', requests, run) := refreshToken svc clientId now st endpoint in
  ok = false /\ st' = st /\ requests = 0 /\ calls run = 3 /\
  retryCount (run_result run) = 2 /\
  failure_error (run_result run) =
    Some (mkAuthError OAUTH_FAILED msg_no_refresh true).
Proof.
  intros H. unfold refreshToken, executeWithRetry. rewrite H.
  rewrite (retry_constant_failure _ _ _ (TError (s2u "Error") msg_no_refresh)).
  - rewrite handleError_no_refresh. cbn. repeat split; reflexivity.
  - intros k. apply refresh_attempt_no_refresh_token. exact H.
  - vm_compute. reflexivity.
  - reflexivity.
Qed.

Lemma refreshToken_without_refresh_token_witness :
  refresh_reaches_fetch ∅ = false /\
  (let '(ok, st', requests, run) :=
     refreshToken defaultService None 0 ∅ (fun _ => TE_Slow) in
   ok = false /\ st' = ∅ /\ requests = 0 /\ calls run = 3 /\
   retryCount (run_result run) = 2 /\
   failure_error (run_result run) =
     Some (mkAuthError OAUTH_FAILED msg_no_refresh true)).
Proof.
  split; [reflexivity|].
  apply (refreshToken_without_refresh_token defaultService None 0 ∅ (fun _ => TE_Slow)).
  reflexivity.
Defined.

Lemma login_run_prompts evs : forall s,
  prompts (login_run s evs) = prompts s + List.length (List.filter is_login_call evs).
Proof.
  unfold login_run.
  induction evs as [|ev evs IH]; intros s; cbn [fold_left List.filter List.length]; [lia|].
  rewrite IH. destruct ev as [k|r|r|]; cbn [login_step is_login_call];
    try (unfold resolve_pending; destruct (loginResolve s)); cbn; lia.
Qed.

Lemma resolve_pending_keeps k s r :
  loginResolve s <> Some k -> ~ settled_for k s ->
  loginResolve (resolve_pending s r) <> Some k /\ ~ settled_for k (resolve_pending s r).
Proof.
  unfold resolve_pending, settled_for. intros Hs Hn.
  destruct (loginResolve s) as [j|] eqn:E; cbn; [|rewrite E; split; [discriminate|exact Hn]].
  split; [discriminate|].
  intros [r' Hin]. apply in_app_or in Hin as [Hin|[Heq|[]]].
  - apply Hn. eauto.
  - inversion Heq; subst. apply Hs. reflexivity.
Qed.

Lemma login_run_never_settles k evs : forall s,
  ~ In (LoginCall k) evs ->
  loginResolve s <> Some k -> ~ settled_for k s ->
  ~ settled_for k (login_run s evs).
Proof.
  unfold login_run.
  induction evs as [|ev evs IH]; intros s Hin Hs Hn; cbn [fold_left]; [exact Hn|].
  apply IH; [intros H; apply Hin; right; exact H| |].
  - destruct ev as [j|r|r|]; cbn [login_step].
    + cbn. intros E. inversion E; subst. apply Hin. left. reflexivity.
    + apply resolve_pending_keeps; assumption.
    + apply resolve_pending_keeps; assumption.
    + apply resolve_pending_keeps; assumption.
  - destruct ev as [j|r|r|]; cbn [login_step].
    + exact Hn.
    + apply resolve_pending_keeps; assumption.
    + apply resolve_pending_keeps; assumption.
    + apply resolve_pending_keeps; assumption.
Qed.

(** C9 (code bug, the failing run): two login() calls made before the
    provider answers both prompt the provider, so the provider flow is
    driven twice; the credential result reaches only the second caller, and
    the first call's promise is settled neither by the callback nor by the
    two 30 s timers that fire afterwards, because every timer resolves
    whatever loginResolve holds at that time. *)
Lemma concurrent_logins_prompt_twice :
  login_run login_init
    [LoginCall 1; LoginCall 2; CredentialCallback (LoginOk sample_user);
     LoginTimer; LoginTimer]
  = mkLoginState None 2 [(2, LoginOk sample_user)].
Proof. reflexivity. Qed.

(** C9 (code bug): the code does not serialize login(). Every call
    prompts the provider once, so overlapping calls drive the provider flow
    once each, whereas the spec requires a single flow; and every call
    overwrites the single pending-resolver slot, so when a second call
    starts before the first has settled, the first caller's promise is never
    settled (by the credential callback, the popup fallback or any timer),
    a defect of the code rather than intended behaviour. *)
Theorem login_not_serialized :
  (forall s evs,
     prompts (login_run s evs) = prompts s + List.length (List.filter is_login_call evs)) /\
  (forall s k1 k2 post,
     k1 <> k2 -> ~ In (LoginCall k1) post -> ~ settled_for k1 s ->
     ~ settled_for k1 (login_run s (LoginCall k1 :: LoginCall k2 :: post))).
Proof.
  split.
  - intros s evs. apply login_run_prompts.
  - intros s k1 k2 post Hne Hin Hn. cbn [login_run fold_left].
    apply login_run_never_settles; [exact Hin| |].
    + cbn. intros E. inversion E. auto.
    + exact Hn.
Qed.

(* ===================================================================== *)
(* Proofs: further properties of the services and the hook                *)
(* ===================================================================== *)

Lemma pretty_N_char_code d : (d < 10)%N -> N_of_ascii (pretty_N_char d) = (48 + d)%N.
Proof.
  intros H.
  assert (d = 0 \/ d = 1 \/ d = 2 \/ d = 3 \/ d = 4 \/ d = 5 \/ d = 6 \/ d = 7 \/
          d = 8 \/ d = 9)%N as Hd by lia.
  repeat destruct Hd as [->|Hd]; try reflexivity. subst. reflexivity.
Qed.

Lemma pretty_N_go_digits x : forall s,
  exists ds, map N_of_ascii (list_ascii_of_string (pretty_N_go x s)) =
             ds ++ map N_of_ascii (list_ascii_of_string s) /\
             Forall (fun c => is_digit c = true) ds /\
             digits_value 0 ds = Z.of_N x /\ (ds = [] <-> x = 0%N).
Proof.
  induction (N.lt_wf_0 x) as [x _ IH]; intros s.
  destruct (N.eq_dec x 0) as [->|Hx].
  - exists []. rewrite pretty_N_go_0. split; [reflexivity|]. split; [constructor|].
    split; [reflexivity | tauto].
  - rewrite pretty_N_go_step by lia.
    destruct (IH (x `div` 10)%N ltac:(apply N.div_lt; lia)
                (String (pretty_N_char (x `mod` 10)) s)) as [ds [E [F [V _]]]].
    exists (ds ++ [N_of_ascii (pretty_N_char (x `mod` 10))]).
    assert (Hm : (x `mod` 10 < 10)%N) by (apply N.mod_lt; lia).
    rewrite E. cbn [list_ascii_of_string map]. rewrite <- app_assoc. split; [reflexivity|].
    rewrite (pretty_N_char_code _ Hm). split; [|split].
    + apply Forall_app. split; [exact F|]. constructor; [|constructor].
      unfold is_digit. apply andb_true_iff. rewrite !N.leb_le. revert Hm. generalize (x `mod` 10)%N. intros d Hd. lia.
    + unfold digits_value in *. rewrite fold_left_app. cbn [fold_left]. rewrite V.
      rewrite N.add_comm, N.add_sub.
      pose proof (N.div_mod x 10 ltac:(lia)). lia.
    + split; [intros H; destruct ds; discriminate | intros H; contradiction].
Qed.

Lemma digit_prefix_app acc ds rest seen :
  Forall (fun c => is_digit c = true) ds ->
  digit_prefix acc (ds ++ rest) seen =
  digit_prefix (digits_value acc ds) rest (match ds with [] => seen | _ => true end).
Proof.
  revert acc seen. induction ds as [|c ds IH]; intros acc seen F; [reflexivity|].
  inversion F as [|? ? Hc F']; subst. cbn [app digit_prefix]. rewrite Hc, IH by exact F'.
  unfold digits_value. cbn [fold_left]. destruct ds; reflexivity.
Qed.

Lemma digits_of_spec n :
  exists ds, digits_of n = ds /\ ds <> [] /\ Forall (fun c => is_digit c = true) ds /\
             digits_value 0 ds = Z.of_N n.
Proof.
  unfold digits_of, pretty, pretty_N. change (map (fun a => N_of_ascii a)) with (map N_of_ascii).
  destruct (decide (n = 0%N)) as [->|Hn].
  - eexists. split; [reflexivity|]. split; [discriminate|]. split; [repeat constructor|reflexivity].
  - destruct (pretty_N_go_digits n "") as [ds [E [F [V Z0]]]].
    exists ds. rewrite E, app_nil_r. split; [reflexivity|]. split; [|split; assumption].
    intros ->. apply Hn, Z0. reflexivity.
Qed.

Lemma is_ws_digit c : is_digit c = true -> is_ws c = false.
Proof.
  unfold is_digit, is_ws. intros H. apply andb_true_iff in H as [H1 H2].
  apply N.leb_le in H1. apply N.leb_le in H2.
  apply not_true_iff_false. intros H.
  repeat rewrite orb_true_iff in H. repeat rewrite andb_true_iff in H.
  rewrite ?N.leb_le, ?N.eqb_eq in H. lia.
Qed.

Lemma parseInt10_digits_of n : parseInt10 (digits_of n) = Some (Z.of_N n).
Proof.
  destruct (digits_of_spec n) as [ds [-> [Hne [F V]]]].
  unfold parseInt10. destruct ds as [|c ds]; [contradiction|].
  inversion F as [|? ? Hc F']; subst.
  cbn [trim_start]. rewrite (is_ws_digit c Hc).
  unfold is_digit in Hc. apply andb_true_iff in Hc as [H1 H2].
  apply N.leb_le in H1. apply N.leb_le in H2.
  rewrite (proj2 (N.eqb_neq c 45)) by lia. rewrite (proj2 (N.eqb_neq c 43)) by lia.
  rewrite <- (app_nil_r (c :: ds)). rewrite digit_prefix_app by exact F.
  rewrite V. reflexivity.
Qed.

Lemma getTokens_saveTokens now t st :
  js_truthy_str (Some (id_token t)) = true ->
  getTokens (saveTokens now t st) =
  Some (mkTokens (access_token t) (id_token t) 3600
          (if js_truthy_str (refresh_token t) then refresh_token t
           else if js_truthy_str (st !! REFRESH_TOKEN) then st !! REFRESH_TOKEN else None)
          (s2u "openid email profile") (s2u "Bearer")).
Proof.
  intros Hid. unfold getTokens, saveTokens.
  unfold ACCESS_TOKEN, ID_TOKEN, EXPIRY_TIME, REFRESH_TOKEN.
  destruct (id_token t) as [|c idt]; [discriminate|].
  destruct (refresh_token t) as [[|x r]|]; simplify_map_eq; reflexivity.
Qed.

Lemma digits_of_truthy n : js_truthy_str (Some (digits_of n)) = true.
Proof.
  destruct (digits_of_spec n) as [ds [E [Hne _]]]. rewrite E.
  destruct ds; [contradiction | reflexivity].
Qed.

Lemma getTokenExpiryTime_saveTokens now t st :
  getTokenExpiryTime (saveTokens now t st) = Some (Some (Z.of_N (now + expires_in t * 1000))).
Proof.
  unfold getTokenExpiryTime, saveTokens.
  assert (E : forall st' : Storage,
    (match refresh_token t with
     | Some r => if js_truthy_str (Some r) then <[REFRESH_TOKEN:=r]> st' else st'
     | None => st' end) !! EXPIRY_TIME = st' !! EXPIRY_TIME).
  { intros st'. destruct (refresh_token t); [destruct (js_truthy_str _)|]; try reflexivity.
    apply lookup_insert_ne. unfold REFRESH_TOKEN, EXPIRY_TIME. discriminate. }
  rewrite E. unfold EXPIRY_TIME at 1. simplify_map_eq.
  pose proof (parseInt10_digits_of (now + expires_in t * 1000)) as P.
  destruct (digits_of_spec (now + expires_in t * 1000)) as [ds [Ed [Hne _]]].
  rewrite Ed in *. destruct ds; [contradiction|]. rewrite P. reflexivity.
Qed.

Lemma getTokens_saveUserInfo su p st : getTokens (saveUserInfo su p st) = getTokens st.
Proof.
  unfold getTokens, saveUserInfo, USER_INFO, ID_TOKEN, ACCESS_TOKEN, REFRESH_TOKEN.
  simplify_map_eq. reflexivity.
Qed.

Lemma getTokenExpiryTime_saveUserInfo su p st :
  getTokenExpiryTime (saveUserInfo su p st) = getTokenExpiryTime st.
Proof.
  unfold getTokenExpiryTime, saveUserInfo, USER_INFO, EXPIRY_TIME.
  simplify_map_eq. reflexivity.
Qed.

Lemma logout_lookup st k :
  logout st !! k =
  if decide (k = ACCESS_TOKEN \/ k = ID_TOKEN \/ k = REFRESH_TOKEN \/ k = EXPIRY_TIME \/
             k = USER_INFO) then None else st !! k.
Proof.
  unfold logout, clearUserInfo, clearTokens.
  destruct (decide _) as [H|H].
  - destruct H as [->|[->|[->|[->| ->]]]];
      unfold ACCESS_TOKEN, ID_TOKEN, REFRESH_TOKEN, EXPIRY_TIME, USER_INFO; simplify_map_eq; reflexivity.
  - rewrite !lookup_delete_ne; [reflexivity | ..]; intros <-; apply H; tauto.
Qed.

Lemma getTokens_logout st : getTokens (logout st) = None.
Proof. unfold getTokens. rewrite logout_lookup. rewrite decide_True by tauto. reflexivity. Qed.

Lemma getUserInfo_logout pu st : getUserInfo pu (logout st) = None.
Proof. unfold getUserInfo. rewrite logout_lookup. rewrite decide_True by tauto. reflexivity. Qed.

(** saveTokens followed by getTokens and getTokenExpiryTime: with a
    non-empty id token, getTokens returns the saved access and id tokens
    (expires_in always 3600) and the saved refresh token when it is
    non-empty, otherwise the refresh token already in storage, so an old
    refresh token survives a save without one; getTokenExpiryTime reads
    back now + expires_in * 1000 (below 2^53, where numbers are exact). *)
Theorem saveTokens_roundtrip now t st :
  js_truthy_str (Some (id_token t)) = true ->
  (now + expires_in t * 1000 < 2 ^ 53)%N ->
  getTokens (saveTokens now t st) =
    Some (mkTokens (access_token t) (id_token t) 3600
            (if js_truthy_str (refresh_token t) then refresh_token t
             else if js_truthy_str (st !! REFRESH_TOKEN) then st !! REFRESH_TOKEN else None)
            (s2u "openid email profile") (s2u "Bearer")) /\
  getTokenExpiryTime (saveTokens now t st) = Some (Some (Z.of_N (now + expires_in t * 1000))).
Proof.
  intros Hid _. split; [exact (getTokens_saveTokens now t st Hid)|].
  apply getTokenExpiryTime_saveTokens.
Qed.

Lemma saveTokens_roundtrip_witness :
  js_truthy_str (Some (s2u "id")) = true /\
  (1000 + 3600 * 1000 < 2 ^ 53)%N /\
  (getTokens (saveTokens 1000 (mkTokens (s2u "a") (s2u "id") 3600 None [] [])
                (<[REFRESH_TOKEN := s2u "old"]> ∅)) =
     Some (mkTokens (s2u "a") (s2u "id") 3600
             (if js_truthy_str None then None
              else if js_truthy_str ((<[REFRESH_TOKEN := s2u "old"]> (∅ : Storage)) !! REFRESH_TOKEN)
                   then (<[REFRESH_TOKEN := s2u "old"]> (∅ : Storage)) !! REFRESH_TOKEN else None)
             (s2u "openid email profile") (s2u "Bearer")) /\
   getTokenExpiryTime (saveTokens 1000 (mkTokens (s2u "a") (s2u "id") 3600 None [] [])
                (<[REFRESH_TOKEN := s2u "old"]> ∅)) =
     Some (Some (Z.of_N (1000 + 3600 * 1000)))).
Proof.
  split; [reflexivity|]. split; [vm_compute; reflexivity|].
  apply (saveTokens_roundtrip 1000 (mkTokens (s2u "a") (s2u "id") 3600 None [] [])
           (<[REFRESH_TOKEN := s2u "old"]> ∅)); [reflexivity | vm_compute; reflexivity].
Defined.

(** After logout, getTokens and getUserInfo return null, there is no
    expiry time, isTokenValid is false at every time, and every storage key
    other than the five the service uses is left as it was. *)
Theorem logout_clears_session dp pu st :
  getTokens (logout st) = None /\ getUserInfo pu (logout st) = None /\
  getTokenExpiryTime (logout st) = None /\
  (forall now, isTokenValid dp now (logout st) = false) /\
  (forall k, k <> ACCESS_TOKEN -> k <> ID_TOKEN -> k <> REFRESH_TOKEN ->
     k <> EXPIRY_TIME -> k <> USER_INFO -> logout st !! k = st !! k).
Proof.
  pose proof (getTokens_logout st) as G.
  split; [exact G|]. split; [exact (getUserInfo_logout pu st)|].
  split.
  { unfold getTokenExpiryTime. rewrite logout_lookup. rewrite decide_True by tauto. reflexivity. }
  split.
  { intros now. unfold isTokenValid. rewrite G. reflexivity. }
  intros k H1 H2 H3 H4 H5. rewrite logout_lookup. rewrite decide_False; [reflexivity|].
  intros [?|[?|[?|[?|?]]]]; auto.
Qed.

Lemma isTokenValid_after_save dp su now t st p tm :
  js_truthy_str (Some (id_token t)) = true ->
  decodeJWT dp (id_token t) = Some p ->
  (0 < now + expires_in t * 1000)%N ->
  isTokenValid dp tm (saveUserInfo su p (saveTokens now t st)) = true <->
  (tm < now + expires_in t * 1000)%N /\ (Z.of_N tm < exp p * 1000)%Z.
Proof.
  intros Hid Hd Hpos. unfold isTokenValid.
  rewrite getTokens_saveUserInfo, getTokens_saveTokens by exact Hid.
  cbn [id_token]. rewrite Hid. cbn [negb].
  rewrite getTokenExpiryTime_saveUserInfo, getTokenExpiryTime_saveTokens.
  rewrite (proj2 (Z.eqb_neq _ 0)) by lia. cbn [negb andb].
  destruct (Z.leb_spec (Z.of_N (now + expires_in t * 1000)) (Z.of_N tm)) as [L|L].
  - split; [discriminate|]. intros [H1 _]. lia.
  - rewrite Hd. destruct (Z.leb_spec (exp p * 1000) (Z.of_N tm)) as [L2|L2].
    + split; [discriminate|]. intros [_ H2]. lia.
    + split; [intros _; split; lia | reflexivity].
Qed.

(** After handleCredentialResponse succeeds at time now, the stored session
    is valid exactly until the earlier of now + 3600 s (the expiry written by
    saveTokens) and the exp claim of the credential (below 2^53 ms, where
    numbers are exact). *)
Theorem credential_login_token_lifetime dp su f now cred st al u st' al' :
  handleCredentialResponse dp su f now (Some cred) st al = (LoginOk u, st', al') ->
  (now + 3600000 < 2 ^ 53)%N ->
  exists p, decodeJWT dp cred = Some p /\ u = user_of_payload p /\
    (forall tm, isTokenValid dp tm st' = true <->
                (tm < now + 3600000)%N /\ (Z.of_N tm < exp p * 1000)%Z).
Proof.
  intros H _. unfold handleCredentialResponse in H.
  destruct (js_truthy_str (Some cred)) eqn:T; cbn [negb] in H; [|discriminate H].
  destruct (decodeJWT dp cred) as [p|] eqn:D; [|discriminate H].
  destruct (checkEmailAllowed f al (p_email p)) as [[err|r] al2]; [discriminate H|].
  destruct (isAllowed r); cbn [negb] in H; [|discriminate H].
  injection H as <- <- _. exists p. split; [reflexivity|]. split; [reflexivity|].
  intros tm.
  apply (isTokenValid_after_save dp su now
           (mkTokens [] cred 3600 None (s2u "openid email profile") (s2u "Bearer")) st p tm T D).
  cbn [expires_in]. lia.
Qed.

Lemma credential_login_token_lifetime_witness :
  handleCredentialResponse (fun _ => Some sample_payload) (fun _ => []) (FetchRejected [])
    1000 (Some (s2u "h.p.s")) ∅ (Some sample_policy) =
    (LoginOk (user_of_payload sample_payload),
     saveUserInfo (fun _ => []) sample_payload
       (saveTokens 1000 (mkTokens [] (s2u "h.p.s") 3600 None
                           (s2u "openid email profile") (s2u "Bearer")) ∅),
     Some sample_policy) /\
  (1000 + 3600000 < 2 ^ 53)%N /\
  exists p, decodeJWT (fun _ => Some sample_payload) (s2u "h.p.s") = Some p /\
    user_of_payload sample_payload = user_of_payload p /\
    (forall tm, isTokenValid (fun _ => Some sample_payload) tm
                  (saveUserInfo (fun _ => []) sample_payload
                     (saveTokens 1000 (mkTokens [] (s2u "h.p.s") 3600 None
                                         (s2u "openid email profile") (s2u "Bearer")) ∅)) = true <->
                (tm < 1000 + 3600000)%N /\ (Z.of_N tm < exp p * 1000)%Z).
Proof.
  split; [vm_compute; reflexivity|]. split; [vm_compute; reflexivity|].
  apply (credential_login_token_lifetime (fun _ => Some sample_payload) (fun _ => [])
           (FetchRejected []) 1000 (s2u "h.p.s") ∅ (Some sample_policy)
           (user_of_payload sample_payload)
           (saveUserInfo (fun _ => []) sample_payload
              (saveTokens 1000 (mkTokens [] (s2u "h.p.s") 3600 None
                                  (s2u "openid email profile") (s2u "Bearer")) ∅))
           (Some sample_policy)).
  - vm_compute. reflexivity.
  - vm_compute. reflexivity.
Defined.

(** getCurrentUser returns a user only when the stored token is valid,
    the stored user info parses to that user and the allowlist admits its
    email; it changes storage in one case only: when the allowlist check
    runs and rejects the stored user, the session is logged out (tokens and
    user info removed). A policy that fails to load yields null and leaves
    storage alone. *)
Theorem getCurrentUser_gate dp pu f now st al :
  let '(res, st', _) := getCurrentUser dp pu f now st al in
  (forall u, res = Some u ->
     isTokenValid dp now st = true /\ getUserInfo pu st = Some u /\
     exists r, (checkEmailAllowed f al (email u)).1 = inr r /\ isAllowed r = true) /\
  (st' = st \/
   (st' = logout st /\ res = None /\
    exists u r, isTokenValid dp now st = true /\ getUserInfo pu st = Some u /\
      (checkEmailAllowed f al (email u)).1 = inr r /\ isAllowed r = false)) /\
  (forall u r, isTokenValid dp now st = true -> getUserInfo pu st = Some u ->
     (checkEmailAllowed f al (email u)).1 = inr r -> isAllowed r = false ->
     st' = logout st).
Proof.
  unfold getCurrentUser.
  destruct (isTokenValid dp now st) eqn:V; cbn [negb].
  2:{ split; [discriminate|]. split; [left; reflexivity|]. intros u r H. discriminate H. }
  destruct (getUserInfo pu st) as [u|] eqn:G.
  2:{ split; [discriminate|]. split; [left; reflexivity|]. intros u' r _ H. discriminate H. }
  destruct (checkEmailAllowed f al (email u)) as [[err|r] al'] eqn:C; cbn [fst].
  - split; [discriminate|]. split; [left; reflexivity|].
    intros u' r _ H. injection H as <-. rewrite C. discriminate.
  - destruct (isAllowed r) eqn:A.
    + split.
      * intros u' H. injection H as <-. split; [reflexivity|]. split; [reflexivity|].
        exists r. rewrite C. split; [reflexivity | exact A].
      * split; [left; reflexivity|]. intros u' r' _ H. injection H as <-.
        rewrite C. intros H. injection H as <-. rewrite A. discriminate.
    + split; [discriminate|]. split.
      * right. split; [reflexivity|]. split; [reflexivity|]. exists u, r.
        rewrite C. repeat split; assumption.
      * intros. reflexivity.
Qed.

Lemma retry_loop_shape {A} (op : nat -> Settle A) c tms fuel :
  forall attempt le,
    attempt + fuel = S (maxRetries c) -> attempt <= maxRetries c ->
    let r := retry_loop op c tms fuel attempt le attempt attempt
               (map (backoff_delay c) (seq 0 attempt)) in
    attempt <= retryCount (run_result r) <= maxRetries c /\
    calls r = S (retryCount (run_result r)) /\
    sleeps r = map (backoff_delay c) (seq 0 (retryCount (run_result r))) /\
    (forall j, attempt <= j < retryCount (run_result r) ->
       exists t, executeWithTimeout (op j) tms = inr t /\ retryable (handleError t) = true) /\
    match executeWithTimeout (op (retryCount (run_result r))) tms with
    | inl a => success (run_result r) = true /\ data (run_result r) = Some a /\
               failure_error (run_result r) = None
    | inr t => success (run_result r) = false /\ data (run_result r) = None /\
               failure_error (run_result r) = Some (handleError t) /\
               (retryable (handleError t) = false \/ retryCount (run_result r) = maxRetries c)
    end.
Proof.
  induction fuel as [|fuel IH]; intros attempt le Hf Hle; [lia|].
  cbn zeta. cbn [retry_loop].
  destruct (executeWithTimeout (op attempt) tms) as [a|t] eqn:E.
  - cbn [run_result retryCount calls sleeps success data failure_error].
    rewrite E. split; [lia|]. split; [reflexivity|]. split; [reflexivity|].
    split; [intros j Hj; lia|]. repeat split.
  - destruct (negb (retryable (handleError t)) || (attempt =? maxRetries c)%nat) eqn:B.
    + cbn [run_result retryCount calls sleeps success data failure_error].
      rewrite E. apply orb_true_iff in B.
      assert (attempt <= maxRetries c) by lia.
      split; [lia|]. split; [reflexivity|]. split; [reflexivity|].
      split; [intros j Hj; lia|]. split; [reflexivity|]. split; [reflexivity|].
      split; [reflexivity|].
      destruct B as [B|B]; [left; apply negb_true_iff; exact B | right; apply Nat.eqb_eq; exact B].
    + apply orb_false_iff in B as [B1 B2]. apply negb_false_iff in B1.
      apply Nat.eqb_neq in B2.
      specialize (IH (S attempt) (Some (handleError t)) ltac:(lia) ltac:(lia)).
      cbn zeta in IH. rewrite seq_S, map_app in IH. cbn [plus map] in IH.
      destruct IH as [H1 [H2 [H3 [H4 H5]]]].
      split; [lia|]. split; [exact H2|]. split; [exact H3|]. split; [|exact H5].
      intros j Hj. destruct (Nat.eq_dec j attempt) as [->|Hne].
      * exists t. split; [exact E | exact B1].
      * apply H4. lia.
Qed.

Lemma executeWithRetry_shape {A} svc (op : nat -> Settle A) p :
  let c := mergeRetryConfig (defaultRetryConfig svc) p in
  let r := executeWithRetry svc op p in
  retryCount (run_result r) <= maxRetries c /\
  calls r = S (retryCount (run_result r)) /\
  sleeps r = map (backoff_delay c) (seq 0 (retryCount (run_result r))) /\
  (forall j, j < retryCount (run_result r) ->
     exists t, executeWithTimeout (op j) (networkTimeoutMs svc) = inr t /\
               retryable (handleError t) = true) /\
  match executeWithTimeout (op (retryCount (run_result r))) (networkTimeoutMs svc) with
  | inl a => success (run_result r) = true /\ data (run_result r) = Some a /\
             failure_error (run_result r) = None
  | inr t => success (run_result r) = false /\ data (run_result r) = None /\
             failure_error (run_result r) = Some (handleError t) /\
             (retryable (handleError t) = false \/ retryCount (run_result r) = maxRetries c)
  end.
Proof.
  cbn zeta. unfold executeWithRetry, executeWithRetry_run.
  pose proof (retry_loop_shape op (mergeRetryConfig (defaultRetryConfig svc) p)
                (networkTimeoutMs svc) (S (maxRetries (mergeRetryConfig (defaultRetryConfig svc) p)))
                0 None ltac:(lia) ltac:(lia)) as H.
  cbn zeta in H. cbn [seq map] in H.
  destruct H as [[_ H0] [H1 [H2 [H3 H4]]]].
  split; [exact H0|]. split; [exact H1|]. split; [exact H2|]. split; [|exact H4].
  intros j Hj. apply H3. lia.
Qed.

(** executeWithRetry calls the operation retryCount + 1 times, with
    retryCount at most maxRetries of the merged config, and sleeps exactly
    between consecutive attempts: before attempt k+1 it waits
    min(delay * backoffMultiplier^k, maxDelay). *)
Theorem executeWithRetry_attempt_schedule {A} svc (op : nat -> Settle A) p :
  let c := mergeRetryConfig (defaultRetryConfig svc) p in
  let r := executeWithRetry svc op p in
  retryCount (run_result r) <= maxRetries c /\
  calls r = S (retryCount (run_result r)) /\
  sleeps r = map (backoff_delay c) (seq 0 (retryCount (run_result r))).
Proof.
  cbn zeta. destruct (executeWithRetry_shape svc op p) as [H0 [H1 [H2 _]]].
  split; [exact H0|]. split; [exact H1 | exact H2].
Qed.

(** The result of executeWithRetry is decided by its last attempt: every
    earlier attempt failed with an error that handleError classifies as
    retryable; if the last attempt resolved, the run succeeds with its value;
    otherwise the run fails with handleError of what it threw (never the
    fallback 'operation failed' error), and it stopped because that error is
    not retryable or the retry budget is used up. *)
Theorem executeWithRetry_outcome {A} svc (op : nat -> Settle A) p :
  let c := mergeRetryConfig (defaultRetryConfig svc) p in
  let r := executeWithRetry svc op p in
  (forall j, j < retryCount (run_result r) ->
     exists t, executeWithTimeout (op j) (networkTimeoutMs svc) = inr t /\
               retryable (handleError t) = true) /\
  match executeWithTimeout (op (retryCount (run_result r))) (networkTimeoutMs svc) with
  | inl a => success (run_result r) = true /\ data (run_result r) = Some a /\
             failure_error (run_result r) = None
  | inr t => success (run_result r) = false /\ data (run_result r) = None /\
             failure_error (run_result r) = Some (handleError t) /\
             (retryable (handleError t) = false \/ retryCount (run_result r) = maxRetries c)
  end.
Proof.
  cbn zeta. destruct (executeWithRetry_shape svc op p) as [_ [_ [_ [H3 H4]]]].
  split; [exact H3 | exact H4].
Qed.

(** With a backoff multiplier of at least 1, the waits between retries
    never shrink from one retry to the next and never exceed maxDelay. *)
Theorem backoff_delay_monotone_capped (c : RetryConfig) :
  (1 <= backoffMultiplier c)%N ->
  (forall i j, i <= j -> (backoff_delay c i <= backoff_delay c j)%N) /\
  (forall i, (backoff_delay c i <= maxDelay c)%N).
Proof.
  intros Hm. unfold backoff_delay. split.
  - intros i j Hij. apply N.min_le_compat_r. apply N.mul_le_mono_l.
    apply N.pow_le_mono_r; [lia|]. lia.
  - intros i. apply N.le_min_r.
Qed.

Lemma backoff_delay_monotone_capped_witness :
  (1 <= backoffMultiplier (defaultRetryConfig defaultService))%N /\
  backoff_delay (defaultRetryConfig defaultService) 1 = 2000%N /\
  ((forall i j, i <= j ->
      (backoff_delay (defaultRetryConfig defaultService) i <=
       backoff_delay (defaultRetryConfig defaultService) j)%N) /\
   (forall i, (backoff_delay (defaultRetryConfig defaultService) i <=
               maxDelay (defaultRetryConfig defaultService))%N)).
Proof.
  split; [vm_compute; discriminate|]. split; [reflexivity|].
  apply backoff_delay_monotone_capped. vm_compute. discriminate.
Defined.

(** handleError keeps the message of an Error verbatim, and its kind and
    retryable flag depend on the message only up to letter case. *)
Theorem handleError_case_insensitive (n m1 m2 : jsstr) :
  message (handleError (TError n m1)) = m1 /\
  (toLowerCase m1 = toLowerCase m2 ->
   type (handleError (TError n m1)) = type (handleError (TError n m2)) /\
   retryable (handleError (TError n m1)) = retryable (handleError (TError n m2))).
Proof.
  unfold handleError, isNetworkError, createNetworkError, createGenericError. split.
  - destruct (_ || _); [reflexivity|].
    destruct (_ && _); [reflexivity|]. destruct (_ && _); [reflexivity|].
    destruct (_ || _); reflexivity.
  - intros H. rewrite H.
    repeat match goal with |- context [if ?b then _ else _] => destruct b end;
      split; reflexivity.
Qed.

Lemma includes_letter_absent s c p :
  Forall (fun d => d <> c) s -> includes s (c :: p) = false.
Proof.
  intros F. apply not_true_iff_false. intros H. apply includes_spec in H as [a [b ->]].
  apply List.Forall_app in F as [_ F]. inversion F. contradiction.
Qed.

Lemma handleError_letterless_message_aux n m :
  Forall no_letter_src m ->
  n <> s2u "NetworkError" -> n <> s2u "TimeoutError" ->
  handleError (TError n m) = mkAuthError OAUTH_FAILED m true.
Proof.
  intros F Hn1 Hn2. pose proof (toLowerCase_no_ascii m F) as L.
  assert (A : forall c p, ascii_lower c = true ->
            includes (toLowerCase m) (c :: p) = false).
  { intros c p Hc. apply includes_letter_absent. eapply List.Forall_impl; [|exact L].
    intros d Hd ->. rewrite Hc in Hd. discriminate. }
  unfold handleError, isNetworkError. cbv beta iota.
  rewrite !(bool_decide_eq_false_2 (_ = _)) by assumption.
  unfold createGenericError, s2u. cbn [list_ascii_of_string map].
  rewrite !A by reflexivity. reflexivity.
Qed.



Lemma retry_retryable_failures {A} (op : nat -> Settle A) c tms (t : nat -> Thrown) :
  (forall k, op k = Rejects (t k)) -> (forall k, retryable (handleError (t k)) = true) ->
  maxRetries c = 2 ->
  executeWithRetry_run op c tms =
    mkRetryRun (mkEHResult false None (Some (handleError (t 2))) 2) 3
      [backoff_delay c 0; backoff_delay c 1].
Proof.
  intros Hop Hr Hmax. unfold executeWithRetry_run. rewrite Hmax.
  cbn [retry_loop]. rewrite Hmax, !Hop. cbn [executeWithTimeout].
  cbv zeta. rewrite !Hr. reflexivity.
Qed.

Lemma getTokens_truthy st tokens :
  getTokens st = Some tokens ->
  js_truthy_str (Some (id_token tokens)) = true /\
  (forall r, refresh_token tokens = Some r ->
     st !! REFRESH_TOKEN = Some r /\ js_truthy_str (Some r) = true).
Proof.
  unfold getTokens. destruct (st !! ID_TOKEN) as [idt|]; [|discriminate].
  destruct (js_truthy_str (Some idt)) eqn:Hi; [|discriminate].
  intros H. injection H as <-. cbn [id_token refresh_token]. split; [exact Hi|].
  intros r. destruct (js_truthy_str (st !! REFRESH_TOKEN)) eqn:Hr; [|discriminate].
  intros E. rewrite E in Hr. split; [exact E | exact Hr].
Qed.

Lemma letterless_refresh_failed status :
  Forall no_letter_src (msg_refresh_failed_prefix ++ digits_of status).
Proof.
  apply Forall_app. split.
  - unfold msg_refresh_failed_prefix, no_letter_src. repeat constructor; lia.
  - destruct (digits_of_spec status) as [ds [-> [_ [F _]]]].
    eapply List.Forall_impl; [|exact F]. unfold is_digit, no_letter_src. intros c Hc.
    apply andb_true_iff in Hc as [H1 H2]. apply N.leb_le in H1. apply N.leb_le in H2. lia.
Qed.

(** refreshToken when the token endpoint answers the first request with
    an ok response whose body is JSON other than null: it returns true
    after one request, and getTokens then reads back the new access token
    (the string 'undefined' when the response has none), the new id token
    when it is non-empty and the old one otherwise, and the old refresh
    token; the stored expiry is now + expires_in * 1000, with expires_in
    3600 when the response's is missing or 0. *)
Theorem refreshToken_first_response_ok svc clientId now st endpoint tokens r
    status acc idt exps :
  getTokens st = Some tokens -> refresh_token tokens = Some r ->
  endpoint 0 = TE_Response true status acc idt exps ->
  let '(ok, st', requests, _) := refreshToken svc clientId now st endpoint in
  ok = true /\ requests = 1 /\
  getTokens st' =
    Some (mkTokens (default (s2u "undefined") acc)
            (if js_truthy_str idt then default [] idt else id_token tokens) 3600
            (Some r) (s2u "openid email profile") (s2u "Bearer")) /\
  getTokenExpiryTime st' =
    Some (Some (Z.of_N (now + match exps with Some (Npos p) => Npos p | _ => 3600 end * 1000))).
Proof.
  intros Ht Hr He. destruct (getTokens_truthy st tokens Ht) as [Hid Hrt].
  destruct (Hrt r Hr) as [Hst Hrtruthy].
  set (u := mkTokens (default (s2u "undefined") acc)
              (if js_truthy_str idt then default [] idt else id_token tokens)
              (match exps with Some (Npos p) => Npos p | _ => 3600%N end)
              (refresh_token tokens) (scope tokens) (token_type tokens)).
  assert (A : refresh_attempt clientId now st (endpoint 0) = Resolves (true, saveTokens now u st)).
  { rewrite He. unfold refresh_attempt. rewrite Ht. subst u. rewrite Hr. reflexivity. }
  assert (Hu : js_truthy_str (Some (id_token u)) = true).
  { subst u. cbn [id_token]. destruct idt as [[|c l]|]; cbn; try reflexivity; exact Hid. }
  unfold refreshToken, executeWithRetry, executeWithRetry_run, refresh_reaches_fetch.
  rewrite Ht, Hr. cbn [mergeRetryConfig defaultRetryConfig retries p_maxRetries default
    maxRetries retry_loop]. rewrite A.
  cbn [executeWithTimeout run_result success data calls].
  split; [reflexivity|]. split; [reflexivity|]. split.
  - rewrite (getTokens_saveTokens now u st Hu). subst u.
    cbn [access_token id_token refresh_token]. rewrite Hr, Hrtruthy. reflexivity.
  - rewrite getTokenExpiryTime_saveTokens. reflexivity.
Qed.

Lemma refreshToken_first_response_ok_witness :
  getTokens sample_session = Some sample_session_tokens /\
  (let '(ok, st', requests, _) :=
     refreshToken defaultService (Some (s2u "cid")) 1000 sample_session
       (fun _ => TE_Response true 200 (Some (s2u "new")) None None) in
   ok = true /\ requests = 1 /\
   getTokens st' =
     Some (mkTokens (default (s2u "undefined") (Some (s2u "new")))
             (if js_truthy_str None then default [] None else id_token sample_session_tokens) 3600
             (Some (s2u "rt")) (s2u "openid email profile") (s2u "Bearer")) /\
   getTokenExpiryTime st' =
     Some (Some (Z.of_N (1000 + match (@None N) with Some (Npos p) => Npos p | _ => 3600 end * 1000)))).
Proof.
  split; [vm_compute; reflexivity|].
  apply (refreshToken_first_response_ok defaultService (Some (s2u "cid")) 1000 sample_session
           (fun _ => TE_Response true 200 (Some (s2u "new")) None None)
           sample_session_tokens (s2u "rt") 200 (Some (s2u "new")) None None);
    [vm_compute; reflexivity | reflexivity | reflexivity].
Defined.

(* an ok response whose body is null makes the attempt throw a TypeError,
   classified OAUTH_FAILED and retryable: the request is sent 3 times and
   refreshToken returns false with localStorage as it was *)
Lemma refresh_ok_null_retried :
  let '(ok, st', requests, _) :=
    refreshToken defaultService (Some (s2u "cid")) 1000 sample_session
      (fun _ => TE_OkNull (s2u "Cannot read properties of null (reading 'access_token')")) in
  ok = false /\ st' = sample_session /\ requests = 3.
Proof. vm_compute. auto. Qed.

(** refreshToken when the token endpoint answers every request with a
    non-ok status: the failure is thrown as an Error whose message has no
    ASCII letter, so it is classified OAUTH_FAILED and retryable, and the
    request is sent 3 times, with waits of 1000 and 2000 ms in between;
    refreshToken returns false, leaves localStorage as it was, and the
    run's error carries the status of the third response. *)
Theorem refreshToken_all_responses_not_ok svc clientId now st endpoint tokens r
    (status : nat -> N) :
  getTokens st = Some tokens -> refresh_token tokens = Some r ->
  (forall k, exists acc idt exps, endpoint k = TE_Response false (status k) acc idt exps) ->
  let '(ok, st', requests, run) := refreshToken svc clientId now st endpoint in
  ok = false /\ st' = st /\ requests = 3 /\ sleeps run = [1000; 2000]%N /\
  retryCount (run_result run) = 2 /\
  failure_error (run_result run) =
    Some (mkAuthError OAUTH_FAILED (msg_refresh_failed_prefix ++ digits_of (status 2)) true).
Proof.
  intros Ht Hr He.
  assert (A : forall k, refresh_attempt clientId now st (endpoint k) =
    Rejects (TError (s2u "Error") (msg_refresh_failed_prefix ++ digits_of (status k)))).
  { intros k. destruct (He k) as [acc [idt [exps E]]]. rewrite E.
    unfold refresh_attempt. rewrite Ht, Hr. reflexivity. }
  assert (C : forall k, handleError (TError (s2u "Error")
                 (msg_refresh_failed_prefix ++ digits_of (status k))) =
              mkAuthError OAUTH_FAILED (msg_refresh_failed_prefix ++ digits_of (status k)) true).
  { intros k. apply handleError_letterless_message_aux.
    - apply letterless_refresh_failed.
    - discriminate.
    - discriminate. }
  unfold refreshToken, executeWithRetry, refresh_reaches_fetch. rewrite Ht, Hr.
  rewrite (retry_retryable_failures _ _ _
             (fun k => TError (s2u "Error") (msg_refresh_failed_prefix ++ digits_of (status k))) A).
  - cbn [run_result success data calls sleeps retryCount failure_error].
    rewrite C. repeat split; reflexivity.
  - intros k. rewrite C. reflexivity.
  - reflexivity.
Qed.

Lemma refreshToken_all_responses_not_ok_witness :
  getTokens sample_session = Some sample_session_tokens /\
  (let '(ok, st', requests, run) :=
     refreshToken defaultService (Some (s2u "cid")) 1000 sample_session
       (fun k => TE_Response false (500 + N.of_nat k) None None None) in
   ok = false /\ st' = sample_session /\ requests = 3 /\ sleeps run = [1000; 2000]%N /\
   retryCount (run_result run) = 2 /\
   failure_error (run_result run) =
     Some (mkAuthError OAUTH_FAILED
             (msg_refresh_failed_prefix ++ digits_of ((fun k => (500 + N.of_nat k)%N) 2)) true)).
Proof.
  split; [vm_compute; reflexivity|].
  apply (refreshToken_all_responses_not_ok defaultService (Some (s2u "cid")) 1000 sample_session
           (fun k => TE_Response false (500 + N.of_nat k) None None None)
           sample_session_tokens (s2u "rt") (fun k => 500 + N.of_nat k)%N);
    [vm_compute; reflexivity | reflexivity |].
  intros k. exists None, None, None. reflexivity.
Defined.

(** When One Tap is not displayed and showLoginPopup rejects (no client
    id, popup blocked, popup closed), login resolves with OAUTH_FAILED,
    retryable = true and the generic 'unexpected error' message: the
    rejected object has no `type` of its own, so the error it carries
    (for a missing client id a non-retryable CONFIG_ERROR) never reaches
    the caller. *)
Theorem popup_rejection_reported_as_unexpected clientId w e :
  showLoginPopup clientId w = Some e ->
  popup_fallback clientId w = Some (LoginFailed (mkAuthError OAUTH_FAILED msg_unexpected true)) /\
  e <> mkAuthError OAUTH_FAILED msg_unexpected true.
Proof.
  unfold popup_fallback. intros H. rewrite H. split; [reflexivity|].
  unfold showLoginPopup in H.
  destruct (negb (js_truthy_str clientId)); [injection H as <-; discriminate|].
  destruct w; try discriminate; injection H as <-; discriminate.
Qed.

Lemma popup_rejection_reported_as_unexpected_witness :
  showLoginPopup None PopupStaysOpen = Some (mkAuthError CONFIG_ERROR msg_no_client_id false) /\
  popup_fallback None PopupStaysOpen =
    Some (LoginFailed (mkAuthError OAUTH_FAILED msg_unexpected true)) /\
  mkAuthError CONFIG_ERROR msg_no_client_id false <> mkAuthError OAUTH_FAILED msg_unexpected true.
Proof.
  split; [reflexivity|]. apply popup_rejection_reported_as_unexpected. reflexivity.
Defined.

Lemma validateConfig_inr doc c : validateConfig doc = inr c ->
  exists l, get_field doc (s2u "allowedEmails") = Some (JArr l) /\ check_emails l = None /\
            allowedEmails c = json_strings l.
Proof.
  unfold validateConfig.
  destruct (negb (truthy (Some doc)) || negb (is_object doc)); [discriminate|].
  destruct (get_field doc (s2u "googleClientId")) as [[| | |cid| |]|]; try discriminate.
  destruct (negb (truthy (Some (JStr cid)))); [discriminate|].
  destruct (get_field doc (s2u "allowedEmails")) as [[| | | |l|]|]; try discriminate.
  destruct (get_field doc (s2u "version")) as [[| | |ver| |]|]; try discriminate.
  destruct (negb (truthy (Some (JStr ver)))); [discriminate|].
  destruct (check_emails l) eqn:Ce; [discriminate|]. intros H. injection H as <-.
  exists l. split; [reflexivity|]. split; [exact Ce | reflexivity].
Qed.

Lemma json_strings_valid l :
  Forall (fun v => exists s, v = JStr s /\ code_email_shape s) l ->
  l = map JStr (json_strings l) /\ Forall (fun a => isValidEmail a = true) (json_strings l).
Proof.
  induction l as [|v l IH]; intros F; [split; constructor|].
  inversion F as [|? ? [s [-> Hs]] F']; subst. destruct (IH F') as [E V].
  cbn [json_strings map]. split; [rewrite <- E; reflexivity|].
  constructor; [apply isValidEmail_spec; exact Hs | exact V].
Qed.

Lemma loadConfig_inr_entries f c : loadConfig f = inr c ->
  exists status txt doc, f = FetchResponse true status txt (inr doc) /\
    get_field doc (s2u "allowedEmails") = Some (JArr (map JStr (allowedEmails c))) /\
    Forall (fun a => isValidEmail a = true) (allowedEmails c).
Proof.
  destruct f as [m|[] status txt [pm|doc]]; cbn; try discriminate.
  destruct (validateConfig doc) as [m|c'] eqn:V; [discriminate|]. intros H. injection H as <-.
  destruct (validateConfig_inr doc c' V) as [l [G [N0 E]]].
  apply check_emails_none in N0. destruct (json_strings_valid l N0) as [El Vl].
  exists status, txt, doc. rewrite E, <- El. auto.
Qed.

(** getAllowedEmails with nothing cached: when it returns a list, the
    config was fetched with an ok response whose JSON document has an
    allowedEmails array made of exactly those strings, in order, each
    accepted by isValidEmail, and the config is now cached. *)
Theorem getAllowedEmails_fetched_entries f emails al' :
  getAllowedEmails f None = (inr emails, al') ->
  al' <> None /\
  exists status txt doc, f = FetchResponse true status txt (inr doc) /\
    get_field doc (s2u "allowedEmails") = Some (JArr (map JStr emails)) /\
    Forall (fun a => isValidEmail a = true) emails.
Proof.
  unfold getAllowedEmails. destruct (loadConfig f) as [err|c] eqn:L; [discriminate|].
  intros H. injection H as <- <-. split; [discriminate|].
  exact (loadConfig_inr_entries f c L).
Qed.

Lemma getAllowedEmails_fetched_entries_witness :
  getAllowedEmails sample_fetch None =
    (inr [s2u "a@x.com"], Some (mkConfig (s2u "cid") [s2u "a@x.com"] (s2u "1.0"))) /\
  (Some (mkConfig (s2u "cid") [s2u "a@x.com"] (s2u "1.0")) <> None /\
   exists status txt doc, sample_fetch = FetchResponse true status txt (inr doc) /\
     get_field doc (s2u "allowedEmails") = Some (JArr (map JStr [s2u "a@x.com"])) /\
     Forall (fun a => isValidEmail a = true) [s2u "a@x.com"]).
Proof.
  split; [vm_compute; reflexivity|].
  apply getAllowedEmails_fetched_entries. vm_compute. reflexivity.
Defined.

(** checkEmailAllowed with nothing cached admits every case variant of
    every email of the policy it loads: validateConfig has already
    accepted each listed entry, so the syntax check passes, the verdict
    is allowed with no reason, and the policy is cached. *)
Theorem listed_email_admitted f c a e :
  loadConfig f = inr c -> In a (allowedEmails c) -> toLowerCase e = toLowerCase a ->
  checkEmailAllowed f None e = (inr (mkCheck true e None), Some c).
Proof.
  intros L Hin He. destruct (loadConfig_inr_entries f c L) as [_ [_ [_ [_ [_ V]]]]].
  rewrite List.Forall_forall in V.
  assert (Ve : isValidEmail e = true).
  { rewrite <- isValidEmail_lower, He, isValidEmail_lower. exact (V a Hin). }
  unfold checkEmailAllowed. rewrite L. unfold check_loaded. rewrite Ve.
  assert (X : existsb (fun a0 => bool_decide (toLowerCase a0 = toLowerCase e)) (allowedEmails c) = true).
  { apply existsb_lower_eq. exists a. auto. }
  cbn [negb]. rewrite X. reflexivity.
Qed.

Lemma listed_email_admitted_witness :
  loadConfig sample_fetch = inr (mkConfig (s2u "cid") [s2u "a@x.com"] (s2u "1.0")) /\
  checkEmailAllowed sample_fetch None (s2u "A@X.Com") =
    (inr (mkCheck true (s2u "A@X.Com") None),
     Some (mkConfig (s2u "cid") [s2u "a@x.com"] (s2u "1.0"))).
Proof.
  split; [vm_compute; reflexivity|].
  apply (listed_email_admitted sample_fetch _ (s2u "a@x.com")).
  - vm_compute. reflexivity.
  - left. reflexivity.
  - vm_compute. reflexivity.
Defined.

(** reloadConfig clears the cached policy before fetching, so a failed
    reload leaves no policy at all, even when a valid one was cached: it
    rejects with the load error, and the next checkEmailAllowed has to
    fetch again and, on the same failing fetch, rejects as well instead
    of answering from the old policy. *)
Theorem reload_failure_drops_cache f c err e :
  loadConfig f = inl err ->
  reloadConfig f (Some c) = (inl err, None) /\
  checkEmailAllowed f (reloadConfig f (Some c)).2 e = (inl err, None) /\
  checkEmailAllowed f (Some c) e = (inr (check_loaded c e), Some c).
Proof.
  intros L. unfold reloadConfig. rewrite L. cbn [snd]. split; [reflexivity|].
  unfold checkEmailAllowed. rewrite L. split; reflexivity.
Qed.

Lemma reload_failure_drops_cache_witness :
  loadConfig (FetchRejected (s2u "Failed to fetch")) = inl (configError (s2u "Failed to fetch")) /\
  reloadConfig (FetchRejected (s2u "Failed to fetch")) (Some sample_policy) =
    (inl (configError (s2u "Failed to fetch")), None) /\
  checkEmailAllowed (FetchRejected (s2u "Failed to fetch"))
    (reloadConfig (FetchRejected (s2u "Failed to fetch")) (Some sample_policy)).2 (s2u "A@x.com") =
    (inl (configError (s2u "Failed to fetch")), None) /\
  checkEmailAllowed (FetchRejected (s2u "Failed to fetch")) (Some sample_policy) (s2u "A@x.com") =
    (inr (check_loaded sample_policy (s2u "A@x.com")), Some sample_policy).
Proof.
  split; [reflexivity|]. apply reload_failure_drops_cache. reflexivity.
Defined.

Lemma split_unit_cons sep s l w ws :
  split_unit sep s = l :: w :: ws ->
  exists r, s = l ++ sep :: r /\ ~ In sep l /\ split_unit sep r = w :: ws.
Proof.
  revert l. induction s as [|c s IH]; intros l H; cbn [split_unit] in H; [discriminate|].
  destruct (N.eqb_spec c sep) as [->|Hc].
  - injection H as <- H. exists s. split; [reflexivity|]. split; [intros []|exact H].
  - destruct (split_unit sep s) as [|v vs] eqn:E; [discriminate|].
    injection H as <- Hvs. subst vs. destruct (IH v eq_refl) as [r [-> [Hv Hr]]].
    exists r. split; [reflexivity|]. split; [|exact Hr].
    intros [H|H]; [exact (Hc H) | exact (Hv H)].
Qed.

Lemma split_unit_three sep s a b c :
  split_unit sep s = [a; b; c] <->
  s = a ++ sep :: b ++ sep :: c /\ ~ In sep a /\ ~ In sep b /\ ~ In sep c.
Proof.
  split.
  - intros H. destruct (split_unit_cons sep s a b [c] H) as [r [-> [Ha Hr]]].
    apply split_unit_two in Hr as [-> [Hb Hc]]. auto.
  - intros [-> [Ha [Hb Hc]]]. rewrite split_unit_app by exact Ha.
    rewrite split_unit_app by exact Hb. rewrite split_unit_noin by exact Hc. reflexivity.
Qed.

(** decodeJWT accepts exactly the tokens with two '.' separators, and
    decodes the middle part only: the header and the signature parts
    are never read, so replacing them by any other dot-free strings
    gives the same payload (the signature is not checked). *)
Theorem decodeJWT_shape dp token p :
  (decodeJWT dp token = Some p <->
   exists a b c, token = a ++ DOT :: b ++ DOT :: c /\
     ~ In DOT a /\ ~ In DOT b /\ ~ In DOT c /\ dp b = Some p) /\
  (forall a b c a' c', ~ In DOT a -> ~ In DOT b -> ~ In DOT c -> ~ In DOT a' -> ~ In DOT c' ->
     decodeJWT dp (a ++ DOT :: b ++ DOT :: c) = decodeJWT dp (a' ++ DOT :: b ++ DOT :: c')).
Proof.
  unfold decodeJWT. split.
  - split.
    + destruct (split_unit DOT token) as [|a [|b [|c [|x l]]]] eqn:E; try discriminate.
      intros H. apply split_unit_three in E as [-> [Ha [Hb Hc]]].
      exists a, b, c. auto.
    + intros [a [b [c [-> [Ha [Hb [Hc H]]]]]]].
      rewrite (proj2 (split_unit_three DOT _ a b c)) by auto. exact H.
  - intros a b c a' c' Ha Hb Hc Ha' Hc'.
    rewrite (proj2 (split_unit_three DOT _ a b c)) by auto.
    rewrite (proj2 (split_unit_three DOT _ a' b c')) by auto. reflexivity.
Qed.

(** useAuth.logout always ends signed out with no error: the service
    logout never rejects, so the operation succeeds on its one attempt
    and the NETWORK_ERROR 'logout failed' branch is never taken; the
    tokens and the user info are gone from localStorage. *)
Theorem hook_logout_always_clean svc pu s st :
  let '(s', st', run) := hook_logout svc s st in
  s' = mkAuthState false None false None /\ calls run = 1 /\
  st' = logout st /\ getTokens st' = None /\ getUserInfo pu st' = None.
Proof.
  unfold hook_logout, executeWithRetry, executeWithRetry_run.
  cbn [mergeRetryConfig defaultRetryConfig retries p_maxRetries default maxRetries retry_loop
       executeWithTimeout run_result success data calls].
  split; [reflexivity|]. split; [reflexivity|]. split; [reflexivity|].
  split; [apply getTokens_logout | apply getUserInfo_logout].
Qed.

Lemma refreshToken_failure_keeps_storage svc clientId now st endpoint :
  (refreshToken svc clientId now st endpoint).1.1.1 = false ->
  (refreshToken svc clientId now st endpoint).1.1.2 = st.
Proof.
  unfold refreshToken. cbn [fst snd].
  destruct (executeWithRetry_shape svc (fun k => refresh_attempt clientId now st (endpoint k))
              (retries 2 1000)) as [_ [_ [_ [_ H]]]].
  destruct (executeWithTimeout _ _) as [a|t]; destruct H as [S [D _]].
  - rewrite S. discriminate.
  - rewrite D. reflexivity.
Qed.

(** useAuth.refreshToken when the service's refreshToken returns false
    (no refresh token stored, or every request failed): the hook returns
    false and runs logout, so it ends signed out with no error and with
    the session removed from localStorage, whatever checkAuthStatus does. *)
Theorem hook_refresh_failure_signs_out car svc clientId now s st endpoint :
  (refreshToken svc clientId now st endpoint).1.1.1 = false ->
  hook_refreshToken car svc clientId now s st endpoint =
    (false, mkAuthState false None false None, logout st).
Proof.
  intros H. pose proof (refreshToken_failure_keeps_storage svc clientId now st endpoint H) as K.
  unfold hook_refreshToken.
  destruct (refreshToken svc clientId now st endpoint) as [[[ok st1] n] run].
  cbn [fst snd] in H, K. subst ok st1.
  unfold hook_logout, executeWithRetry, executeWithRetry_run.
  cbn [mergeRetryConfig defaultRetryConfig retries p_maxRetries default maxRetries retry_loop
       executeWithTimeout run_result success data calls].
  reflexivity.
Qed.

Lemma hook_refresh_failure_signs_out_witness :
  (refreshToken defaultService None 0 sample_session (fun _ => TE_Slow)).1.1.1 = false /\
  hook_refreshToken (fun s st => (s, st)) defaultService None 0
    (mkAuthState true (Some sample_user) false None) sample_session (fun _ => TE_Slow) =
    (false, mkAuthState false None false None, logout sample_session).
Proof.
  split; [vm_compute; reflexivity|].
  apply hook_refresh_failure_signs_out. vm_compute. reflexivity.
Defined.

Lemma checkEmailAllowed_inr f al e r al' :
  checkEmailAllowed f al e = (inr r, al') -> exists c, al' = Some c /\ r = check_loaded c e.
Proof.
  unfold checkEmailAllowed. destruct al as [c|].
  - intros H. injection H as <- <-. eauto.
  - destruct (loadConfig f) as [err|c]; [discriminate|]. intros H. injection H as <- <-. eauto.
Qed.

Lemma getUserInfo_saveUserInfo su pu p st :
  js_truthy_str (Some (su (user_of_payload p))) = true ->
  getUserInfo pu (saveUserInfo su p st) = pu (su (user_of_payload p)).
Proof.
  intros T. unfold getUserInfo, saveUserInfo. rewrite lookup_insert_eq. rewrite T. reflexivity.
Qed.

(** A successful credential login is picked up by getCurrentUser until the
    session expires: as long as the stored user info parses back to the
    logged-in user and the time is before both now + 3600 s and the
    credential's exp, getCurrentUser returns that user from the policy the
    login cached, without fetching it again and without touching storage. *)
Theorem login_then_getCurrentUser dp su pu f f' now cred st al u st' al' tm :
  handleCredentialResponse dp su f now (Some cred) st al = (LoginOk u, st', al') ->
  js_truthy_str (Some (su u)) = true -> pu (su u) = Some u ->
  (tm < now + 3600000)%N ->
  (forall p, decodeJWT dp cred = Some p -> (Z.of_N tm < exp p * 1000)%Z) ->
  getCurrentUser dp pu f' tm st' al' = (Some u, st', al').
Proof.
  intros H Tsu Hpu Htm Hexp. unfold handleCredentialResponse in H.
  destruct (js_truthy_str (Some cred)) eqn:T; cbn [negb] in H; [|discriminate H].
  destruct (decodeJWT dp cred) as [p|] eqn:D; [|discriminate H].
  destruct (checkEmailAllowed f al (p_email p)) as [[err|r] al2] eqn:C; [discriminate H|].
  destruct (isAllowed r) eqn:A; cbn [negb] in H; [|discriminate H].
  injection H as <- <- <-.
  destruct (checkEmailAllowed_inr f al _ r al2 C) as [c [-> ->]].
  set (t := mkTokens [] cred 3600 None (s2u "openid email profile") (s2u "Bearer")).
  assert (V : isTokenValid dp tm (saveUserInfo su p (saveTokens now t st)) = true).
  { apply (proj2 (isTokenValid_after_save dp su now t st p tm T D
                   ltac:(unfold t; cbn [expires_in]; lia))).
    unfold t. cbn [expires_in]. split; [lia | exact (Hexp p eq_refl)]. }
  unfold getCurrentUser. rewrite V. cbn [negb].
  rewrite getUserInfo_saveUserInfo by exact Tsu. rewrite Hpu.
  cbn [checkEmailAllowed email user_of_payload]. rewrite A. reflexivity.
Qed.

Lemma login_then_getCurrentUser_witness :
  handleCredentialResponse (fun _ => Some sample_payload) (fun _ => [1%N]) (FetchRejected [])
    1000 (Some (s2u "h.p.s")) ∅ (Some sample_policy) =
    (LoginOk (user_of_payload sample_payload),
     saveUserInfo (fun _ => [1%N]) sample_payload
       (saveTokens 1000 (mkTokens [] (s2u "h.p.s") 3600 None
                           (s2u "openid email profile") (s2u "Bearer")) ∅),
     Some sample_policy) /\
  getCurrentUser (fun _ => Some sample_payload) (fun _ => Some (user_of_payload sample_payload))
    (FetchRejected []) 2000
    (saveUserInfo (fun _ => [1%N]) sample_payload
       (saveTokens 1000 (mkTokens [] (s2u "h.p.s") 3600 None
                           (s2u "openid email profile") (s2u "Bearer")) ∅))
    (Some sample_policy) =
    (Some (user_of_payload sample_payload),
     saveUserInfo (fun _ => [1%N]) sample_payload
       (saveTokens 1000 (mkTokens [] (s2u "h.p.s") 3600 None
                           (s2u "openid email profile") (s2u "Bearer")) ∅),
     Some sample_policy).
Proof.
  split; [vm_compute; reflexivity|].
  apply (login_then_getCurrentUser (fun _ => Some sample_payload) (fun _ => [1%N])
           (fun _ => Some (user_of_payload sample_payload)) (FetchRejected []) (FetchRejected [])
           1000 (s2u "h.p.s") ∅ (Some sample_policy)).
  - vm_compute. reflexivity.
  - reflexivity.
  - reflexivity.
  - vm_compute. reflexivity.
  - intros p Hp. vm_compute in Hp. injection Hp as <-. vm_compute. reflexivity.
Defined.

Lemma getTokens_delete_expiry st : getTokens (delete EXPIRY_TIME st) = getTokens st.
Proof.
  unfold getTokens, EXPIRY_TIME, ID_TOKEN, ACCESS_TOKEN, REFRESH_TOKEN.
  rewrite !lookup_delete_ne by discriminate. reflexivity.
Qed.

(** isTokenValid treats a stored expiry that parseInt reads as NaN or 0
    (for example "abc" or "0") exactly as a missing one: the local expiry
    check is skipped and only the credential's exp claim decides. *)
Theorem isTokenValid_unusable_expiry dp now st :
  match getTokenExpiryTime st with Some (Some z) => z = 0%Z | _ => True end ->
  isTokenValid dp now st = isTokenValid dp now (delete EXPIRY_TIME st).
Proof.
  intros H. unfold isTokenValid. rewrite getTokens_delete_expiry.
  assert (E : getTokenExpiryTime (delete EXPIRY_TIME st) = None).
  { unfold getTokenExpiryTime. rewrite lookup_delete_eq. reflexivity. }
  rewrite E. destruct (getTokens st) as [tokens|]; [|reflexivity].
  destruct (negb _); [reflexivity|].
  destruct (getTokenExpiryTime st) as [[z|]|]; [subst z|reflexivity|reflexivity].
  reflexivity.
Qed.

Lemma isTokenValid_unusable_expiry_witness :
  match getTokenExpiryTime (<[EXPIRY_TIME := s2u "soon"]> sample_session) with
  | Some (Some z) => z = 0%Z | _ => True end /\
  isTokenValid (fun _ => Some sample_payload) 4000000 (<[EXPIRY_TIME := s2u "soon"]> sample_session) =
  isTokenValid (fun _ => Some sample_payload) 4000000
    (delete EXPIRY_TIME (<[EXPIRY_TIME := s2u "soon"]> sample_session)).
Proof.
  split; [vm_compute; exact I|]. apply isTokenValid_unusable_expiry. vm_compute. exact I.
Defined.
